(** * tradingSystem: the analysis core of [detection/src]

    A shallow embedding of [indicators.py], [trading_theory.py] and
    [trading_advisor.py].  Prices, volumes and scores are Python floats in the
    source; they are modelled as exact rationals ([Q]), so the development
    speaks about the arithmetic the code writes down, not about binary
    rounding.  Python exceptions are explicit: a subscript, a builtin
    [max]/[min] of a sequence or a float division that can fail goes through
    the [result] monad below.

    Where the code computes with binary doubles the model computes with the
    exact numbers, so the two can differ by the rounding of the double
    operations: a sum or a mean can be off in its last places, and
    [round(x, 2)] of a value within such an error of a tie can fall on the
    other side.  Properties of values that pass through such operations
    are therefore stated as comparisons, as bounds that every monotone
    rounding keeps, as the expression the code itself evaluates, or with a
    tolerance. *)

From Stdlib Require Import String Ascii DecimalString.
From Stdlib Require Import QArith Qround Qabs ZArith List Bool Lia Lqa PeanoNat.
Import ListNotations.

Open Scope Q_scope.

(** ** Python exceptions as an error monad *)

Inductive exn : Type :=
| IndexError
| ZeroDivisionError
| ValueError
| KeyError.

Inductive result (A : Type) : Type :=
| Ok (a : A)
| Raise (e : exn).

Arguments Ok {A} a.
Arguments Raise {A} e.

Definition bind {A B : Type} (m : result A) (k : A -> result B) : result B :=
  match m with
  | Ok a => k a
  | Raise e => Raise e
  end.

Declare Scope py_scope.
Delimit Scope py_scope with py.
Notation "x <- m ;; k" := (bind m (fun x => k))
  (at level 61, m at next level, right associativity) : py_scope.
Notation "' p <- m ;; k" := (bind m (fun x => let p := x in k))
  (at level 61, p pattern, m at next level, right associativity) : py_scope.
Open Scope py_scope.

(** [for x in xs: acc.append(f x)], stopping at the first exception. *)
Fixpoint for_append {A B : Type} (f : A -> result B) (xs : list A) : result (list B) :=
  match xs with
  | [] => Ok []
  | x :: xs' =>
      y <- f x ;;
      ys <- for_append f xs' ;;
      Ok (y :: ys)
  end.

(** [for x in xs: s = step s x], stopping at the first exception. *)
Fixpoint for_fold {S A : Type} (step : S -> A -> result S) (s : S) (xs : list A)
  : result S :=
  match xs with
  | [] => Ok s
  | x :: xs' =>
      s' <- step s x ;;
      for_fold step s' xs'
  end.

(** [a and b], where evaluating [b] may raise: [b] is not evaluated when [a]
    is false. *)
Definition and_then (a : bool) (b : result bool) : result bool :=
  if a then b else Ok false.

(** ** Python lists *)

Definition len {A : Type} (l : list A) : Z := Z.of_nat (length l).

(** [l[i]]: a negative index counts from the end, anything outside
    [-len, len) raises [IndexError]. *)
Definition getitem {A : Type} (l : list A) (i : Z) : result A :=
  let j := if (i <? 0)%Z then (i + len l)%Z else i in
  if (j <? 0)%Z then Raise IndexError
  else match nth_error l (Z.to_nat j) with
       | Some x => Ok x
       | None => Raise IndexError
       end.

(** [range(a, b)] as a list of integers. *)
Definition range (a b : Z) : list Z :=
  map (fun k => (a + Z.of_nat k)%Z) (seq 0 (Z.to_nat (b - a))).

(** A slice bound: a negative bound counts from the end, and the result is
    clamped to [0, len]. *)
Definition slice_bound (n i : Z) : Z :=
  let j := if (i <? 0)%Z then (i + n)%Z else i in
  Z.max 0 (Z.min n j).

(** [l[start:stop]], [l[:stop]] and [l[start:]]. *)
Definition py_slice {A : Type} (l : list A) (start stop : Z) : list A :=
  let a := slice_bound (len l) start in
  let b := slice_bound (len l) stop in
  firstn (Z.to_nat (b - a)) (skipn (Z.to_nat a) l).

Definition slice_to {A : Type} (l : list A) (stop : Z) : list A :=
  py_slice l 0 stop.

Definition slice_from {A : Type} (l : list A) (start : Z) : list A :=
  py_slice l start (len l).

(** [l[::2]]: every other element, starting with the first. *)
Fixpoint every_other {A : Type} (l : list A) : list A :=
  match l with
  | [] => []
  | [x] => [x]
  | x :: _ :: l' => x :: every_other l'
  end.

(** ** Floats *)

Definition Qltb (x y : Q) : bool := negb (Qle_bool y x).
Definition Qgtb (x y : Q) : bool := Qltb y x.
Definition Qgeb (x y : Q) : bool := Qle_bool y x.

Definition Qsum (l : list Q) : Q := fold_right Qplus 0 l.

(** [np.mean].  On an empty window numpy yields nan (with a warning) where
    the model yields [0]; no caller in the analysis core reads the mean of an
    empty window, and the properties of indicator values below take a
    period of at least one.  The mean of doubles can differ from the exact
    one in its last places (the mean of twelve 0.1 is
    0.10000000000000002). *)
Definition np_mean (l : list Q) : Q := Qsum l / inject_Z (len l).

(** Float division [a / b] on Python floats. *)
Definition py_div (a b : Q) : result Q :=
  if Qeq_bool b 0 then Raise ZeroDivisionError else Ok (a / b).

(** Division of numpy scalars ([np.float64]) does not raise: a zero divisor
    yields an infinity or nan (and a warning). *)
Inductive npfloat : Type :=
| Finite (q : Q)
| PosInf
| NegInf
| NaN.

Definition np_div (a b : Q) : npfloat :=
  if Qeq_bool b 0 then
    if Qltb 0 a then PosInf else if Qltb a 0 then NegInf else NaN
  else Finite (a / b).

(** [x > c] for a numpy scalar [x] and a finite [c]. *)
Definition np_gt (x : npfloat) (c : Q) : bool :=
  match x with
  | Finite q => Qgtb q c
  | PosInf => true
  | NegInf | NaN => false
  end.

(** Builtin [max(a, b)] and [min(a, b)]: the first argument wins a tie. *)
Definition py_max (a b : Q) : Q := if Qgtb b a then b else a.
Definition py_min (a b : Q) : Q := if Qltb b a then b else a.

(** Builtin [max(l)] and [min(l)]: [ValueError] on an empty sequence. *)
Definition max_of (l : list Q) : result Q :=
  match l with
  | [] => Raise ValueError
  | x :: l' => Ok (fold_left py_max l' x)
  end.

Definition min_of (l : list Q) : result Q :=
  match l with
  | [] => Raise ValueError
  | x :: l' => Ok (fold_left py_min l' x)
  end.

(** [round(x, 2)]: to the nearest multiple of 1/100, a tie going to the even
    one.  The code rounds a double, whose value can lie a rounding error off
    the exact tie and then goes to the other neighbour (0.525 computed as
    0.525000000000000022 gives 0.53); the result is used through its
    monotonicity and its distance from the argument. *)
Definition round_half_even (x : Q) : Z :=
  let f := Qfloor x in
  match Qcompare (x - inject_Z f) (1 # 2) with
  | Lt => f
  | Gt => (f + 1)%Z
  | Eq => if Z.even f then f else (f + 1)%Z
  end.

Definition round2 (x : Q) : Q := inject_Z (round_half_even (x * 100)) / 100.

(** [sorted(l)] and [sorted(l, reverse=True)]: stable insertion, an element
    going in front of the first one it must precede. *)
Fixpoint insert_by (before : Q -> Q -> bool) (x : Q) (l : list Q) : list Q :=
  match l with
  | [] => [x]
  | y :: l' => if before x y then x :: l else y :: insert_by before x l'
  end.

Definition sort_by (before : Q -> Q -> bool) (l : list Q) : list Q :=
  fold_left (fun acc x => insert_by before x acc) l [].

Definition sorted (l : list Q) : list Q := sort_by Qltb l.

Definition sorted_reverse (l : list Q) : list Q := sort_by Qgtb l.

(** [l1 == l2] on lists of floats. *)
Fixpoint list_eqb (l1 l2 : list Q) : bool :=
  match l1, l2 with
  | [], [] => true
  | x :: l1', y :: l2' => Qeq_bool x y && list_eqb l1' l2'
  | _, _ => false
  end.

(** ** Strings *)

Open Scope string_scope.

(** [s.find(sub) >= 0]. *)
Fixpoint contains (sub s : string) : bool :=
  if prefix sub s then true
  else match s with
       | EmptyString => false
       | String _ s' => contains sub s'
       end.

(** [s.startswith(p)]. *)
Definition startswith (s p : string) : bool := prefix p s.

(** [str(n)] for a non-negative integer. *)
Definition str_of_nat (n : nat) : string :=
  NilEmpty.string_of_uint (Nat.to_uint n).

(** Insertion-ordered dictionaries: [d[k] = v] keeps the place of a key
    that is already there. *)
Fixpoint dict_set {V : Type} (d : list (nat * V)) (k : nat) (v : V)
  : list (nat * V) :=
  match d with
  | [] => [(k, v)]
  | (k', v') :: d' =>
      if Nat.eqb k k' then (k, v) :: d' else (k', v') :: dict_set d' k v
  end.

(** ** indicators.py

    Periods are positive integers ([nat], used as [Z] in index arithmetic). *)

Module TechnicalIndicators.

(** [calculate_ma]: per period with enough prices, [None] during the warm-up
    and the rolling mean of the last [period] prices from index [period - 1]
    on.  The result is keyed by period, in the order of [periods]. *)
Definition ma_series (prices : list Q) (period : nat) : list (option Q) :=
  map (fun i =>
         if (Z.of_nat period - 1 <=? i)%Z
         then Some (np_mean (py_slice prices (i - Z.of_nat period + 1) (i + 1)))
         else None)
      (range 0 (len prices)).

Definition calculate_ma (prices : list Q) (periods : list nat)
  : list (nat * list (option Q)) :=
  fold_left
    (fun result period =>
       if (Z.of_nat period <=? len prices)%Z
       then dict_set result period (ma_series prices period)
       else result)
    periods [].

(** [calculate_ema]: the seed is the simple mean of the first [period]
    prices, then one value per price from index [period] on.  [Qred] keeps
    the stored fraction in lowest terms (the previous value occurs twice in
    the recurrence); it does not change the number ([Qred_correct]). *)
Fixpoint ema_loop (multiplier prev : Q) (rest : list Q) : list Q :=
  match rest with
  | [] => []
  | p :: rest' =>
      let ema_value := Qred ((p - prev) * multiplier + prev) in
      ema_value :: ema_loop multiplier ema_value rest'
  end.

Definition calculate_ema (prices : list Q) (period : nat) : list Q :=
  let multiplier := 2 / inject_Z (Z.of_nat period + 1) in
  let sma := np_mean (slice_to prices (Z.of_nat period)) in
  sma :: ema_loop multiplier sma (slice_from prices (Z.of_nat period)).

Record macd_dict : Type := mk_macd {
  DIF : list Q;
  DEA : list Q;
  MACD : list Q
}.

Definition calculate_macd (prices : list Q) (fast slow signal : nat)
  : result macd_dict :=
  if (len prices <? Z.of_nat slow)%Z then Ok (mk_macd [] [] [])
  else
    let ema_fast := calculate_ema prices fast in
    let ema_slow := calculate_ema prices slow in
    dif <- for_append
             (fun i =>
                f <- getitem ema_fast (i + (Z.of_nat slow - Z.of_nat fast)) ;;
                s <- getitem ema_slow i ;;
                Ok (f - s))
             (range 0 (len ema_slow)) ;;
    let dea := calculate_ema dif signal in
    macd <- for_append
              (fun i =>
                 d <- getitem dif (i + (Z.of_nat signal - 1)) ;;
                 e <- getitem dea i ;;
                 Ok ((d - e) * 2))
              (range 0 (len dea)) ;;
    Ok (mk_macd dif dea macd).

Record kdj_dict : Type := mk_kdj {
  K : list Q;
  D : list Q;
  J : list Q
}.

(** The raw stochastic value of bar [i]: 50 when the window has no range. *)
Definition rsv_at (high low close : list Q) (n : nat) (i : Z) : result Q :=
  highest <- max_of (py_slice high (i - Z.of_nat n + 1) (i + 1)) ;;
  lowest <- min_of (py_slice low (i - Z.of_nat n + 1) (i + 1)) ;;
  if Qeq_bool highest lowest then Ok 50
  else
    c <- getitem close i ;;
    q <- py_div (c - lowest) (highest - lowest) ;;
    Ok (q * 100).

(** One pass of the KDJ loop: the state is the running [(k, d)] and the three
    output lists. *)
Definition kdj_step (high low close : list Q) (n m1 m2 : nat)
  (st : Q * Q * kdj_dict) (i : Z) : result (Q * Q * kdj_dict) :=
  let '(k, d, out) := st in
  rsv <- rsv_at high low close n i ;;
  k <- py_div (rsv + (inject_Z (Z.of_nat m1) - 1) * k) (inject_Z (Z.of_nat m1)) ;;
  d <- py_div (k + (inject_Z (Z.of_nat m2) - 1) * d) (inject_Z (Z.of_nat m2)) ;;
  let j := 3 * k - 2 * d in
  Ok (k, d, mk_kdj (K out ++ [k]) (D out ++ [d]) (J out ++ [j])).

Definition calculate_kdj (high low close : list Q) (n m1 m2 : nat)
  : result kdj_dict :=
  if (len close <? Z.of_nat n)%Z then Ok (mk_kdj [] [] [])
  else
    '(_, _, out) <- for_fold (kdj_step high low close n m1 m2)
                      (50, 50, mk_kdj [] [] [])
                      (range (Z.of_nat n - 1) (len close)) ;;
    Ok out.

Record boll_dict : Type := mk_boll {
  UPPER : list Q;
  MIDDLE : list Q;
  LOWER : list Q
}.

(** [np.std]: the population standard deviation.  The square root is not a
    rational function; it is a parameter of the model. *)
Definition np_std (sqrt : Q -> Q) (window : list Q) : Q :=
  let m := np_mean window in
  sqrt (np_mean (map (fun x => Qabs (x - m) * Qabs (x - m)) window)).

Definition calculate_boll (sqrt : Q -> Q) (prices : list Q) (period : nat)
  (std_dev : Q) : boll_dict :=
  if (len prices <? Z.of_nat period)%Z then mk_boll [] [] []
  else
    let rows :=
      map (fun i =>
             let window := py_slice prices (i - Z.of_nat period + 1) (i + 1) in
             let ma := np_mean window in
             let std := np_std sqrt window in
             (ma + std_dev * std, ma, ma - std_dev * std))
          (range (Z.of_nat period - 1) (len prices)) in
    mk_boll (map (fun r => fst (fst r)) rows)
            (map (fun r => snd (fst r)) rows)
            (map snd rows).

(** The RSI of a window from its average gain and loss: 100 when nothing
    was lost. *)
Definition rsi_value (avg_gain avg_loss : Q) : Q :=
  if Qeq_bool avg_loss 0 then 100
  else
    let rs := avg_gain / avg_loss in
    100 - (100 / (1 + rs)).

Definition calculate_rsi (prices : list Q) (period : nat) : result (list Q) :=
  if (len prices <? Z.of_nat period + 1)%Z then Ok []
  else
    changes <- for_append
                 (fun i =>
                    p <- getitem prices i ;;
                    q <- getitem prices (i - 1) ;;
                    Ok (p - q))
                 (range 1 (len prices)) ;;
    let gains := map (fun change => py_max change 0) changes in
    let losses := map (fun change => Qabs (py_min change 0)) changes in
    Ok (map (fun i =>
               let avg_gain :=
                 np_mean (py_slice gains (i - Z.of_nat period + 1) (i + 1)) in
               let avg_loss :=
                 np_mean (py_slice losses (i - Z.of_nat period + 1) (i + 1)) in
               rsi_value avg_gain avg_loss)
            (range (Z.of_nat period - 1) (len gains))).

Definition calculate_atr (high low close : list Q) (period : nat)
  : result (list Q) :=
  if (len close <? Z.of_nat period + 1)%Z then Ok []
  else
    tr_values <- for_append
                   (fun i =>
                      h <- getitem high i ;;
                      l <- getitem low i ;;
                      let tr1 := h - l in
                      c <- getitem close (i - 1) ;;
                      let tr2 := Qabs (h - c) in
                      let tr3 := Qabs (l - c) in
                      Ok (py_max (py_max tr1 tr2) tr3))
                   (range 1 (len close)) ;;
    Ok (map (fun i =>
               np_mean (py_slice tr_values (i - Z.of_nat period + 1) (i + 1)))
            (range (Z.of_nat period - 1) (len tr_values))).

End TechnicalIndicators.

(** ** trading_theory.py *)

Module FibonacciAnalysis.

Definition RETRACEMENT_LEVELS : list Q :=
  [236 # 1000; 382 # 1000; 1 # 2; 618 # 1000; 786 # 1000].

(** [calculate_retracement]: ratio -> price, in the order of the table. *)
Definition calculate_retracement (high low : Q) : list (Q * Q) :=
  let diff := high - low in
  map (fun ratio => (ratio, high - diff * ratio)) RETRACEMENT_LEVELS.

Record support_resistance : Type := mk_sr {
  sr_support : list Q;
  sr_resistance : list Q
}.

Definition find_support_resistance (current_price high low : Q)
  : support_resistance :=
  let retracement := calculate_retracement high low in
  let support :=
    map snd (filter (fun rp => Qltb (snd rp) current_price) retracement) in
  let resistance :=
    map snd (filter (fun rp => negb (Qltb (snd rp) current_price)) retracement) in
  mk_sr (sorted_reverse support) (sorted resistance).

Definition EXTENSION_LEVELS : list Q :=
  [1272 # 1000; 1414 # 1000; 1618 # 1000; 2; 2618 # 1000].

(** [calculate_extension]: ratio -> price, in the order of the table. *)
Definition calculate_extension (start end_ retrace : Q) : list (Q * Q) :=
  let diff := end_ - start in
  map (fun ratio => (ratio, retrace + diff * ratio)) EXTENSION_LEVELS.

End FibonacciAnalysis.

Module ElliottWaveAnalysis.

(** Keys [peaks] and [troughs] are absent from the short-input dictionary. *)
Record wave_info : Type := mk_wave {
  pattern : string;
  phase : string;
  peaks : option Z;
  troughs : option Z
}.

(** One pass of the extremum scan: the state is [(peaks, troughs)], each a
    list of [(index, price)]. *)
Definition extremum_step (prices : list Q)
  (st : list (Z * Q) * list (Z * Q)) (i : Z)
  : result (list (Z * Q) * list (Z * Q)) :=
  let '(peaks, troughs) := st in
  p <- getitem prices i ;;
  before <- getitem prices (i - 1) ;;
  is_peak <- and_then (Qgtb p before)
               (after <- getitem prices (i + 1) ;; Ok (Qgtb p after)) ;;
  if is_peak then Ok ((peaks ++ [(i, p)])%list, troughs)
  else
    is_trough <- and_then (Qltb p before)
                   (after <- getitem prices (i + 1) ;; Ok (Qltb p after)) ;;
    if is_trough then Ok (peaks, (troughs ++ [(i, p)])%list)
    else Ok (peaks, troughs).

Definition identify_wave_pattern (prices : list Q) : result wave_info :=
  if (len prices <? 8)%Z then Ok (mk_wave "数据不足" "未知" None None)
  else
    '(peaks, troughs) <- for_fold (extremum_step prices) ([], [])
                           (range 1 (len prices - 1)) ;;
    '(trend, phase) <-
      (if (2 <=? len peaks)%Z && (2 <=? len troughs)%Z then
         p1 <- getitem peaks (-1) ;;
         p2 <- getitem peaks (-2) ;;
         rising <- and_then (Qgtb (snd p1) (snd p2))
                     (t1 <- getitem troughs (-1) ;;
                      t2 <- getitem troughs (-2) ;;
                      Ok (Qgtb (snd t1) (snd t2))) ;;
         if rising then Ok ("上升趋势", "推动浪")
         else
           falling <- and_then (Qltb (snd p1) (snd p2))
                        (t1 <- getitem troughs (-1) ;;
                         t2 <- getitem troughs (-2) ;;
                         Ok (Qltb (snd t1) (snd t2))) ;;
           if falling then Ok ("下降趋势", "调整浪")
           else Ok ("震荡", "盘整")
       else Ok ("不确定", "观察中")) ;;
    Ok (mk_wave trend phase (Some (len peaks)) (Some (len troughs))).

Record prediction_dict : Type := mk_prediction {
  prediction : string;
  confidence : Q;
  pred_wave_info : wave_info
}.

Definition predict_next_move (prices : list Q) : result prediction_dict :=
  wave_info <- identify_wave_pattern prices ;;
  let '(prediction, confidence) :=
    if String.eqb (pattern wave_info) "上升趋势" then
      if String.eqb (phase wave_info) "推动浪"
      then ("继续上涨概率高", 7 # 10)
      else ("可能回调", 6 # 10)
    else if String.eqb (pattern wave_info) "下降趋势" then
      if String.eqb (phase wave_info) "推动浪"
      then ("继续下跌概率高", 7 # 10)
      else ("可能反弹", 6 # 10)
    else ("震荡为主，等待突破", 5 # 10) in
  Ok (mk_prediction prediction confidence wave_info).

End ElliottWaveAnalysis.

Module ChanTheoryAnalysis.

(** The two values the ['type'] of a segment takes. *)
Inductive bi_type : Type := up | down.

Definition bi_type_eqb (a b : bi_type) : bool :=
  match a, b with
  | up, up | down, down => true
  | _, _ => false
  end.

Record bi : Type := mk_bi {
  type : bi_type;
  start : Z;
  end_ : Z;
  start_price : Q;
  end_price : Q
}.

(** The state of the scan: the segments so far, the current direction
    ([None] until the first move), and where the open segment started. *)
Record bi_state : Type := mk_bi_state {
  bi_list : list bi;
  direction : option bi_type;
  start_idx : Z;
  cur_start_price : Q
}.

Definition bi_step (close : list Q) (st : bi_state) (i : Z) : result bi_state :=
  match direction st with
  | None =>
      c <- getitem close i ;;
      before <- getitem close (i - 1) ;;
      if Qgtb c before then
        Ok (mk_bi_state (bi_list st) (Some up) (start_idx st) (cur_start_price st))
      else
        c <- getitem close i ;;
        before <- getitem close (i - 1) ;;
        if Qltb c before then
          Ok (mk_bi_state (bi_list st) (Some down) (start_idx st) (cur_start_price st))
        else Ok st
  | Some up =>
      c <- getitem close i ;;
      before <- getitem close (i - 1) ;;
      if Qltb c before then
        e <- getitem close (i - 1) ;;
        let b := mk_bi up (start_idx st) (i - 1) (cur_start_price st) e in
        s <- getitem close (i - 1) ;;
        Ok (mk_bi_state (bi_list st ++ [b]) (Some down) (i - 1) s)
      else Ok st
  | Some down =>
      c <- getitem close i ;;
      before <- getitem close (i - 1) ;;
      if Qgtb c before then
        e <- getitem close (i - 1) ;;
        let b := mk_bi down (start_idx st) (i - 1) (cur_start_price st) e in
        s <- getitem close (i - 1) ;;
        Ok (mk_bi_state (bi_list st ++ [b]) (Some up) (i - 1) s)
      else Ok st
  end.

(** [identify_bi]: [high] and [low] are accepted and not read. *)
Definition identify_bi (high low close : list Q) : result (list bi) :=
  if (len close <? 5)%Z then Ok []
  else
    start_price <- getitem close 0 ;;
    st <- for_fold (bi_step close) (mk_bi_state [] None 0 start_price)
            (range 1 (len close)) ;;
    Ok (bi_list st).

(** Key [bi_count] is absent from the short-input dictionary. *)
Record trend_dict : Type := mk_trend {
  trend : string;
  strength : Q;
  bi_count : option Z
}.

Definition analyze_trend (bi_list : list bi) : trend_dict :=
  if (len bi_list <? 3)%Z then mk_trend "数据不足" 0 None
  else
    let recent_bi := slice_from bi_list (-3) in
    if forallb (fun b => bi_type_eqb (type b) up) (every_other recent_bi) then
      mk_trend "强势上涨" (8 # 10) (Some (len bi_list))
    else if forallb (fun b => bi_type_eqb (type b) down) (every_other recent_bi) then
      mk_trend "强势下跌" (8 # 10) (Some (len bi_list))
    else
      mk_trend "震荡" (5 # 10) (Some (len bi_list)).

Record center : Type := mk_center {
  upper : Q;
  lower : Q;
  middle : Q
}.

(** One pass of the loop of [identify_center] over three consecutive
    segments.  The six prices are collected into a list the code does not
    read again; the bounds are taken over the first two segments. *)
Definition center_step (bi_list : list bi) (centers : list center) (i : Z)
  : result (list center) :=
  b0 <- getitem bi_list i ;;
  b1 <- getitem bi_list (i + 1) ;;
  b2 <- getitem bi_list (i + 2) ;;
  let prices :=
    [start_price b0; end_price b0; start_price b1; end_price b1;
     start_price b2; end_price b2] in
  let upper :=
    py_max (py_min (end_price b0) (start_price b0))
           (py_min (end_price b1) (start_price b1)) in
  let lower :=
    py_min (py_max (end_price b0) (start_price b0))
           (py_max (end_price b1) (start_price b1)) in
  if Qgtb upper lower
  then Ok (centers ++ [mk_center upper lower ((upper + lower) / 2)])%list
  else Ok centers.

Definition identify_center (bi_list : list bi) : result (list center) :=
  if (len bi_list <? 3)%Z then Ok []
  else for_fold (center_step bi_list) [] (range 0 (len bi_list - 2)).

End ChanTheoryAnalysis.

Module WyckoffAnalysis.

(** Keys [price_change] and [volume_change] are absent from the short-input
    dictionary. *)
Record phase_dict : Type := mk_phase {
  phase : string;
  action : string;
  price_change : option Q;
  volume_change : option npfloat
}.

Definition identify_phase (prices volumes : list Q) : result phase_dict :=
  if (len prices <? 10)%Z || (len volumes <? 10)%Z
  then Ok (mk_phase "数据不足" "观察" None None)
  else
    last <- getitem prices (-1) ;;
    first <- getitem prices 0 ;;
    divisor <- getitem prices 0 ;;
    price_change <- py_div (last - first) divisor ;;
    let avg_volume_early := np_mean (slice_to volumes (len volumes / 2)) in
    let avg_volume_late := np_mean (slice_from volumes (len volumes / 2)) in
    let volume_change :=
      np_div (avg_volume_late - avg_volume_early) avg_volume_early in
    '(phase, action) <-
      (if Qltb (Qabs price_change) (2 # 100) && np_gt volume_change (3 # 10) then
         last <- getitem prices (-1) ;;
         fifth <- getitem prices (-5) ;;
         if Qgtb last fifth
         then Ok ("吸筹阶段（Accumulation）", "准备做多")
         else Ok ("派发阶段（Distribution）", "准备做空")
       else if Qgtb price_change (5 # 100) && np_gt volume_change 0 then
         Ok ("上涨阶段（Markup）", "持有多单")
       else if Qltb price_change (- (5 # 100)) && np_gt volume_change 0 then
         Ok ("下跌阶段（Markdown）", "持有空单或离场")
       else Ok ("观察阶段", "等待信号")) ;;
    Ok (mk_phase phase action (Some price_change) (Some volume_change)).

(** Key [trend] is absent from the short-input dictionary. *)
Record supply_demand_dict : Type := mk_sd {
  balance : string;
  strength : Q;
  trend : option string
}.

Definition analyze_supply_demand (prices volumes : list Q)
  : result supply_demand_dict :=
  if (len prices <? 5)%Z then Ok (mk_sd "未知" 0 None)
  else
    let recent_prices := slice_from prices (-5) in
    let recent_volumes := slice_from volumes (-5) in
    p_last <- getitem recent_prices (-1) ;;
    p_first <- getitem recent_prices 0 ;;
    let price_trend := p_last - p_first in
    let volume_avg := np_mean recent_volumes in
    let volume_above :=
      v <- getitem recent_volumes (-1) ;; Ok (Qgtb v volume_avg) in
    let volume_below :=
      v <- getitem recent_volumes (-1) ;; Ok (Qltb v volume_avg) in
    let trend := if Qgtb price_trend 0 then "上涨" else "下跌" in
    c1 <- and_then (Qgtb price_trend 0) volume_above ;;
    if c1 then Ok (mk_sd "需求大于供给" (7 # 10) (Some trend))
    else
      c2 <- and_then (Qltb price_trend 0) volume_above ;;
      if c2 then Ok (mk_sd "供给大于需求" (7 # 10) (Some trend))
      else
        c3 <- and_then (Qgtb price_trend 0) volume_below ;;
        if c3 then Ok (mk_sd "需求减弱" (4 # 10) (Some trend))
        else
          c4 <- and_then (Qltb price_trend 0) volume_below ;;
          if c4 then Ok (mk_sd "供给减弱" (4 # 10) (Some trend))
          else Ok (mk_sd "供需平衡" (5 # 10) (Some trend)).

End WyckoffAnalysis.

(** ** trading_advisor.py *)

Module TradingAdvisor.

Import TechnicalIndicators.

(** A kline as [BinanceKlineClient.get_klines] formats it. *)
Record kline : Type := mk_kline {
  open_time : Z;
  open : Q;
  high : Q;
  low : Q;
  close : Q;
  volume : Q;
  close_time : Z;
  quote_volume : Q;
  trades : Z;
  taker_buy_base : Q;
  taker_buy_quote : Q
}.

(** *** Signals of the indicator families *)

Record ma_signal : Type := mk_ma_signal {
  ma_trend : string;
  ma_score : Z;
  ma_signals : list string
}.

(** [values[-1]] when [values and values[-1] is not None]. *)
Definition last_ma (values : list (option Q)) : option Q := last values None.

Definition ma_label (score : Z) : string :=
  if (score >? 3)%Z then "强烈看多"
  else if (score >? 0)%Z then "看多"
  else if (score <? -3)%Z then "强烈看空"
  else if (score <? 0)%Z then "看空"
  else "中性".

(** One pass of the loop over the moving averages: +1 above, -1 otherwise. *)
Definition ma_position_step (current_price : Q) (acc : list string * Z)
  (item : nat * list (option Q)) : list string * Z :=
  let '(signals, score) := acc in
  let '(period, values) := item in
  match last_ma values with
  | Some ma_value =>
      if Qgtb current_price ma_value
      then ((signals ++ [("价格在MA" ++ str_of_nat period ++ "上方")%string])%list,
            (score + 1)%Z)
      else ((signals ++ [("价格在MA" ++ str_of_nat period ++ "下方")%string])%list,
            (score - 1)%Z)
  | None => (signals, score)
  end.

Definition _analyze_ma_signal (current_price : Q)
  (ma_dict : list (nat * list (option Q))) : ma_signal :=
  let '(signals, score) :=
    fold_left (ma_position_step current_price) ma_dict ([], 0%Z) in
  let ma_values :=
    flat_map (fun item : nat * list (option Q) =>
                match last_ma (snd item) with
                | Some v => [v]
                | None => []
                end) ma_dict in
  let '(signals, score) :=
    if list_eqb ma_values (sorted_reverse ma_values)
    then ((signals ++ ["多头排列"])%list, (score + 2)%Z)
    else if list_eqb ma_values (sorted ma_values)
    then ((signals ++ ["空头排列"])%list, (score - 2)%Z)
    else (signals, score) in
  mk_ma_signal (ma_label score) score signals.

(** The dictionary [{signal, score, details}] of MACD, KDJ, BOLL and RSI;
    [details] is absent from the insufficient-data dictionary, and only KDJ
    and RSI add their last values. *)
Record signal_dict : Type := mk_signal {
  signal : string;
  score : Q;
  details : option (list string);
  values : list (string * Q)
}.

Definition insufficient : signal_dict := mk_signal "数据不足" 0 None [].

Definition _analyze_macd_signal (macd : macd_dict) : result signal_dict :=
  if (len (DIF macd) =? 0)%Z || (len (DEA macd) =? 0)%Z then Ok insufficient
  else
    dif <- getitem (DIF macd) (-1) ;;
    dea <- getitem (DEA macd) (-1) ;;
    macd_bar <- getitem (MACD macd) (-1) ;;
    '(signals, score) <-
      (if (2 <=? len (DIF macd))%Z then
         golden <- and_then (Qgtb dif dea)
                     (d2 <- getitem (DIF macd) (-2) ;;
                      e2 <- getitem (DEA macd) (-2) ;;
                      Ok (Qle_bool d2 e2)) ;;
         if golden then Ok (["金叉（买入信号）"], 0 + 2)
         else
           dead <- and_then (Qltb dif dea)
                     (d2 <- getitem (DIF macd) (-2) ;;
                      e2 <- getitem (DEA macd) (-2) ;;
                      Ok (Qgeb d2 e2)) ;;
           if dead then Ok (["死叉（卖出信号）"], 0 - 2)
           else Ok ([], 0)
       else Ok ([], 0)) ;;
    let '(signals, score) :=
      if Qgtb dif 0 && Qgtb dea 0
      then ((signals ++ ["零轴上方（多头市场）"])%list, score + 1)
      else if Qltb dif 0 && Qltb dea 0
      then ((signals ++ ["零轴下方（空头市场）"])%list, score - 1)
      else (signals, score) in
    let '(signals, score) :=
      if Qgtb macd_bar 0
      then ((signals ++ ["柱状图为正（动能增强）"])%list, score + (1 # 2))
      else ((signals ++ ["柱状图为负（动能减弱）"])%list, score - (1 # 2)) in
    let signal :=
      if Qgtb score 2 then "强烈买入"
      else if Qgtb score 0 then "买入"
      else if Qltb score (-2) then "强烈卖出"
      else if Qltb score 0 then "卖出"
      else "观望" in
    Ok (mk_signal signal score (Some signals) []).

Definition _analyze_kdj_signal (kdj : kdj_dict) : result signal_dict :=
  if (len (K kdj) =? 0)%Z then Ok insufficient
  else
    k <- getitem (K kdj) (-1) ;;
    d <- getitem (D kdj) (-1) ;;
    j <- getitem (J kdj) (-1) ;;
    let '(signals, score) :=
      if Qgtb k 80 && Qgtb d 80 then (["超买区域（可能回调）"], 0 - 1)
      else if Qltb k 20 && Qltb d 20 then (["超卖区域（可能反弹）"], 0 + 1)
      else ([], 0) in
    '(signals, score) <-
      (if (2 <=? len (K kdj))%Z then
         golden <- and_then (Qgtb k d)
                     (k2 <- getitem (K kdj) (-2) ;;
                      d2 <- getitem (D kdj) (-2) ;;
                      Ok (Qle_bool k2 d2)) ;;
         if golden then Ok ((signals ++ ["KDJ金叉（买入）"])%list, score + (3 # 2))
         else
           dead <- and_then (Qltb k d)
                     (k2 <- getitem (K kdj) (-2) ;;
                      d2 <- getitem (D kdj) (-2) ;;
                      Ok (Qgeb k2 d2)) ;;
           if dead then Ok ((signals ++ ["KDJ死叉（卖出）"])%list, score - (3 # 2))
           else Ok (signals, score)
       else Ok (signals, score)) ;;
    let '(signals, score) :=
      if Qgtb j 100 then ((signals ++ ["J值超买"])%list, score - (1 # 2))
      else if Qltb j 0 then ((signals ++ ["J值超卖"])%list, score + (1 # 2))
      else (signals, score) in
    let signal :=
      if Qgtb score (3 # 2) then "买入"
      else if Qltb score (- (3 # 2)) then "卖出"
      else "观望" in
    Ok (mk_signal signal score (Some signals) [("K", k); ("D", d); ("J", j)]).

Definition _analyze_boll_signal (current_price : Q) (boll : boll_dict)
  : result signal_dict :=
  if (len (MIDDLE boll) =? 0)%Z then Ok insufficient
  else
    upper <- getitem (UPPER boll) (-1) ;;
    middle <- getitem (MIDDLE boll) (-1) ;;
    lower <- getitem (LOWER boll) (-1) ;;
    let '(signals, score) :=
      if Qgtb current_price upper then (["价格突破上轨（超买）"], 0 - 1)
      else if Qltb current_price lower then (["价格突破下轨（超卖）"], 0 + 1)
      else if Qgtb current_price middle then (["价格在中轨上方（偏多）"], 0 + (1 # 2))
      else (["价格在中轨下方（偏空）"], 0 - (1 # 2)) in
    let bandwidth := np_div (upper - lower) middle in
    let signals :=
      if np_gt bandwidth (1 # 10)
      then (signals ++ ["布林带宽度较大（波动性高）"])%list
      else (signals ++ ["布林带收窄（可能突破）"])%list in
    let signal :=
      if Qgtb score (1 # 2) then "偏多"
      else if Qltb score (- (1 # 2)) then "偏空"
      else "中性" in
    Ok (mk_signal signal score (Some signals) []).

Definition _analyze_rsi_signal (rsi : list Q) : result signal_dict :=
  if (len rsi =? 0)%Z then Ok insufficient
  else
    rsi_value <- getitem rsi (-1) ;;
    let '(signals, score) :=
      if Qgtb rsi_value 70 then (["RSI超买（>70）"], 0 - 1)
      else if Qltb rsi_value 30 then (["RSI超卖（<30）"], 0 + 1)
      else if Qgtb rsi_value 50 then (["RSI偏强（>50）"], 0 + (1 # 2))
      else (["RSI偏弱（<50）"], 0 - (1 # 2)) in
    let signal :=
      if Qgtb score (1 # 2) then "偏多"
      else if Qltb score (- (1 # 2)) then "偏空"
      else "中性" in
    Ok (mk_signal signal score (Some signals) [("value", rsi_value)]).

(** [v[-1] if v else None]. *)
Definition last_or_none {A : Type} (v : list A) : result (option A) :=
  if (len v =? 0)%Z then Ok None
  else x <- getitem v (-1) ;; Ok (Some x).

Record indicators_dict : Type := mk_indicators {
  MA : ma_signal;
  MACD_signal : signal_dict;
  KDJ : signal_dict;
  BOLL : signal_dict;
  RSI : signal_dict;
  volatility : Q;
  ma_values : list (nat * option Q);
  macd_values : list (string * option Q);
  kdj_values : list (string * option Q);
  boll_values : list (string * option Q);
  rsi_value : option Q
}.

Definition _analyze_indicators (sqrt : Q -> Q) (closes highs lows volumes : list Q)
  : result indicators_dict :=
  current_price <- getitem closes (-1) ;;
  let ma_dict := calculate_ma closes [5; 10; 20; 30; 60]%nat in
  let ma_signal := _analyze_ma_signal current_price ma_dict in
  macd <- calculate_macd closes 12 26 9 ;;
  macd_signal <- _analyze_macd_signal macd ;;
  kdj <- calculate_kdj highs lows closes 9 3 3 ;;
  kdj_signal <- _analyze_kdj_signal kdj ;;
  let boll := calculate_boll sqrt closes 20 2 in
  boll_signal <- _analyze_boll_signal current_price boll ;;
  rsi <- calculate_rsi closes 14 ;;
  rsi_signal <- _analyze_rsi_signal rsi ;;
  atr <- calculate_atr highs lows closes 14 ;;
  volatility <- (if (len atr =? 0)%Z then Ok 0 else getitem atr (-1)) ;;
  ma_values <- for_append
                 (fun kv : nat * list (option Q) =>
                    v <- last_or_none (snd kv) ;;
                    Ok (fst kv, match v with Some x => x | None => None end))
                 ma_dict ;;
  macd_dif <- last_or_none (DIF macd) ;;
  macd_dea <- last_or_none (DEA macd) ;;
  macd_bar <- last_or_none (MACD macd) ;;
  kdj_k <- last_or_none (K kdj) ;;
  kdj_d <- last_or_none (D kdj) ;;
  kdj_j <- last_or_none (J kdj) ;;
  boll_upper <- last_or_none (UPPER boll) ;;
  boll_middle <- last_or_none (MIDDLE boll) ;;
  boll_lower <- last_or_none (LOWER boll) ;;
  rsi_last <- last_or_none rsi ;;
  Ok (mk_indicators ma_signal macd_signal kdj_signal boll_signal rsi_signal
        volatility ma_values
        [("DIF", macd_dif); ("DEA", macd_dea); ("MACD", macd_bar)]
        [("K", kdj_k); ("D", kdj_d); ("J", kdj_j)]
        [("UPPER", boll_upper); ("MIDDLE", boll_middle); ("LOWER", boll_lower)]
        rsi_last).

(** *** The theory analyses *)

Record fib_dict : Type := mk_fib {
  fib_high : Q;
  fib_low : Q;
  retracement_levels : list (Q * Q);
  support : list Q;
  resistance : list Q
}.

Definition _analyze_fibonacci (closes highs lows : list Q) (current_price : Q)
  : result fib_dict :=
  high <- max_of (slice_from highs (-20)) ;;
  low <- min_of (slice_from lows (-20)) ;;
  let retracement := FibonacciAnalysis.calculate_retracement high low in
  let support_resistance :=
    FibonacciAnalysis.find_support_resistance current_price high low in
  Ok (mk_fib high low retracement
        (FibonacciAnalysis.sr_support support_resistance)
        (FibonacciAnalysis.sr_resistance support_resistance)).

Record elliott_dict : Type := mk_elliott {
  elliott_pattern : ElliottWaveAnalysis.wave_info;
  elliott_prediction : ElliottWaveAnalysis.prediction_dict
}.

Definition _analyze_elliott (closes : list Q) : result elliott_dict :=
  wave_pattern <- ElliottWaveAnalysis.identify_wave_pattern closes ;;
  prediction <- ElliottWaveAnalysis.predict_next_move closes ;;
  Ok (mk_elliott wave_pattern prediction).

Record chan_dict : Type := mk_chan {
  chan_bi_count : Z;
  chan_trend : ChanTheoryAnalysis.trend_dict
}.

Definition _analyze_chan (highs lows closes : list Q) : result chan_dict :=
  bi_list <- ChanTheoryAnalysis.identify_bi highs lows closes ;;
  let trend := ChanTheoryAnalysis.analyze_trend bi_list in
  Ok (mk_chan (len bi_list) trend).

Record wyckoff_dict : Type := mk_wyckoff {
  wyckoff_phase : WyckoffAnalysis.phase_dict;
  supply_demand : WyckoffAnalysis.supply_demand_dict
}.

Definition _analyze_wyckoff (closes volumes : list Q) : result wyckoff_dict :=
  phase <- WyckoffAnalysis.identify_phase closes volumes ;;
  supply_demand <- WyckoffAnalysis.analyze_supply_demand closes volumes ;;
  Ok (mk_wyckoff phase supply_demand).

(** *** The composite score *)

Record score_dict : Type := mk_score {
  total : Q;
  indicator_score : Q;
  elliott_score : Q;
  chan_score : Q;
  wyckoff_score : Q
}.

(** The four intermediate scores of [_calculate_score], before the final
    normalisation and rounding. *)
Definition raw_indicator_score (indicators : indicators_dict) : Q :=
  inject_Z (ma_score (MA indicators)) * (25 # 100) +
  score (MACD_signal indicators) * (25 # 100) +
  score (KDJ indicators) * (2 # 10) +
  score (BOLL indicators) * (15 # 100) +
  score (RSI indicators) * (15 # 100).

Definition raw_elliott_score (elliott : elliott_dict) : Q :=
  let elliott_score :=
    ElliottWaveAnalysis.confidence (elliott_prediction elliott) * 2 - 1 in
  if contains "上涨" (ElliottWaveAnalysis.prediction (elliott_prediction elliott))
  then Qabs elliott_score
  else - Qabs elliott_score.

Definition raw_chan_score (chan : chan_dict) : Q :=
  let chan_score := ChanTheoryAnalysis.strength (chan_trend chan) * 2 - 1 in
  if contains "上涨" (ChanTheoryAnalysis.trend (chan_trend chan))
  then Qabs chan_score
  else - Qabs chan_score.

Definition raw_wyckoff_score (wyckoff : wyckoff_dict) : result Q :=
  let wyckoff_score :=
    WyckoffAnalysis.strength (supply_demand wyckoff) * 2 - 1 in
  match WyckoffAnalysis.trend (supply_demand wyckoff) with
  | None => Raise KeyError
  | Some trend =>
      if String.eqb trend "上涨"
      then Ok (Qabs wyckoff_score)
      else Ok (- Qabs wyckoff_score)
  end.

Definition total_score (indicator_score elliott_score chan_score wyckoff_score : Q)
  : Q :=
  indicator_score * (4 # 10) +
  elliott_score * (2 # 10) +
  chan_score * (2 # 10) +
  wyckoff_score * (2 # 10).

(** [max(0, min(100, (total_score + 5) / 10 * 100))]. *)
Definition normalized_score (total_score : Q) : Q :=
  py_max 0 (py_min 100 ((total_score + 5) / 10 * 100)).

Definition _calculate_score (indicators : indicators_dict) (fib : fib_dict)
  (elliott : elliott_dict) (chan : chan_dict) (wyckoff : wyckoff_dict)
  : result score_dict :=
  let indicator_score := raw_indicator_score indicators in
  let elliott_score := raw_elliott_score elliott in
  let chan_score := raw_chan_score chan in
  wyckoff_score <- raw_wyckoff_score wyckoff ;;
  let total_score :=
    total_score indicator_score elliott_score chan_score wyckoff_score in
  let normalized_score := normalized_score total_score in
  Ok (mk_score (round2 normalized_score)
        (round2 indicator_score)
        (round2 elliott_score)
        (round2 chan_score)
        (round2 wyckoff_score)).

(** *** Recommendations *)

(** A dictionary keyed by the four timeframes. *)
Inductive timeframe : Type := tf_15min | tf_1h | tf_4h | tf_24h.

Record per_timeframe (A : Type) : Type := mk_tf {
  at_15min : A;
  at_1h : A;
  at_4h : A;
  at_24h : A
}.

Arguments mk_tf {A} _ _ _ _.
Arguments at_15min {A} _.
Arguments at_1h {A} _.
Arguments at_4h {A} _.
Arguments at_24h {A} _.

(** [d.get(timeframe)]. *)
Definition tf_get {A : Type} (d : per_timeframe A) (h : timeframe) : A :=
  match h with
  | tf_15min => at_15min d
  | tf_1h => at_1h d
  | tf_4h => at_4h d
  | tf_24h => at_24h d
  end.

(** [fib["support"][0] if fib["support"] else price * 0.95], and the same
    for the resistance with [price * 1.05]. *)
Definition nearest_support (price : Q) (fib : fib_dict) : Q :=
  match support fib with
  | [] => price * (95 # 100)
  | s :: _ => s
  end.

Definition nearest_resistance (price : Q) (fib : fib_dict) : Q :=
  match resistance fib with
  | [] => price * (105 # 100)
  | r :: _ => r
  end.

Definition _calculate_stop_loss_long (price atr : Q) (fib : fib_dict)
  : per_timeframe (option Q) :=
  let support := nearest_support price fib in
  mk_tf (Some (round2 (price - atr * 1)))
        (Some (round2 (py_max (price - atr * 2) support)))
        (Some (round2 (py_max (price - atr * 3) support)))
        (Some (round2 (py_max (price - atr * 5) (fib_low fib)))).

Definition _calculate_take_profit_long (price atr : Q) (fib : fib_dict)
  : per_timeframe (option Q) :=
  let resistance := nearest_resistance price fib in
  mk_tf (Some (round2 (price + atr * (15 # 10))))
        (Some (round2 (py_min (price + atr * 3) resistance)))
        (Some (round2 (py_min (price + atr * 5) resistance)))
        (Some (round2 (py_min (price + atr * 8) (fib_high fib)))).

Definition _calculate_stop_loss_short (price atr : Q) (fib : fib_dict)
  : per_timeframe (option Q) :=
  let resistance := nearest_resistance price fib in
  mk_tf (Some (round2 (price + atr * 1)))
        (Some (round2 (py_min (price + atr * 2) resistance)))
        (Some (round2 (py_min (price + atr * 3) resistance)))
        (Some (round2 (py_min (price + atr * 5) (fib_high fib)))).

Definition _calculate_take_profit_short (price atr : Q) (fib : fib_dict)
  : per_timeframe (option Q) :=
  let support := nearest_support price fib in
  mk_tf (Some (round2 (price - atr * (15 # 10))))
        (Some (round2 (py_max (price - atr * 3) support)))
        (Some (round2 (py_max (price - atr * 5) support)))
        (Some (round2 (py_max (price - atr * 8) (fib_low fib)))).

Definition _predict_timeframes (score : Q) (direction : string)
  : per_timeframe string :=
  if startswith direction "做多" then
    mk_tf (if Qgtb score 55 then "上涨" else "震荡")
          (if Qgtb score 60 then "上涨" else "震荡")
          (if Qgtb score 65 then "上涨" else "震荡上涨")
          (if Qgtb score 70 then "上涨" else "震荡")
  else if startswith direction "做空" then
    mk_tf (if Qltb score 45 then "下跌" else "震荡")
          (if Qltb score 40 then "下跌" else "震荡")
          (if Qltb score 35 then "下跌" else "震荡下跌")
          (if Qltb score 30 then "下跌" else "震荡")
  else mk_tf "震荡" "震荡" "震荡" "震荡".

(** The truth value of a leg: [None] and [0.0] are both false. *)
Definition truthy (x : option Q) : bool :=
  match x with
  | Some v => negb (Qeq_bool v 0)
  | None => false
  end.

Definition risk_reward_at (price : Q) (sl tp : option Q) : option Q :=
  match sl, tp with
  | Some sl_v, Some tp_v =>
      if truthy sl && truthy tp then
        let risk := Qabs (price - sl_v) in
        let reward := Qabs (tp_v - price) in
        let ratio := if Qgtb risk 0 then reward / risk else 0 in
        Some (round2 ratio)
      else None
  | _, _ => None
  end.

Definition _calculate_risk_reward (price : Q)
  (stop_loss take_profit : per_timeframe (option Q)) : per_timeframe (option Q) :=
  mk_tf (risk_reward_at price (at_15min stop_loss) (at_15min take_profit))
        (risk_reward_at price (at_1h stop_loss) (at_1h take_profit))
        (risk_reward_at price (at_4h stop_loss) (at_4h take_profit))
        (risk_reward_at price (at_24h stop_loss) (at_24h take_profit)).

Record recommendations_dict : Type := mk_recommendations {
  direction : string;
  confidence : string;
  rec_score : Q;
  stop_loss : per_timeframe (option Q);
  take_profit : per_timeframe (option Q);
  predictions : per_timeframe string;
  risk_reward_ratio : per_timeframe (option Q)
}.

(** The direction and confidence [_generate_recommendations] reads off the
    total score. *)
Definition decide (total_score : Q) : string * string :=
  if Qgtb total_score 65 then ("做多（买入）", "高")
  else if Qgtb total_score 55 then ("做多（买入）", "中")
  else if Qltb total_score 35 then ("做空（卖出）", "高")
  else if Qltb total_score 45 then ("做空（卖出）", "中")
  else ("观望", "不建议交易").

Definition no_levels : per_timeframe (option Q) := mk_tf None None None None.

Definition _generate_recommendations (current_price : Q) (score : score_dict)
  (indicators : indicators_dict) (fib : fib_dict) : recommendations_dict :=
  let total_score := total score in
  let '(direction, confidence) := decide total_score in
  let atr := volatility indicators in
  let '(stop_loss, take_profit) :=
    if startswith direction "做多" then
      (_calculate_stop_loss_long current_price atr fib,
       _calculate_take_profit_long current_price atr fib)
    else if startswith direction "做空" then
      (_calculate_stop_loss_short current_price atr fib,
       _calculate_take_profit_short current_price atr fib)
    else (no_levels, no_levels) in
  let predictions := _predict_timeframes total_score direction in
  mk_recommendations direction confidence total_score stop_loss take_profit
    predictions (_calculate_risk_reward current_price stop_loss take_profit).

(** *** The top-level analysis *)

Record analysis_dict : Type := mk_analysis {
  current_price : Q;
  indicators : indicators_dict;
  fibonacci : fib_dict;
  elliott_wave : elliott_dict;
  chan_theory : chan_dict;
  wyckoff : wyckoff_dict;
  analysis_score : score_dict;
  recommendations : recommendations_dict
}.

(** What [analyze_comprehensive] returns: the dictionary [{"error": ...}]
    or the full analysis. *)
Inductive analysis : Type :=
| ErrorDict (error : string)
| AnalysisDict (a : analysis_dict).

Definition analyze_comprehensive (sqrt : Q -> Q) (klines : list kline)
  : result analysis :=
  if (len klines <? 30)%Z then Ok (ErrorDict "数据不足，至少需要30根K线")
  else
    let closes := map close klines in
    let highs := map high klines in
    let lows := map low klines in
    let volumes := map volume klines in
    current_price <- getitem closes (-1) ;;
    indicators_analysis <- _analyze_indicators sqrt closes highs lows volumes ;;
    fib_analysis <- _analyze_fibonacci closes highs lows current_price ;;
    elliott_analysis <- _analyze_elliott closes ;;
    chan_analysis <- _analyze_chan highs lows closes ;;
    wyckoff_analysis <- _analyze_wyckoff closes volumes ;;
    score <- _calculate_score indicators_analysis fib_analysis elliott_analysis
               chan_analysis wyckoff_analysis ;;
    let recommendations :=
      _generate_recommendations current_price score indicators_analysis
        fib_analysis in
    Ok (AnalysisDict
          (mk_analysis current_price indicators_analysis fib_analysis
             elliott_analysis chan_analysis wyckoff_analysis score
             recommendations)).

End TradingAdvisor.

(** * The vocabulary of the specification *)

Module Spec.

(** [clamp(x, lo, hi)]. *)
Definition clamp (x lo hi : Q) : Q :=
  if Qltb x lo then lo else if Qltb hi x then hi else x.


(** [l] is in the order of [before]: no element must precede the one in
    front of it. *)
Fixpoint ordered_by (before : Q -> Q -> bool) (l : list Q) : bool :=
  match l with
  | [] => true
  | x :: l' =>
      match l' with
      | [] => true
      | y :: _ => negb (before y x) && ordered_by before l'
      end
  end.

(** Monotonic orders of a list of values, weak and strict. *)
Definition non_increasing (l : list Q) : bool := ordered_by Qgtb l.
Definition non_decreasing (l : list Q) : bool := ordered_by Qltb l.
Definition strictly_decreasing (l : list Q) : bool := ordered_by Qgeb l.
Definition strictly_increasing (l : list Q) : bool := ordered_by Qle_bool l.

(** The last defined value of each moving average, by period. *)
Definition last_ma_values (ma_dict : list (nat * list (option Q))) : list Q :=
  flat_map (fun item : nat * list (option Q) =>
              match last (snd item) None with
              | Some v => [v]
              | None => []
              end) ma_dict.

(** +1 for each moving average the price is above, -1 for each it is at or
    below. *)
Definition position_term (price : Q) (values : list Q) : Z :=
  fold_right (fun v acc => ((if Qgtb price v then 1 else -1) + acc)%Z) 0%Z values.

(** The alignment term with the order read weakly, as the code compares the
    values with their sorted copies. *)
Definition alignment_term (values : list Q) : Z :=
  if non_increasing values then 2%Z
  else if non_decreasing values then (-2)%Z
  else 0%Z.

(** The alignment term with the order read strictly, as the specification
    states it. *)
Definition strict_alignment_term (values : list Q) : Z :=
  if strictly_decreasing values then 2%Z
  else if strictly_increasing values then (-2)%Z
  else 0%Z.

(** Consecutive segments differ in direction. *)
Fixpoint alternating (l : list ChanTheoryAnalysis.bi) : Prop :=
  match l with
  | [] => True
  | b1 :: l' =>
      match l' with
      | [] => True
      | b2 :: _ => ChanTheoryAnalysis.type b1 <> ChanTheoryAnalysis.type b2
      end /\ alternating l'
  end.

(** The most recent segment, if any. *)
Definition last_segment (l : list ChanTheoryAnalysis.bi)
  : option ChanTheoryAnalysis.bi :=
  last (map Some l) None.

Definition opposite (t : ChanTheoryAnalysis.bi_type) : ChanTheoryAnalysis.bi_type :=
  match t with
  | ChanTheoryAnalysis.up => ChanTheoryAnalysis.down
  | ChanTheoryAnalysis.down => ChanTheoryAnalysis.up
  end.

(** The loop invariant of [identify_bi]: the segments so far alternate, and
    the open segment runs against the last closed one. *)
Definition scan_invariant (st : ChanTheoryAnalysis.bi_state) : Prop :=
  alternating (ChanTheoryAnalysis.bi_list st) /\
  forall b, last_segment (ChanTheoryAnalysis.bi_list st) = Some b ->
            ChanTheoryAnalysis.direction st
            = Some (opposite (ChanTheoryAnalysis.type b)).

End Spec.

(** * Sample inputs *)

Module Examples.
Import TradingAdvisor.

Definition sig (label : string) (s : Q) : signal_dict :=
  mk_signal label s (Some []) [].

(** Indicator signals with the given MACD score, price above the middle
    Bollinger band and RSI above 50; MA and KDJ are neutral. *)
Definition indicators_with_macd (macd_score atr : Q) : indicators_dict :=
  mk_indicators (mk_ma_signal "中性" 0 []) (sig "买入" macd_score)
    (sig "观望" 0) (sig "中性" (1 # 2)) (sig "中性" (1 # 2))
    atr [] [] [] [] None.

(** The Fibonacci dictionary of [_analyze_fibonacci] for a lookback high and
    low, seen from [price]. *)
Definition fib_of (price high low : Q) : fib_dict :=
  let sr := FibonacciAnalysis.find_support_resistance price high low in
  mk_fib high low (FibonacciAnalysis.calculate_retracement high low)
    (FibonacciAnalysis.sr_support sr) (FibonacciAnalysis.sr_resistance sr).

(** The three theory analyses with no directional view. *)
Definition sideways_elliott : elliott_dict :=
  let w := ElliottWaveAnalysis.mk_wave "震荡" "盘整" (Some 2%Z) (Some 2%Z) in
  mk_elliott w (ElliottWaveAnalysis.mk_prediction "震荡为主，等待突破" (5 # 10) w).

Definition sideways_chan : chan_dict :=
  mk_chan 3 (ChanTheoryAnalysis.mk_trend "震荡" (5 # 10) (Some 3%Z)).



(** Twenty-six equal prices: enough for the slow EMA of the MACD, too few
    for its signal line. *)
Definition twenty_six_prices : list Q := repeat 1 26%nat.

(** Thirty equal candles. *)
Definition thirty_klines : list kline :=
  repeat (mk_kline 0 1 1 1 1 1 0 1 1 1 1) 30%nat.

(** Accelerating candles with closes 1, 4, 9, ..., n * n. *)
Definition rising_klines (n : nat) : list kline :=
  map (fun i =>
         let c := inject_Z (Z.of_nat (i * i)) in
         mk_kline 0 c c c c 1 0 1 1 1 1)
      (seq 1 n).

(** Forty equal candles: a flat market. *)
Definition flat_klines : list kline :=
  repeat (mk_kline 0 10 10 10 10 5 0 1 1 1 1) 40%nat.

(** A window whose first close is zero. *)
Definition closes_from_zero : list Q := 0 :: repeat 1 9%nat.

(** A zigzag of six closes. *)
Definition zigzag_closes : list Q := [1; 2; 1; 2; 1; 2].

(** Ten closes of a flat market, and the moving averages the advisor asks
    for. *)
Definition flat_closes : list Q := repeat 10 10%nat.

Definition flat_ma_dict : list (nat * list (option Q)) :=
  TechnicalIndicators.calculate_ma flat_closes [5; 10; 20; 30; 60]%nat.






End Examples.

(** * Loop invariants *)

Module Invariants.
Import TechnicalIndicators.

(** The KDJ loop after [k] bars: the running values and every stored K and
    D are percentages, the three series have [k] values, and each J is
    [3 * K - 2 * D] of its bar. *)
Definition kdj_invariant (k : nat) (st : Q * Q * kdj_dict) : Prop :=
  let '(kk, dd, out) := st in
  0 <= kk <= 100 /\ 0 <= dd <= 100 /\
  length (K out) = k /\ length (D out) = k /\ length (J out) = k /\
  Forall (fun x => 0 <= x <= 100) (K out) /\
  Forall (fun x => 0 <= x <= 100) (D out) /\
  (forall i, (i < k)%nat ->
             nth i (J out) 0 = 3 * nth i (K out) 0 - 2 * nth i (D out) 0).

(** A segment fits the closes when it runs forward between two bars of the
    series, its prices are the closes of its two ends, and it ends above
    its start if it is up, below it if it is down. *)
Definition bi_fits (close : list Q) (b : ChanTheoryAnalysis.bi) : Prop :=
  (0 <= ChanTheoryAnalysis.start b < ChanTheoryAnalysis.end_ b)%Z /\
  (ChanTheoryAnalysis.end_ b < len close)%Z /\
  getitem close (ChanTheoryAnalysis.start b)
  = Ok (ChanTheoryAnalysis.start_price b) /\
  getitem close (ChanTheoryAnalysis.end_ b)
  = Ok (ChanTheoryAnalysis.end_price b) /\
  match ChanTheoryAnalysis.type b with
  | ChanTheoryAnalysis.up =>
      ChanTheoryAnalysis.start_price b < ChanTheoryAnalysis.end_price b
  | ChanTheoryAnalysis.down =>
      ChanTheoryAnalysis.end_price b < ChanTheoryAnalysis.start_price b
  end.

(** Each segment starts at the bar, and at the price, where the one before
    it ends. *)
Fixpoint chained (l : list ChanTheoryAnalysis.bi) : Prop :=
  match l with
  | [] => True
  | b1 :: l' =>
      match l' with
      | [] => True
      | b2 :: _ =>
          ChanTheoryAnalysis.end_ b1 = ChanTheoryAnalysis.start b2 /\
          ChanTheoryAnalysis.end_price b1 = ChanTheoryAnalysis.start_price b2
      end /\ chained l'
  end.

(** The scan of [identify_bi] before it reads bar [i]: the closed segments
    fit the closes and are chained from bar 0, the open segment starts
    where the last closed one ends, and the close of bar [i - 1] lies on the
    side of the open segment's start that its direction says. *)
Definition geometry_invariant (close : list Q) (i : Z)
  (st : ChanTheoryAnalysis.bi_state) : Prop :=
  Forall (bi_fits close) (ChanTheoryAnalysis.bi_list st) /\
  chained (ChanTheoryAnalysis.bi_list st) /\
  (0 <= ChanTheoryAnalysis.start_idx st)%Z /\
  getitem close (ChanTheoryAnalysis.start_idx st)
  = Ok (ChanTheoryAnalysis.cur_start_price st) /\
  (forall b, Spec.last_segment (ChanTheoryAnalysis.bi_list st) = Some b ->
             ChanTheoryAnalysis.end_ b = ChanTheoryAnalysis.start_idx st /\
             ChanTheoryAnalysis.end_price b
             = ChanTheoryAnalysis.cur_start_price st) /\
  (ChanTheoryAnalysis.bi_list st = [] ->
   ChanTheoryAnalysis.start_idx st = 0%Z) /\
  (forall b, hd_error (ChanTheoryAnalysis.bi_list st) = Some b ->
             ChanTheoryAnalysis.start b = 0%Z) /\
  match ChanTheoryAnalysis.direction st with
  | None =>
      ChanTheoryAnalysis.bi_list st = [] /\
      nth (Z.to_nat (i - 1)) close 0 == ChanTheoryAnalysis.cur_start_price st
  | Some ChanTheoryAnalysis.up =>
      (ChanTheoryAnalysis.start_idx st < i - 1)%Z /\
      ChanTheoryAnalysis.cur_start_price st < nth (Z.to_nat (i - 1)) close 0
  | Some ChanTheoryAnalysis.down =>
      (ChanTheoryAnalysis.start_idx st < i - 1)%Z /\
      nth (Z.to_nat (i - 1)) close 0 < ChanTheoryAnalysis.cur_start_price st
  end.

(** The loop of [identify_center] after [k] passes: at most [k] centres,
    each with [lower] below [upper] and its middle between the two. *)
Definition center_invariant (k : nat) (centers : list ChanTheoryAnalysis.center)
  : Prop :=
  (length centers <= k)%nat /\
  Forall (fun c =>
            ChanTheoryAnalysis.lower c < ChanTheoryAnalysis.upper c /\
            ChanTheoryAnalysis.lower c <= ChanTheoryAnalysis.middle c /\
            ChanTheoryAnalysis.middle c <= ChanTheoryAnalysis.upper c)
    centers.

End Invariants.

(** * Properties *)

Open Scope list_scope.

(** ** The error monad and list access *)

Lemma len_nonneg {A : Type} (l : list A) : (0 <= len l)%Z.
Proof. unfold len. lia. Qed.

Lemma getitem_in_range {A : Type} (l : list A) (d : A) (i : nat) :
  (i < length l)%nat -> getitem l (Z.of_nat i) = Ok (nth i l d).
Proof.
  intros Hi. unfold getitem.
  destruct (Z.of_nat i <? 0)%Z eqn:Hneg; [apply Z.ltb_lt in Hneg; lia|].
  rewrite Hneg, Nat2Z.id.
  now rewrite (nth_error_nth' l d Hi).
Qed.

Lemma getitem_past_end {A : Type} (l : list A) (i : Z) :
  (len l <= i)%Z -> getitem l i = Raise IndexError.
Proof.
  intros Hi. pose proof (len_nonneg l) as Hl. unfold getitem.
  destruct (i <? 0)%Z eqn:Hneg; [apply Z.ltb_lt in Hneg; lia|].
  rewrite Hneg.
  destruct (nth_error l (Z.to_nat i)) eqn:Hn; [|reflexivity].
  assert (Z.to_nat i < length l)%nat by (apply nth_error_Some; congruence).
  unfold len in Hi. lia.
Qed.

Lemma range_from_zero (n : nat) :
  range 0 (Z.of_nat n) = map Z.of_nat (seq 0 n).
Proof.
  unfold range. rewrite Z.sub_0_r, Nat2Z.id. reflexivity.
Qed.

Lemma for_append_total {A B : Type} (f : A -> result B) (g : A -> B) (xs : list A) :
  (forall x, In x xs -> f x = Ok (g x)) ->
  for_append f xs = Ok (map g xs).
Proof.
  induction xs as [|x xs IH]; intros Hf; simpl; [reflexivity|].
  rewrite (Hf x (or_introl eq_refl)). simpl.
  rewrite IH by (intros y Hy; apply Hf; now right).
  reflexivity.
Qed.

Lemma for_append_upto {B : Type} (f : Z -> result B) (g : nat -> B) (n : nat) :
  (forall i, (i < n)%nat -> f (Z.of_nat i) = Ok (g i)) ->
  for_append f (range 0 (Z.of_nat n)) = Ok (map g (seq 0 n)).
Proof.
  intros Hf. rewrite range_from_zero.
  rewrite (for_append_total f (fun z => g (Z.to_nat z))).
  - rewrite map_map. f_equal. apply map_ext. intros i. now rewrite Nat2Z.id.
  - intros x Hx. apply in_map_iff in Hx as [i [<- Hi]].
    apply in_seq in Hi. rewrite Nat2Z.id. apply Hf. lia.
Qed.

Lemma nth_map_seq {B : Type} (g : nat -> B) (n i : nat) (d : B) :
  (i < n)%nat -> nth i (map g (seq 0 n)) d = g i.
Proof.
  intros Hi.
  rewrite (nth_indep _ d (g 0%nat)) by now rewrite length_map, length_seq.
  rewrite (map_nth g (seq 0 n) 0%nat i), seq_nth by exact Hi.
  reflexivity.
Qed.

(** Slices with bounds inside the list. *)
Lemma slice_bound_inside (n i : Z) :
  (0 <= i <= n)%Z -> slice_bound n i = i.
Proof.
  intros Hi. unfold slice_bound.
  destruct (i <? 0)%Z eqn:E; [apply Z.ltb_lt in E|]; lia.
Qed.

Lemma py_slice_inside {A : Type} (l : list A) (a b : nat) :
  (a <= b <= length l)%nat ->
  py_slice l (Z.of_nat a) (Z.of_nat b) = firstn (b - a) (skipn a l).
Proof.
  intros H. unfold py_slice, len.
  rewrite !slice_bound_inside by lia.
  now rewrite <- Nat2Z.inj_sub, !Nat2Z.id by lia.
Qed.

Lemma length_py_slice_inside {A : Type} (l : list A) (a b : nat) :
  (a <= b <= length l)%nat ->
  length (py_slice l (Z.of_nat a) (Z.of_nat b)) = (b - a)%nat.
Proof.
  intros H. rewrite py_slice_inside by exact H.
  rewrite length_firstn, length_skipn. lia.
Qed.

Lemma length_slice_from {A : Type} (l : list A) (n : nat) :
  length (slice_from l (Z.of_nat n)) = (length l - n)%nat.
Proof.
  unfold slice_from, py_slice, slice_bound, len.
  destruct (Z.of_nat n <? 0)%Z eqn:E; [apply Z.ltb_lt in E; lia|].
  destruct (Z.of_nat (length l) <? 0)%Z eqn:E'; [apply Z.ltb_lt in E'; lia|].
  rewrite length_firstn, length_skipn. lia.
Qed.

(** ** EMA and MACD *)

Module MacdFacts.
Import TechnicalIndicators.

Lemma length_ema_loop (m prev : Q) (rest : list Q) :
  length (ema_loop m prev rest) = length rest.
Proof.
  revert prev. induction rest as [|p rest IH]; intros prev; simpl; [reflexivity|].
  now rewrite IH.
Qed.

Lemma length_calculate_ema (prices : list Q) (period : nat) :
  length (calculate_ema prices period) = S (length prices - period).
Proof.
  unfold calculate_ema. simpl.
  now rewrite length_ema_loop, length_slice_from.
Qed.

(** The DIF loop never leaves its two EMA series when [fast <= slow <= len]. *)
Lemma dif_loop_total (prices : list Q) (fast slow : nat) :
  (fast <= slow)%nat -> (slow <= length prices)%nat ->
  let ema_fast := calculate_ema prices fast in
  let ema_slow := calculate_ema prices slow in
  for_append
    (fun i =>
       f <- getitem ema_fast (i + (Z.of_nat slow - Z.of_nat fast)) ;;
       s <- getitem ema_slow i ;;
       Ok (f - s))
    (range 0 (len ema_slow))
  = Ok (map (fun i => nth (i + (slow - fast)) ema_fast 0 - nth i ema_slow 0)
            (seq 0 (length ema_slow))).
Proof.
  intros Hfs Hsl ema_fast ema_slow. unfold len.
  apply for_append_upto. intros i Hi.
  assert (Hlf : length ema_fast = S (length prices - fast))
    by apply length_calculate_ema.
  assert (Hls : length ema_slow = S (length prices - slow))
    by apply length_calculate_ema.
  replace (Z.of_nat i + (Z.of_nat slow - Z.of_nat fast))%Z
    with (Z.of_nat (i + (slow - fast))) by lia.
  rewrite (getitem_in_range ema_fast 0) by lia.
  rewrite (getitem_in_range ema_slow 0) by lia.
  reflexivity.
Qed.

Lemma calculate_macd_short (prices : list Q) (fast slow signal : nat) :
  (length prices < slow)%nat ->
  calculate_macd prices fast slow signal = Ok (mk_macd [] [] []).
Proof.
  intros Hlt. unfold calculate_macd, len.
  destruct (Z.of_nat (length prices) <? Z.of_nat slow)%Z eqn:E; [reflexivity|].
  apply Z.ltb_ge in E. lia.
Qed.

(** With enough prices for the signal line, every index of both loops is in
    range and the three series are the ones the formulas describe. *)
Lemma calculate_macd_total (prices : list Q) (fast slow signal : nat) :
  (fast <= slow)%nat -> (1 <= signal)%nat ->
  (slow + signal - 1 <= length prices)%nat ->
  let ema_fast := calculate_ema prices fast in
  let ema_slow := calculate_ema prices slow in
  exists dif dea macd,
    calculate_macd prices fast slow signal = Ok (mk_macd dif dea macd) /\
    length dif = S (length prices - slow) /\
    (forall i, (i < length dif)%nat ->
       nth i dif 0 = nth (i + (slow - fast)) ema_fast 0 - nth i ema_slow 0) /\
    dea = calculate_ema dif signal /\
    length macd = length dea /\
    (forall i, (i < length macd)%nat ->
       nth i macd 0 = (nth (i + (signal - 1)) dif 0 - nth i dea 0) * 2).
Proof.
  intros Hfs Hsig Hlen ema_fast ema_slow.
  set (dif := map (fun i => nth (i + (slow - fast)) ema_fast 0 - nth i ema_slow 0)
                  (seq 0 (length ema_slow))).
  set (dea := calculate_ema dif signal).
  set (macd := map (fun i => (nth (i + (signal - 1)) dif 0 - nth i dea 0) * 2)
                   (seq 0 (length dea))).
  assert (Hls : length ema_slow = S (length prices - slow))
    by apply length_calculate_ema.
  assert (Hld : length dif = S (length prices - slow))
    by (unfold dif; now rewrite length_map, length_seq).
  assert (Hle : length dea = S (length dif - signal))
    by apply length_calculate_ema.
  exists dif, dea, macd. repeat split.
  - unfold calculate_macd.
    replace (len prices <? Z.of_nat slow)%Z with false
      by (symmetry; apply Z.ltb_ge; unfold len; lia).
    pose proof (dif_loop_total prices fast slow Hfs ltac:(lia)) as Hdif.
    cbv zeta in Hdif. rewrite Hdif. cbn [bind]. fold ema_fast ema_slow dif dea.
    unfold len.
    rewrite (for_append_upto _
               (fun i => (nth (i + (signal - 1)) dif 0 - nth i dea 0) * 2)).
    + reflexivity.
    + intros i Hi.
      replace (Z.of_nat i + (Z.of_nat signal - 1))%Z
        with (Z.of_nat (i + (signal - 1))) by lia.
      rewrite (getitem_in_range dif 0) by lia.
      rewrite (getitem_in_range dea 0) by lia.
      reflexivity.
  - exact Hld.
  - intros i Hi. unfold dif at 1. rewrite nth_map_seq; [reflexivity|].
    unfold dif in Hi. now rewrite length_map, length_seq in Hi.
  - unfold macd. now rewrite length_map, length_seq.
  - intros i Hi. unfold macd at 1. rewrite nth_map_seq; [reflexivity|].
    unfold macd in Hi. now rewrite length_map, length_seq in Hi.
Qed.

(** Between [slow] and [slow + signal - 2] prices the guard lets the call
    through, DIF is shorter than [signal], DEA is its one-element seed, and
    the first step of the bar loop reads [dif[signal - 1]] past the end. *)
Lemma calculate_macd_raises (prices : list Q) (fast slow signal : nat) :
  (fast <= slow)%nat ->
  (slow <= length prices)%nat -> (length prices < slow + signal - 1)%nat ->
  calculate_macd prices fast slow signal = Raise IndexError.
Proof.
  intros Hfs Hlo Hhi. unfold calculate_macd.
  replace (len prices <? Z.of_nat slow)%Z with false
    by (symmetry; apply Z.ltb_ge; unfold len; lia).
  pose proof (dif_loop_total prices fast slow Hfs Hlo) as Hdif.
  cbv zeta in Hdif. rewrite Hdif. cbn [bind].
  set (dif := map _ (seq 0 _)).
  assert (Hld : length dif = S (length prices - slow)).
  { unfold dif. now rewrite length_map, length_seq, length_calculate_ema. }
  unfold len at 1. rewrite length_calculate_ema.
  replace (S (length dif - signal)) with 1%nat by lia.
  change (range 0 (Z.of_nat 1)) with [0%Z]. cbn [for_append].
  rewrite getitem_past_end; [reflexivity|]. unfold len. lia.
Qed.

(** C1.  The claim holds below [slow] prices (three empty series,
    [calculate_macd_short]) and from [slow + signal - 1] = 34 prices on
    (the three series, every index in range, [calculate_macd_total]).  In
    between the code does not return: for 26 to 33 prices the call with the
    default periods raises [IndexError]. *)
Theorem calculate_macd_default_window_raises (prices : list Q) :
  (26 <= length prices < 34)%nat ->
  calculate_macd prices 12 26 9 = Raise IndexError.
Proof.
  intros [Hlo Hhi]. apply calculate_macd_raises; lia.
Qed.

(** The failing call at twenty-six equal prices. *)
Lemma calculate_macd_default_window_raises_witness :
  calculate_macd Examples.twenty_six_prices 12 26 9 = Raise IndexError.
Proof.
  apply calculate_macd_default_window_raises. cbn. lia.
Defined.

End MacdFacts.


(** ** Comparisons, [max]/[min] and rounding *)

Lemma Qltb_lt (x y : Q) : Qltb x y = true <-> x < y.
Proof.
  unfold Qltb. rewrite negb_true_iff, <- not_true_iff_false, Qle_bool_iff.
  split; [apply Qnot_le_lt | apply Qlt_not_le].
Qed.

Lemma Qltb_ge (x y : Q) : Qltb x y = false <-> y <= x.
Proof.
  unfold Qltb. rewrite negb_false_iff. apply Qle_bool_iff.
Qed.

Lemma Qgtb_gt (x y : Q) : Qgtb x y = true <-> y < x.
Proof. apply Qltb_lt. Qed.

Lemma Qgtb_le (x y : Q) : Qgtb x y = false <-> x <= y.
Proof. apply Qltb_ge. Qed.

Lemma Qeq_bool_false (x y : Q) : Qeq_bool x y = false <-> ~ x == y.
Proof.
  rewrite <- not_true_iff_false, Qeq_bool_iff. reflexivity.
Qed.

Ltac qcases :=
  repeat match goal with
    | |- context [Qgtb ?a ?b] =>
        let E := fresh "E" in
        destruct (Qgtb a b) eqn:E;
        [apply Qgtb_gt in E | apply Qgtb_le in E]
    | |- context [Qltb ?a ?b] =>
        let E := fresh "E" in
        destruct (Qltb a b) eqn:E;
        [apply Qltb_lt in E | apply Qltb_ge in E]
    end.

Lemma py_max_spec (a b : Q) :
  (a < b /\ py_max a b = b) \/ (b <= a /\ py_max a b = a).
Proof. unfold py_max. qcases; auto. Qed.

Lemma py_min_spec (a b : Q) :
  (b < a /\ py_min a b = b) \/ (a <= b /\ py_min a b = a).
Proof. unfold py_min. qcases; auto. Qed.

Lemma py_max_le (a b c : Q) : a <= c -> b <= c -> py_max a b <= c.
Proof. intros. destruct (py_max_spec a b) as [[_ ->]|[_ ->]]; assumption. Qed.

Lemma py_min_ge (a b c : Q) : c <= a -> c <= b -> c <= py_min a b.
Proof. intros. destruct (py_min_spec a b) as [[_ ->]|[_ ->]]; assumption. Qed.




Lemma round_half_even_mono (x y : Q) :
  x <= y -> (round_half_even x <= round_half_even y)%Z.
Proof.
  intros Hxy.
  pose proof (Qfloor_resp_le _ _ Hxy) as Hf.
  unfold round_half_even.
  destruct (Z.eq_dec (Qfloor x) (Qfloor y)) as [Heq | Hne].
  - rewrite <- Heq.
    destruct (Z.even (Qfloor x)); generalize (inject_Z (Qfloor x)); intros a;
      destruct (Qcompare_spec (x - a) (1 # 2)) as [Ex | Ex | Ex];
      destruct (Qcompare_spec (y - a) (1 # 2)) as [Ey | Ey | Ey];
      try lia; exfalso; lra.
  - assert (Hlt : (Qfloor x + 1 <= Qfloor y)%Z) by lia.
    destruct (Qcompare (x - inject_Z (Qfloor x)) (1 # 2));
      destruct (Qcompare (y - inject_Z (Qfloor y)) (1 # 2));
      destruct (Z.even (Qfloor x)); destruct (Z.even (Qfloor y)); lia.
Qed.


Lemma round2_mono (x y : Q) : x <= y -> round2 x <= round2 y.
Proof.
  intros H. unfold round2.
  assert (Hz : (round_half_even (x * 100) <= round_half_even (y * 100))%Z)
    by (apply round_half_even_mono; lra).
  rewrite Zle_Qle in Hz.
  apply Qmult_le_compat_r; [exact Hz | discriminate].
Qed.



(** ** The composite score and the recommendation *)



Module AdvisorFacts.
Import TradingAdvisor Spec Examples.

Lemma normalized_score_clamp (t : Q) :
  normalized_score t == clamp ((t + 5) / 10 * 100) 0 100.
Proof.
  unfold normalized_score, clamp, py_max, py_min.
  generalize ((t + 5) / 10 * 100). intros x.
  destruct (Qltb x 100) eqn:E1; [apply Qltb_lt in E1 | apply Qltb_ge in E1].
  - destruct (Qgtb x 0) eqn:E2; [apply Qgtb_gt in E2 | apply Qgtb_le in E2];
      qcases; try reflexivity; lra.
  - destruct (Qgtb 100 0) eqn:E2; [|discriminate E2].
    qcases; try reflexivity; lra.
Qed.



(** The direction and confidence of a recommendation are those of [decide]
    at the total score. *)
Lemma recommendation_decision (current_price : Q) (score : score_dict)
  (indicators : indicators_dict) (fib : fib_dict) :
  let r := _generate_recommendations current_price score indicators fib in
  (direction r, confidence r) = decide (total score).
Proof.
  unfold _generate_recommendations.
  destruct (decide (total score)) as [d c].
  destruct (startswith d "做多"); [reflexivity|].
  destruct (startswith d "做空"); reflexivity.
Qed.

(** C6.  For every composite total score, the recommendation is long with
    high confidence if the total exceeds 65, long with medium confidence if
    it lies in (55, 65], short with high confidence if it is below 35, short
    with medium confidence if it lies in [35, 45), and flat (no trade) if it
    lies in [45, 55]. *)
Theorem direction_and_confidence_thresholds (current_price : Q)
  (score : score_dict) (indicators : indicators_dict) (fib : fib_dict) :
  let r := _generate_recommendations current_price score indicators fib in
  let t := total score in
  (65 < t -> direction r = "做多（买入）" /\ confidence r = "高") /\
  (55 < t <= 65 -> direction r = "做多（买入）" /\ confidence r = "中") /\
  (t < 35 -> direction r = "做空（卖出）" /\ confidence r = "高") /\
  (35 <= t < 45 -> direction r = "做空（卖出）" /\ confidence r = "中") /\
  (45 <= t <= 55 -> direction r = "观望" /\ confidence r = "不建议交易").
Proof.
  intros r t.
  pose proof (recommendation_decision current_price score indicators fib) as H.
  cbv zeta in H. fold r t in H. unfold decide in H.
  revert H. qcases; intros H; injection H as Hd Hc;
    repeat split; intros; try assumption; exfalso; lra.
Qed.






(** *** Stop-loss and take-profit levels *)







Section Levels.
Variables (price atr : Q) (fib : fib_dict).
Hypothesis price_nonneg : 0 <= price.
Hypothesis atr_nonneg : 0 <= atr.
Hypothesis low_below : fib_low fib <= price.
Hypothesis high_above : price <= fib_high fib.
Hypothesis support_below : Forall (fun s => s <= price) (support fib).
Hypothesis resistance_above : Forall (fun x => price <= x) (resistance fib).


End Levels.









(** *** Risk-reward ratios *)







End AdvisorFacts.

(** ** Sorting *)

Section SortFacts.
Import Spec.
Variable before : Q -> Q -> bool.
Hypothesis before_asym : forall a b, before a b = true -> before b a = false.
Hypothesis before_trans :
  forall a b c, before b a = false -> before c b = false -> before c a = false.
Hypothesis before_compat :
  forall a a' b b', a == a' -> b == b' -> before a b = before a' b'.

Lemma ordered_by_cons (x y : Q) (l : list Q) :
  ordered_by before (x :: y :: l)
  = negb (before y x) && ordered_by before (y :: l).
Proof using Type. reflexivity. Qed.

Lemma ordered_by_tail (x : Q) (l : list Q) :
  ordered_by before (x :: l) = true -> ordered_by before l = true.
Proof using Type.
  destruct l as [|y l]; [reflexivity|].
  rewrite ordered_by_cons. now intros [_ H]%andb_prop.
Qed.

(** In an ordered list the head precedes nothing behind it. *)
Lemma ordered_by_head (x : Q) (l : list Q) :
  ordered_by before (x :: l) = true ->
  Forall (fun y => before y x = false) l.
Proof using before_trans.
  revert x. induction l as [|y l IH]; intros x H; [constructor|].
  rewrite ordered_by_cons in H. apply andb_prop in H as [Hxy Hl].
  apply negb_true_iff in Hxy.
  constructor; [exact Hxy|].
  specialize (IH y Hl).
  eapply Forall_impl; [|exact IH].
  intros z Hz. cbn beta in Hz. now apply (before_trans x y z).
Qed.

Lemma ordered_by_app (l m : list Q) :
  ordered_by before (l ++ m) = true -> ordered_by before l = true.
Proof using Type.
  induction l as [|x l IH]; intros H; [reflexivity|].
  destruct l as [|y l]; [reflexivity|].
  cbn [app] in H, IH. rewrite ordered_by_cons in H |- *.
  apply andb_prop in H as [Hxy Hl]. rewrite Hxy. cbn [andb]. now apply IH.
Qed.

(** Insertion into an ordered list keeps it ordered. *)
Lemma insert_by_ordered (x : Q) (l : list Q) :
  ordered_by before l = true -> ordered_by before (insert_by before x l) = true.
Proof using before_asym.
  induction l as [|y l IH]; intros H; [reflexivity|].
  cbn [insert_by]. destruct (before x y) eqn:Exy.
  - rewrite ordered_by_cons, H, (before_asym _ _ Exy). reflexivity.
  - specialize (IH (ordered_by_tail _ _ H)).
    destruct l as [|z l].
    + cbn [insert_by]. rewrite ordered_by_cons, Exy. reflexivity.
    + cbn [insert_by] in IH |- *. rewrite ordered_by_cons in H.
      apply andb_prop in H as [Hyz Hl].
      destruct (before x z) eqn:Exz.
      * rewrite ordered_by_cons, Exy. exact IH.
      * rewrite ordered_by_cons, Hyz. exact IH.
Qed.

Lemma sort_by_ordered_from (l acc : list Q) :
  ordered_by before acc = true ->
  ordered_by before (fold_left (fun a x => insert_by before x a) l acc) = true.
Proof using before_asym.
  revert acc. induction l as [|x l IH]; intros acc H; [exact H|].
  cbn [fold_left]. apply IH. now apply insert_by_ordered.
Qed.

Lemma sort_by_ordered (l : list Q) : ordered_by before (sort_by before l) = true.
Proof using before_asym. now apply sort_by_ordered_from. Qed.

(** An element that precedes nothing in the list is inserted at the end. *)
Lemma insert_by_last (x : Q) (l : list Q) :
  Forall (fun y => before x y = false) l -> insert_by before x l = l ++ [x].
Proof using Type.
  induction 1 as [|y l Hy _ IH]; [reflexivity|].
  cbn [insert_by app]. now rewrite Hy, IH.
Qed.

Lemma ordered_by_before_last (l : list Q) (x : Q) :
  ordered_by before (l ++ [x]) = true ->
  Forall (fun y => before x y = false) l.
Proof using before_trans.
  induction l as [|y l IH]; intros H; [constructor|].
  constructor.
  - pose proof (ordered_by_head y (l ++ [x]) H) as Hall.
    apply Forall_app in Hall as [_ Hx]. now inversion Hx.
  - apply IH. now apply (ordered_by_tail y).
Qed.

(** Sorting leaves an ordered list as it is. *)
Lemma sort_by_fixed_from (l acc : list Q) :
  ordered_by before (acc ++ l) = true ->
  fold_left (fun a x => insert_by before x a) l acc = acc ++ l.
Proof using before_trans.
  revert acc. induction l as [|x l IH]; intros acc H.
  - now rewrite app_nil_r.
  - cbn [fold_left].
    assert (Hacc : ordered_by before (acc ++ [x]) = true).
    { apply (ordered_by_app (acc ++ [x]) l). now rewrite <- app_assoc. }
    rewrite (insert_by_last x acc (ordered_by_before_last acc x Hacc)).
    rewrite IH; rewrite <- app_assoc; [reflexivity | exact H].
Qed.

Lemma sort_by_fixed (l : list Q) :
  ordered_by before l = true -> sort_by before l = l.
Proof using before_trans. intros H. now apply (sort_by_fixed_from l []). Qed.

Lemma list_eqb_refl (l : list Q) : list_eqb l l = true.
Proof using Type.
  induction l as [|x l IH]; [reflexivity|].
  cbn [list_eqb]. rewrite IH, andb_true_r. apply Qeq_bool_iff. reflexivity.
Qed.

Lemma ordered_by_list_eqb (l m : list Q) :
  list_eqb l m = true -> ordered_by before m = true ->
  ordered_by before l = true.
Proof using before_compat.
  revert m. induction l as [|x l IH]; intros m He Hm; [reflexivity|].
  destruct m as [|x' m]; [discriminate He|].
  cbn [list_eqb] in He. apply andb_prop in He as [Hx He].
  apply Qeq_bool_iff in Hx.
  destruct l as [|y l]; [reflexivity|].
  destruct m as [|y' m]; [discriminate He|].
  pose proof He as He'. cbn [list_eqb] in He'.
  apply andb_prop in He' as [Hy _]. apply Qeq_bool_iff in Hy.
  rewrite ordered_by_cons in Hm |- *. apply andb_prop in Hm as [Hxy Hm].
  rewrite (before_compat y y' x x' Hy Hx), Hxy. cbn [andb].
  now apply (IH (y' :: m)).
Qed.

(** A list equals its sorted copy exactly when it is ordered. *)
Lemma list_eqb_sort_by (l : list Q) :
  list_eqb l (sort_by before l) = ordered_by before l.
Proof using before_asym before_trans before_compat.
  destruct (ordered_by before l) eqn:Ho.
  - rewrite (sort_by_fixed l Ho). apply list_eqb_refl.
  - destruct (list_eqb l (sort_by before l)) eqn:He; [|reflexivity].
    rewrite <- Ho. symmetry.
    apply (ordered_by_list_eqb l (sort_by before l) He), sort_by_ordered.
Qed.
End SortFacts.

Lemma list_eqb_sorted_reverse (l : list Q) :
  list_eqb l (sorted_reverse l) = Spec.non_increasing l.
Proof.
  apply list_eqb_sort_by.
  - intros a b H. apply Qgtb_gt in H. apply Qgtb_le. lra.
  - intros a b c H1 H2. apply Qgtb_le in H1, H2. apply Qgtb_le. lra.
  - intros a a' b b' Ha Hb. unfold Qgtb, Qltb. now rewrite Ha, Hb.
Qed.

Lemma list_eqb_sorted (l : list Q) :
  list_eqb l (sorted l) = Spec.non_decreasing l.
Proof.
  apply list_eqb_sort_by.
  - intros a b H. apply Qltb_lt in H. apply Qltb_ge. lra.
  - intros a b c H1 H2. apply Qltb_ge in H1, H2. apply Qltb_ge. lra.
  - intros a a' b b' Ha Hb. unfold Qltb. now rewrite Ha, Hb.
Qed.

(** ** The MA signal *)

Module MaFacts.
Import TradingAdvisor Spec Examples.

Lemma last_ma_values_cons (period : nat) (values : list (option Q))
  (d : list (nat * list (option Q))) :
  last_ma_values ((period, values) :: d)
  = match last values None with
    | Some v => [v]
    | None => []
    end ++ last_ma_values d.
Proof. reflexivity. Qed.

Lemma position_term_cons (price v : Q) (l : list Q) :
  position_term price (v :: l)
  = ((if Qgtb price v then 1 else -1) + position_term price l)%Z.
Proof. reflexivity. Qed.

Lemma ma_position_fold (price : Q) (ma_dict : list (nat * list (option Q)))
  (signals : list string) (score : Z) :
  snd (fold_left (ma_position_step price) ma_dict (signals, score))
  = (score + position_term price (last_ma_values ma_dict))%Z.
Proof.
  revert signals score.
  induction ma_dict as [|[period values] d IH]; intros signals score.
  - cbn. lia.
  - rewrite last_ma_values_cons. cbn [fold_left ma_position_step].
    unfold last_ma. destruct (last values None) as [v|].
    + cbn [app]. rewrite position_term_cons.
      destruct (Qgtb price v) eqn:E; rewrite IH; lia.
    + rewrite IH. reflexivity.
Qed.

Lemma ma_score_terms (price : Q) (ma_dict : list (nat * list (option Q))) :
  let values := last_ma_values ma_dict in
  ma_score (_analyze_ma_signal price ma_dict)
  = (position_term price values + alignment_term values)%Z.
Proof.
  intros values. unfold _analyze_ma_signal.
  pose proof (ma_position_fold price ma_dict [] 0%Z) as Hfold.
  destruct (fold_left (ma_position_step price) ma_dict ([], 0%Z))
    as [signals score].
  cbn [snd] in Hfold. subst score.
  change (flat_map _ ma_dict) with values.
  unfold alignment_term.
  rewrite list_eqb_sorted_reverse, list_eqb_sorted.
  destruct (non_increasing values); [cbn [ma_score]; subst values; lia|].
  destruct (non_decreasing values); cbn [ma_score]; subst values; lia.
Qed.

Lemma ma_trend_label (price : Q) (ma_dict : list (nat * list (option Q))) :
  ma_trend (_analyze_ma_signal price ma_dict)
  = ma_label (ma_score (_analyze_ma_signal price ma_dict)).
Proof.
  unfold _analyze_ma_signal.
  destruct (fold_left (ma_position_step price) ma_dict ([], 0%Z))
    as [signals score].
  destruct (list_eqb _ (sorted_reverse _)); [reflexivity|].
  destruct (list_eqb _ (sorted _)); reflexivity.
Qed.

(** C9 (as stated) fails: the alignment term is awarded on a weak order.
    In a flat market MA5 = MA10 = 10 = price: both position terms are -1, the
    values are not strictly ordered, yet the score is 0 and the label
    neutral, where the strict reading gives -2 and bear. *)
Lemma equal_moving_averages_count_as_aligned :
  ma_score (_analyze_ma_signal 10 flat_ma_dict) = 0%Z /\
  ma_trend (_analyze_ma_signal 10 flat_ma_dict) = "中性" /\
  position_term 10 (last_ma_values flat_ma_dict) = (-2)%Z /\
  strictly_decreasing (last_ma_values flat_ma_dict) = false /\
  strictly_increasing (last_ma_values flat_ma_dict) = false /\
  (position_term 10 (last_ma_values flat_ma_dict)
   + strict_alignment_term (last_ma_values flat_ma_dict))%Z = (-2)%Z /\
  ma_label (-2) = "看空".
Proof. repeat split; vm_compute; reflexivity. Qed.

(** C9 (amended).  The MA score is the sum of +1 for each moving average the
    price is above and -1 for each it is at or below, plus an alignment term:
    +2 when the last MA values are non-increasing with the period (equal
    neighbours allowed), otherwise -2 when they are non-decreasing, otherwise
    0.  The label is strong-bull if the score exceeds 3, bull if it is
    positive, strong-bear if it is below -3, bear if it is negative, and
    neutral otherwise. *)
Theorem ma_signal_score_and_label (price : Q)
  (ma_dict : list (nat * list (option Q))) :
  let r := _analyze_ma_signal price ma_dict in
  let values := last_ma_values ma_dict in
  ma_score r = (position_term price values + alignment_term values)%Z /\
  ((3 < ma_score r)%Z -> ma_trend r = "强烈看多") /\
  ((0 < ma_score r <= 3)%Z -> ma_trend r = "看多") /\
  ((ma_score r < -3)%Z -> ma_trend r = "强烈看空") /\
  ((-3 <= ma_score r < 0)%Z -> ma_trend r = "看空") /\
  (ma_score r = 0%Z -> ma_trend r = "中性").
Proof.
  intros r values. split; [apply ma_score_terms|].
  unfold r. rewrite ma_trend_label. unfold ma_label.
  generalize (ma_score (_analyze_ma_signal price ma_dict)). intros z.
  rewrite !Z.gtb_ltb.
  destruct (Z.ltb_spec 3 z); [repeat split; intros; try reflexivity; lia|].
  destruct (Z.ltb_spec 0 z); [repeat split; intros; try reflexivity; lia|].
  destruct (Z.ltb_spec z (-3)); [repeat split; intros; try reflexivity; lia|].
  destruct (Z.ltb_spec z 0); repeat split; intros; try reflexivity; lia.
Qed.

End MaFacts.

(** ** Loops *)

Lemma in_range (a b i : Z) : In i (range a b) -> (a <= i < b)%Z.
Proof.
  unfold range. intros H. apply in_map_iff in H as [k [<- Hk]].
  apply in_seq in Hk. lia.
Qed.

(** A loop whose body keeps an invariant, and cannot raise under it, runs to
    the end and establishes the invariant. *)
Lemma for_fold_invariant {S A : Type} (P : S -> Prop) (R : A -> Prop)
  (step : S -> A -> result S) (xs : list A) (s : S) :
  P s ->
  (forall x, In x xs -> R x) ->
  (forall s x, P s -> R x -> exists s', step s x = Ok s' /\ P s') ->
  exists s', for_fold step s xs = Ok s' /\ P s'.
Proof.
  intros Hs HR Hstep. revert s Hs.
  induction xs as [|x xs IH]; intros s Hs; [now exists s|].
  destruct (Hstep s x Hs (HR x (or_introl eq_refl))) as [s1 [E1 H1]].
  cbn [for_fold]. rewrite E1. cbn [bind].
  apply IH; [|exact H1]. intros y Hy. apply HR. now right.
Qed.

Lemma getitem_nonneg_in_range {A : Type} (l : list A) (i : Z) :
  (0 <= i < len l)%Z -> exists x, getitem l i = Ok x.
Proof.
  intros Hi. unfold len in Hi.
  destruct (nth_error l (Z.to_nat i)) as [x|] eqn:E.
  - exists x. unfold getitem.
    destruct (i <? 0)%Z eqn:Hneg; [apply Z.ltb_lt in Hneg; lia|].
    now rewrite Hneg, E.
  - apply nth_error_None in E. lia.
Qed.

(** ** Directional segments *)

Module ChanFacts.
Import ChanTheoryAnalysis Spec Examples.

Lemma last_segment_snoc (l : list bi) (b : bi) :
  last_segment (l ++ [b]) = Some b.
Proof. unfold last_segment. rewrite map_app. apply last_last. Qed.

Lemma alternating_snoc (l : list bi) (b : bi) :
  alternating l ->
  (forall b0, last_segment l = Some b0 -> type b0 <> type b) ->
  alternating (l ++ [b]).
Proof.
  induction l as [|b1 l IH]; intros Ha Hl; [cbn; auto|].
  destruct l as [|b2 l].
  - cbn. split; [apply Hl; reflexivity | split; exact I].
  - destruct Ha as [H12 Ha]. cbn [app alternating] in IH |- *.
    split; [exact H12|]. apply IH; [exact Ha|]. exact Hl.
Qed.

Lemma scan_invariant_init (p : Q) : scan_invariant (mk_bi_state [] None 0 p).
Proof. split; [exact I | discriminate]. Qed.

(** One pass of the scan reads [close[i]] and [close[i - 1]], both in range,
    and keeps the invariant. *)
Lemma bi_step_invariant (close : list Q) (st : bi_state) (i : Z) :
  scan_invariant st -> (1 <= i < len close)%Z ->
  exists st', bi_step close st i = Ok st' /\ scan_invariant st'.
Proof.
  intros [Halt Hlast] Hi.
  destruct (getitem_nonneg_in_range close i) as [c Hc]; [lia|].
  destruct (getitem_nonneg_in_range close (i - 1)) as [p Hp]; [lia|].
  assert (Hsame : scan_invariant st) by now split.
  unfold bi_step. destruct (direction st) as [[|]|];
    rewrite ?Hc, ?Hp; cbn [bind].
  - destruct (Qltb c p); [|now exists st].
    eexists. split; [reflexivity|].
    split; cbn [bi_list direction].
    + apply alternating_snoc; [exact Halt|].
      intros b0 Hb0. specialize (Hlast b0 Hb0). injection Hlast as Hlast.
      cbn [type]. destruct (type b0); [discriminate Hlast | discriminate].
    + intros b Hb. rewrite last_segment_snoc in Hb. now injection Hb as <-.
  - destruct (Qgtb c p); [|now exists st].
    eexists. split; [reflexivity|].
    split; cbn [bi_list direction].
    + apply alternating_snoc; [exact Halt|].
      intros b0 Hb0. specialize (Hlast b0 Hb0). injection Hlast as Hlast.
      cbn [type]. destruct (type b0); [discriminate | discriminate Hlast].
    + intros b Hb. rewrite last_segment_snoc in Hb. now injection Hb as <-.
  - assert (Hnil : forall b, last_segment (bi_list st) = Some b -> False).
    { intros b Hb. discriminate (Hlast b Hb). }
    destruct (Qgtb c p).
    + eexists. split; [reflexivity|]. split; [exact Halt|].
      intros b Hb. cbn [bi_list] in Hb. destruct (Hnil b Hb).
    + destruct (Qltb c p); [|now exists st].
      eexists. split; [reflexivity|]. split; [exact Halt|].
      intros b Hb. cbn [bi_list] in Hb. destruct (Hnil b Hb).
Qed.

(** [identify_bi] never raises, and its segments alternate. *)
Lemma identify_bi_alternating (high low close : list Q) :
  exists bl, identify_bi high low close = Ok bl /\ alternating bl.
Proof.
  unfold identify_bi.
  destruct (len close <? 5)%Z eqn:E; [exists []; split; [reflexivity | exact I]|].
  apply Z.ltb_ge in E.
  destruct (getitem_nonneg_in_range close 0) as [p Hp]; [lia|].
  rewrite Hp. cbn [bind].
  destruct (for_fold_invariant scan_invariant
              (fun i => (1 <= i < len close)%Z)
              (bi_step close) (range 1 (len close))
              (mk_bi_state [] None 0 p))
    as [st [Hst [Halt _]]].
  - apply scan_invariant_init.
  - intros i Hi. now apply in_range.
  - intros s i Hs Hi. now apply bi_step_invariant.
  - rewrite Hst. cbn [bind]. now exists (bi_list st).
Qed.

Lemma alternating_adjacent (l : list bi) (i : nat) (b1 b2 : bi) :
  alternating l ->
  nth_error l i = Some b1 -> nth_error l (S i) = Some b2 ->
  type b1 <> type b2.
Proof.
  revert i. induction l as [|b l IH]; intros i Ha H1 H2; [destruct i; discriminate|].
  destruct Ha as [Hhead Ha].
  destruct i as [|i].
  - cbn in H1, H2. injection H1 as <-.
    destruct l as [|b' l]; [discriminate|]. cbn in H2. now injection H2 as <-.
  - cbn in H1, H2. now apply (IH i).
Qed.

(** C8.  For every close-price series, [identify_bi] returns a list of
    segments in which no two consecutive segments have the same direction:
    of every adjacent pair, one is up and the other is down. *)
Theorem identify_bi_alternates (high low close : list Q) :
  exists bl,
    identify_bi high low close = Ok bl /\
    forall i b1 b2,
      nth_error bl i = Some b1 -> nth_error bl (S i) = Some b2 ->
      (type b1 = up /\ type b2 = down) \/ (type b1 = down /\ type b2 = up).
Proof.
  destruct (identify_bi_alternating high low close) as [bl [Hbl Halt]].
  exists bl. split; [exact Hbl|].
  intros i b1 b2 H1 H2.
  pose proof (alternating_adjacent bl i b1 b2 Halt H1 H2) as Hne.
  destruct (type b1), (type b2); auto; now destruct Hne.
Qed.

(** *** The trend over the last three segments *)

Lemma last_three (l : list bi) :
  (3 <= length l)%nat -> exists pre a b c, l = pre ++ [a; b; c].
Proof.
  intros H.
  rewrite <- (firstn_skipn (length l - 3) l).
  exists (firstn (length l - 3) l).
  assert (Hlen : length (skipn (length l - 3) l) = 3%nat)
    by (rewrite length_skipn; lia).
  destruct (skipn (length l - 3) l) as [|a [|b [|c [|d t]]]]; try discriminate.
  now exists a, b, c.
Qed.

Lemma slice_last_three (pre : list bi) (a b c : bi) :
  slice_from (pre ++ [a; b; c]) (-3) = [a; b; c].
Proof.
  unfold slice_from, py_slice.
  assert (Hn : len (pre ++ [a; b; c]) = (Z.of_nat (length pre) + 3)%Z)
    by (unfold len; rewrite length_app; cbn [length]; lia).
  rewrite Hn.
  assert (Ha : slice_bound (Z.of_nat (length pre) + 3) (-3)
               = Z.of_nat (length pre))
    by (unfold slice_bound; change (-3 <? 0)%Z with true; cbv iota; lia).
  rewrite Ha, slice_bound_inside by lia.
  replace (Z.to_nat (Z.of_nat (length pre) + 3 - Z.of_nat (length pre)))
    with 3%nat by lia.
  rewrite Nat2Z.id, skipn_app, skipn_all, Nat.sub_diag. reflexivity.
Qed.

Lemma alternating_suffix (pre l : list bi) :
  alternating (pre ++ l) -> alternating l.
Proof.
  induction pre as [|x pre IH]; [auto|].
  cbn [app alternating]. intros [_ H]. now apply IH.
Qed.

Lemma last_segment_three (pre : list bi) (a b c : bi) :
  last_segment (pre ++ [a; b; c]) = Some c.
Proof.
  change [a; b; c] with ([a; b] ++ [c]). rewrite app_assoc.
  apply last_segment_snoc.
Qed.

(** On alternating segments the strided check over the last three reads the
    direction of the most recent one. *)
Lemma analyze_trend_alternating (bl : list bi) :
  alternating bl -> (3 <= length bl)%nat ->
  exists c,
    last_segment bl = Some c /\
    analyze_trend bl
    = match type c with
      | up => mk_trend "强势上涨" (8 # 10) (Some (len bl))
      | down => mk_trend "强势下跌" (8 # 10) (Some (len bl))
      end.
Proof.
  intros Halt Hlen.
  destruct (last_three bl Hlen) as [pre [a [b [c ->]]]].
  exists c. split; [apply last_segment_three|].
  apply alternating_suffix in Halt. destruct Halt as [Hab [Hbc _]].
  unfold analyze_trend.
  replace (len (pre ++ [a; b; c]) <? 3)%Z with false
    by (symmetry; apply Z.ltb_ge; unfold len; rewrite length_app; cbn; lia).
  rewrite slice_last_three. cbn [every_other forallb].
  destruct (type a), (type b), (type c); try reflexivity;
    try (now destruct Hab); now destruct Hbc.
Qed.

(** C10.  For the segments [identify_bi] produces, when there are at least
    three of them, [analyze_trend] reads the direction of the most recent
    segment: the result is "strong uptrend" with strength 0.8 exactly when
    that segment is up, "strong downtrend" with strength 0.8 exactly when it
    is down, and it is never "oscillating". *)
Theorem analyze_trend_reads_last_segment (high low close : list Q)
  (bl : list bi) :
  identify_bi high low close = Ok bl -> (3 <= length bl)%nat ->
  exists c,
    last_segment bl = Some c /\
    ((trend (analyze_trend bl) = "强势上涨" /\
      strength (analyze_trend bl) == 8 # 10) <-> type c = up) /\
    ((trend (analyze_trend bl) = "强势下跌" /\
      strength (analyze_trend bl) == 8 # 10) <-> type c = down) /\
    trend (analyze_trend bl) <> "震荡".
Proof.
  intros Hbl Hlen.
  destruct (identify_bi_alternating high low close) as [bl' [Hbl' Halt]].
  rewrite Hbl in Hbl'. injection Hbl' as <-.
  destruct (analyze_trend_alternating bl Halt Hlen) as [c [Hc Ht]].
  exists c. split; [exact Hc|]. rewrite Ht.
  destruct (type c); cbn [trend strength];
    (split; [|split]); try discriminate;
    split; try discriminate; try (intros [H _]; discriminate H);
    intros _; try reflexivity; split; reflexivity.
Qed.

(** The statement at a zigzag of six closes, which yields four segments. *)
Lemma analyze_trend_reads_last_segment_witness :
  exists bl c,
    identify_bi [] [] zigzag_closes = Ok bl /\
    last_segment bl = Some c /\
    ((trend (analyze_trend bl) = "强势下跌" /\
      strength (analyze_trend bl) == 8 # 10) <-> type c = down).
Proof.
  eexists.
  destruct (analyze_trend_reads_last_segment [] [] zigzag_closes _ eq_refl)
    as [c [Hc [_ [Hdown _]]]].
  - cbn. lia.
  - exists c. split; [reflexivity|]. split; [exact Hc | exact Hdown].
Defined.

End ChanFacts.

(** ** Degenerate inputs *)

Lemma getitem_in_bounds {A : Type} (l : list A) (i : Z) :
  (- len l <= i < len l)%Z -> exists x, getitem l i = Ok x.
Proof.
  intros Hi. unfold getitem.
  destruct (i <? 0)%Z eqn:Hneg;
    [apply Z.ltb_lt in Hneg | apply Z.ltb_ge in Hneg].
  - destruct (i + len l <? 0)%Z eqn:E; [apply Z.ltb_lt in E; lia|].
    destruct (nth_error l (Z.to_nat (i + len l))) as [x|] eqn:En;
      [now exists x|].
    apply nth_error_None in En. unfold len in *. lia.
  - destruct (i <? 0)%Z eqn:E; [apply Z.ltb_lt in E; lia|].
    destruct (nth_error l (Z.to_nat i)) as [x|] eqn:En; [now exists x|].
    apply nth_error_None in En. unfold len in *. lia.
Qed.

Module DegenerateFacts.
Import TechnicalIndicators WyckoffAnalysis Examples.

(** KDJ: a window with no range takes the guarded branch, RSV = 50. *)
Lemma rsv_at_flat_window (high low close : list Q) (n : nat) (i : Z)
  (highest lowest : Q) :
  max_of (py_slice high (i - Z.of_nat n + 1) (i + 1)) = Ok highest ->
  min_of (py_slice low (i - Z.of_nat n + 1) (i + 1)) = Ok lowest ->
  highest == lowest ->
  rsv_at high low close n i = Ok 50.
Proof.
  intros Hh Hl Heq. unfold rsv_at. rewrite Hh, Hl. cbn [bind].
  apply Qeq_bool_iff in Heq. now rewrite Heq.
Qed.

Lemma max_of_raises (l : list Q) (e : exn) :
  max_of l = Raise e -> e = ValueError.
Proof. destruct l; cbn; congruence. Qed.

Lemma min_of_raises (l : list Q) (e : exn) :
  min_of l = Raise e -> e = ValueError.
Proof. destruct l; cbn; congruence. Qed.

Lemma getitem_raises {A : Type} (l : list A) (i : Z) (e : exn) :
  getitem l i = Raise e -> e = IndexError.
Proof.
  unfold getitem. destruct (_ <? 0)%Z; [congruence|].
  destruct (nth_error _ _); congruence.
Qed.

(** KDJ: the RSV division never faults. *)
Lemma rsv_at_no_division_fault (high low close : list Q) (n : nat) (i : Z) :
  rsv_at high low close n i <> Raise ZeroDivisionError.
Proof.
  unfold rsv_at.
  destruct (max_of _) as [highest|e] eqn:Hh; cbn [bind];
    [|apply max_of_raises in Hh; subst e; discriminate].
  destruct (min_of _) as [lowest|e] eqn:Hl; cbn [bind];
    [|apply min_of_raises in Hl; subst e; discriminate].
  destruct (Qeq_bool highest lowest) eqn:E; [discriminate|].
  destruct (getitem close i) as [c|e] eqn:Hc; cbn [bind];
    [|apply getitem_raises in Hc; subst e; discriminate].
  unfold py_div.
  destruct (Qeq_bool (highest - lowest) 0) eqn:E0; [|discriminate].
  apply Qeq_bool_iff in E0. apply Qeq_bool_false in E. exfalso. apply E. lra.
Qed.

(** RSI: an average loss of zero takes the guarded branch, RSI = 100. *)
Lemma rsi_value_no_losses (avg_gain avg_loss : Q) :
  avg_loss == 0 -> rsi_value avg_gain avg_loss = 100.
Proof.
  intros H. unfold rsi_value. apply Qeq_bool_iff in H. now rewrite H.
Qed.

(** C7.  KDJ and RSI guard their zero denominators ([rsv_at_flat_window],
    [rsv_at_no_division_fault], [rsi_value_no_losses]).  The Wyckoff phase
    classifier does not: with at least ten prices and volumes and a first
    price of zero, [identify_phase] performs the division and raises
    [ZeroDivisionError]. *)
Theorem identify_phase_zero_first_price_raises (prices volumes : list Q)
  (first : Q) :
  (10 <= len prices)%Z -> (10 <= len volumes)%Z ->
  getitem prices 0 = Ok first -> first == 0 ->
  identify_phase prices volumes = Raise ZeroDivisionError.
Proof.
  intros Hp Hv Hfirst Hzero. unfold identify_phase.
  replace (len prices <? 10)%Z with false by (symmetry; apply Z.ltb_ge; lia).
  replace (len volumes <? 10)%Z with false by (symmetry; apply Z.ltb_ge; lia).
  cbn [orb].
  destruct (getitem_in_bounds prices (-1)) as [last Hlast]; [lia|].
  rewrite Hlast, Hfirst. cbn [bind]. unfold py_div.
  apply Qeq_bool_iff in Hzero. now rewrite Hzero.
Qed.

(** The failing call at ten prices of which the first is zero. *)
Lemma identify_phase_zero_first_price_raises_witness :
  identify_phase closes_from_zero (repeat 1 10%nat) = Raise ZeroDivisionError.
Proof.
  apply (identify_phase_zero_first_price_raises _ _ 0).
  - cbn. lia.
  - cbn. lia.
  - reflexivity.
  - reflexivity.
Defined.

(** A zero average volume in the first half is not guarded either: the
    numpy division yields an infinity, which compares as a volume surge. *)
Lemma identify_phase_zero_early_volume :
  exists d,
    identify_phase [10; 10; 10; 10; 10; 10; 10; 10; 10; 11]
      [0; 0; 0; 0; 0; 1; 1; 1; 1; 1] = Ok d /\
    volume_change d = Some PosInf /\
    phase d = "上涨阶段（Markup）".
Proof.
  eexists. split; [vm_compute; reflexivity|]. split; reflexivity.
Qed.

End DegenerateFacts.

(** ** The top-level analysis *)

Module PipelineFacts.
Import TechnicalIndicators TradingAdvisor Examples.

(** Fewer than thirty klines: the explicit insufficient-data dictionary. *)
Lemma analyze_comprehensive_insufficient (sqrt : Q -> Q) (klines : list kline) :
  (length klines < 30)%nat ->
  analyze_comprehensive sqrt klines = Ok (ErrorDict "数据不足，至少需要30根K线").
Proof.
  intros H. unfold analyze_comprehensive.
  replace (len klines <? 30)%Z with true
    by (symmetry; apply Z.ltb_lt; unfold len; lia).
  reflexivity.
Qed.

(** With thirty to thirty-three prices the indicator analysis stops at the
    MACD. *)
Lemma _analyze_indicators_raises (sqrt : Q -> Q)
  (closes highs lows volumes : list Q) :
  (26 <= length closes < 34)%nat ->
  _analyze_indicators sqrt closes highs lows volumes = Raise IndexError.
Proof.
  intros H. unfold _analyze_indicators.
  destruct (getitem_in_bounds closes (-1)) as [p Hp]; [unfold len; lia|].
  rewrite Hp. cbn [bind].
  rewrite MacdFacts.calculate_macd_raises by lia. reflexivity.
Qed.

(** C2.  Below thirty klines the result is the insufficient-data dictionary
    ([analyze_comprehensive_insufficient]).  From thirty klines on the claim
    promises a full analysis; for thirty to thirty-three klines the call
    raises [IndexError] instead (out of [calculate_macd]) and returns
    nothing. *)
Theorem analyze_comprehensive_short_window_raises (sqrt : Q -> Q)
  (klines : list kline) :
  (30 <= length klines < 34)%nat ->
  analyze_comprehensive sqrt klines = Raise IndexError.
Proof.
  intros H. unfold analyze_comprehensive.
  replace (len klines <? 30)%Z with false
    by (symmetry; apply Z.ltb_ge; unfold len; lia).
  destruct (getitem_in_bounds (map close klines) (-1)) as [p Hp];
    [unfold len; rewrite length_map; lia|].
  rewrite Hp. cbn [bind].
  rewrite _analyze_indicators_raises by (rewrite length_map; lia).
  reflexivity.
Qed.

(** Thirty-four klines are still too few: the MACD has nine DIF values and
    one DEA value, and the crossover test of [_analyze_macd_signal] reads
    [DEA[-2]]. *)
Lemma analyze_comprehensive_34_klines_raises :
  analyze_comprehensive (fun x => x) (rising_klines 34) = Raise IndexError.
Proof. vm_compute. reflexivity. Qed.

(** The whole analysis of a flat market of forty equal candles (every
    window has deviation 0, where the square-root parameter is only applied
    to 0): the total is 44.6, the recommendation is short, every stop-loss
    and take-profit level equals the price, and every risk-reward ratio is
    0. *)
Lemma flat_market_analysis :
  exists a,
    analyze_comprehensive (fun x => x) flat_klines = Ok (AnalysisDict a) /\
    current_price a == 10 /\
    total (analysis_score a) == 446 # 10 /\
    direction (recommendations a) = "做空（卖出）" /\
    forall h,
      exists sl tp rr,
        tf_get (stop_loss (recommendations a)) h = Some sl /\ sl == 10 /\
        tf_get (take_profit (recommendations a)) h = Some tp /\ tp == 10 /\
        tf_get (risk_reward_ratio (recommendations a)) h = Some rr /\ rr == 0.
Proof.
  eexists. split; [vm_compute; reflexivity|].
  repeat (split; [vm_compute; reflexivity|]).
  intros h. destruct h; do 3 eexists;
    repeat (split; [vm_compute; reflexivity|]); vm_compute; reflexivity.
Qed.

(** The failing call at thirty equal candles. *)
Lemma analyze_comprehensive_short_window_raises_witness :
  analyze_comprehensive (fun x => x) thirty_klines = Raise IndexError.
Proof.
  apply analyze_comprehensive_short_window_raises. cbn. lia.
Defined.

End PipelineFacts.

(** ** Totality of the analysis on long enough windows *)

Lemma length_range (a b : Z) : length (range a b) = Z.to_nat (b - a).
Proof. unfold range. now rewrite length_map, length_seq. Qed.

Lemma for_append_defined {A B : Type} (f : A -> result B) (xs : list A) :
  (forall x, In x xs -> exists y, f x = Ok y) ->
  exists ys, for_append f xs = Ok ys /\ length ys = length xs.
Proof.
  induction xs as [|x xs IH]; intros Hf; [now exists []|].
  destruct (Hf x (or_introl eq_refl)) as [y Hy].
  destruct IH as [ys [Hys Hlen]]; [intros z Hz; apply Hf; now right|].
  exists (y :: ys). cbn [for_append]. rewrite Hy. cbn [bind]. rewrite Hys.
  cbn [bind length]. now rewrite Hlen.
Qed.

Lemma max_of_defined (l : list Q) : l <> [] -> exists x, max_of l = Ok x.
Proof. destruct l as [|x l]; [congruence | now eexists]. Qed.

Lemma min_of_defined (l : list Q) : l <> [] -> exists x, min_of l = Ok x.
Proof. destruct l as [|x l]; [congruence | now eexists]. Qed.

Lemma length_py_slice {A : Type} (l : list A) (a b : Z) :
  (0 <= a <= b)%Z -> (b <= len l)%Z ->
  length (py_slice l a b) = Z.to_nat (b - a).
Proof.
  intros Ha Hb. unfold py_slice.
  rewrite !slice_bound_inside by lia.
  rewrite length_firstn, length_skipn. unfold len in Hb. lia.
Qed.

Lemma py_slice_nonempty {A : Type} (l : list A) (a b : Z) :
  (0 <= a < b)%Z -> (b <= len l)%Z -> py_slice l a b <> [].
Proof.
  intros Ha Hb H. apply (f_equal (@length A)) in H.
  rewrite length_py_slice in H by lia. cbn in H. lia.
Qed.

(** [l[-n:]] keeps the last [n] elements of a list that has them. *)
Lemma length_slice_from_end {A : Type} (l : list A) (n : Z) :
  (0 < n <= len l)%Z -> length (slice_from l (- n)) = Z.to_nat n.
Proof.
  intros Hn. unfold slice_from, py_slice.
  assert (Ha : slice_bound (len l) (- n) = (len l - n)%Z).
  { unfold slice_bound.
    destruct (- n <? 0)%Z eqn:E; [|apply Z.ltb_ge in E]; lia. }
  rewrite Ha, slice_bound_inside by (pose proof (len_nonneg l); lia).
  rewrite length_firstn, length_skipn. unfold len in *. lia.
Qed.

Lemma getitem_last_defined {A : Type} (l : list A) (k : Z) :
  (0 < k <= len l)%Z -> exists x, getitem l (- k) = Ok x.
Proof. intros H. apply getitem_in_bounds. lia. Qed.

Lemma len_zero_iff {A : Type} (l : list A) : (len l =? 0)%Z = false <-> (1 <= len l)%Z.
Proof.
  pose proof (len_nonneg l). rewrite Z.eqb_neq. lia.
Qed.

Module TotalityFacts.
Import TechnicalIndicators TradingAdvisor.

(** Reads [l[-k]] of a list known to hold [k] elements. *)
Ltac read_back l k :=
  let x := fresh "x" in
  let Hx := fresh "Hx" in
  destruct (getitem_last_defined l k) as [x Hx]; [lia|];
  cbn [Z.opp] in Hx; rewrite ?Hx; cbn [bind].

Lemma and_then_defined (a : bool) (b : result bool) :
  (a = true -> exists v, b = Ok v) -> exists v, and_then a b = Ok v.
Proof.
  intros H. destruct a; [now apply H | now exists false].
Qed.

Lemma last_or_none_defined {A : Type} (v : list A) :
  exists x, last_or_none v = Ok x.
Proof.
  unfold last_or_none. destruct (len v =? 0)%Z eqn:E; [now eexists|].
  apply len_zero_iff in E. read_back v 1%Z. now eexists.
Qed.

(** Settles a goal [exists s, m = Ok s] once every subscript in [m] has been
    read: branches are split until the head is [Ok]. *)
Ltac settle :=
  unfold and_then; cbn [bind];
  first
    [ now eexists
    | match goal with
      | |- context [if ?c then _ else _] => destruct c
      end; settle ].

Lemma _analyze_macd_signal_defined (macd : macd_dict) :
  length (MACD macd) = length (DEA macd) ->
  ((2 <= length (DIF macd))%nat -> (2 <= length (DEA macd))%nat) ->
  exists s, _analyze_macd_signal macd = Ok s.
Proof.
  intros Hbar Hdea. unfold _analyze_macd_signal.
  destruct (len (DIF macd) =? 0)%Z eqn:E1; [now eexists|].
  destruct (len (DEA macd) =? 0)%Z eqn:E2; [now eexists|].
  cbn [orb]. apply len_zero_iff in E1, E2.
  read_back (DIF macd) 1%Z. read_back (DEA macd) 1%Z.
  assert (Hm : (1 <= len (MACD macd))%Z) by (unfold len in *; lia).
  read_back (MACD macd) 1%Z.
  destruct (2 <=? len (DIF macd))%Z eqn:E3; [|settle].
  apply Z.leb_le in E3.
  assert (He : (2 <= len (DEA macd))%Z) by (unfold len in *; lia).
  read_back (DIF macd) 2%Z. read_back (DEA macd) 2%Z.
  settle.
Qed.

Lemma _analyze_kdj_signal_defined (kdj : kdj_dict) :
  length (D kdj) = length (K kdj) -> length (J kdj) = length (K kdj) ->
  exists s, _analyze_kdj_signal kdj = Ok s.
Proof.
  intros Hd Hj. unfold _analyze_kdj_signal.
  destruct (len (K kdj) =? 0)%Z eqn:E1; [now eexists|].
  apply len_zero_iff in E1.
  assert (Hd1 : (1 <= len (D kdj))%Z) by (unfold len in *; lia).
  assert (Hj1 : (1 <= len (J kdj))%Z) by (unfold len in *; lia).
  read_back (K kdj) 1%Z. read_back (D kdj) 1%Z. read_back (J kdj) 1%Z.
  destruct (2 <=? len (K kdj))%Z eqn:E3; [|settle].
  apply Z.leb_le in E3.
  assert (Hd2 : (2 <= len (D kdj))%Z) by (unfold len in *; lia).
  read_back (K kdj) 2%Z. read_back (D kdj) 2%Z.
  settle.
Qed.

Lemma _analyze_boll_signal_defined (current_price : Q) (boll : boll_dict) :
  length (UPPER boll) = length (MIDDLE boll) ->
  length (LOWER boll) = length (MIDDLE boll) ->
  exists s, _analyze_boll_signal current_price boll = Ok s.
Proof.
  intros Hu Hl. unfold _analyze_boll_signal.
  destruct (len (MIDDLE boll) =? 0)%Z eqn:E1; [now eexists|].
  apply len_zero_iff in E1.
  assert (Hu1 : (1 <= len (UPPER boll))%Z) by (unfold len in *; lia).
  assert (Hl1 : (1 <= len (LOWER boll))%Z) by (unfold len in *; lia).
  read_back (UPPER boll) 1%Z. read_back (MIDDLE boll) 1%Z.
  read_back (LOWER boll) 1%Z.
  settle.
Qed.

Lemma _analyze_rsi_signal_defined (rsi : list Q) :
  exists s, _analyze_rsi_signal rsi = Ok s.
Proof.
  unfold _analyze_rsi_signal.
  destruct (len rsi =? 0)%Z eqn:E1; [now eexists|].
  apply len_zero_iff in E1. read_back rsi 1%Z. settle.
Qed.

(** *** The indicator series *)

Lemma py_div_defined (a b : Q) : ~ b == 0 -> py_div a b = Ok (a / b).
Proof.
  intros H. unfold py_div. apply Qeq_bool_false in H. now rewrite H.
Qed.

Lemma rsv_at_defined (high low close : list Q) (n : nat) (i : Z) :
  length high = length close -> length low = length close ->
  (1 <= n)%nat -> (Z.of_nat n - 1 <= i < len close)%Z ->
  exists rsv, rsv_at high low close n i = Ok rsv.
Proof.
  intros Hh Hl Hn Hi. unfold rsv_at.
  destruct (max_of_defined (py_slice high (i - Z.of_nat n + 1) (i + 1)))
    as [highest Hhi];
    [apply py_slice_nonempty; unfold len in *; lia|].
  destruct (min_of_defined (py_slice low (i - Z.of_nat n + 1) (i + 1)))
    as [lowest Hlo];
    [apply py_slice_nonempty; unfold len in *; lia|].
  rewrite Hhi, Hlo. cbn [bind].
  destruct (Qeq_bool highest lowest) eqn:E; [now eexists|].
  destruct (getitem_nonneg_in_range close i) as [c Hc]; [lia|].
  rewrite Hc. cbn [bind].
  rewrite py_div_defined; [now eexists|].
  apply Qeq_bool_false in E. intros H. apply E. lra.
Qed.

Lemma kdj_step_defined (high low close : list Q) (n m1 m2 : nat)
  (st : Q * Q * kdj_dict) (i : Z) :
  length high = length close -> length low = length close ->
  (1 <= n)%nat -> (1 <= m1)%nat -> (1 <= m2)%nat ->
  (Z.of_nat n - 1 <= i < len close)%Z ->
  length (D (snd st)) = length (K (snd st)) /\
  length (J (snd st)) = length (K (snd st)) ->
  exists st',
    kdj_step high low close n m1 m2 st i = Ok st' /\
    (length (D (snd st')) = length (K (snd st')) /\
     length (J (snd st')) = length (K (snd st'))).
Proof.
  intros Hh Hl Hn Hm1 Hm2 Hi [Hd Hj].
  destruct st as [[k d] out]. cbn [snd] in Hd, Hj. unfold kdj_step.
  destruct (rsv_at_defined high low close n i Hh Hl Hn Hi) as [rsv Hrsv].
  rewrite Hrsv. cbn [bind].
  assert (Hnz : forall m, (1 <= m)%nat -> ~ inject_Z (Z.of_nat m) == 0).
  { intros m Hm H. unfold Qeq in H. cbn in H. lia. }
  rewrite py_div_defined by now apply Hnz. cbn [bind].
  rewrite py_div_defined by now apply Hnz. cbn [bind].
  eexists. split; [reflexivity|].
  cbn [snd K D J]. rewrite !length_app. cbn [length]. lia.
Qed.

Lemma calculate_kdj_defined (high low close : list Q) (n m1 m2 : nat) :
  length high = length close -> length low = length close ->
  (1 <= n)%nat -> (1 <= m1)%nat -> (1 <= m2)%nat ->
  exists out,
    calculate_kdj high low close n m1 m2 = Ok out /\
    length (D out) = length (K out) /\ length (J out) = length (K out).
Proof.
  intros Hh Hl Hn Hm1 Hm2. unfold calculate_kdj.
  destruct (len close <? Z.of_nat n)%Z; [now eexists|].
  destruct (for_fold_invariant
              (fun st : Q * Q * kdj_dict =>
                 length (D (snd st)) = length (K (snd st)) /\
                 length (J (snd st)) = length (K (snd st)))
              (fun i => (Z.of_nat n - 1 <= i < len close)%Z)
              (kdj_step high low close n m1 m2)
              (range (Z.of_nat n - 1) (len close))
              (50, 50, mk_kdj [] [] []))
    as [[[k d] out] [Hst Hout]].
  - now split.
  - intros i Hi. now apply in_range.
  - intros st i Hst Hi. now apply kdj_step_defined.
  - rewrite Hst. cbn [bind]. now exists out.
Qed.

Lemma calculate_boll_lengths (sqrt : Q -> Q) (prices : list Q) (period : nat)
  (std_dev : Q) :
  let boll := calculate_boll sqrt prices period std_dev in
  length (UPPER boll) = length (MIDDLE boll) /\
  length (LOWER boll) = length (MIDDLE boll).
Proof.
  unfold calculate_boll.
  destruct (len prices <? Z.of_nat period)%Z; [now split|].
  cbn [UPPER MIDDLE LOWER]. now rewrite !length_map.
Qed.

Lemma calculate_rsi_defined (prices : list Q) (period : nat) :
  exists rsi, calculate_rsi prices period = Ok rsi.
Proof.
  unfold calculate_rsi.
  destruct (len prices <? Z.of_nat period + 1)%Z; [now eexists|].
  match goal with
  | |- context [for_append ?f ?xs] =>
      destruct (for_append_defined f xs) as [changes [Hc _]]
  end.
  - intros i Hi. apply in_range in Hi.
    destruct (getitem_nonneg_in_range prices i) as [p Hp]; [lia|].
    destruct (getitem_nonneg_in_range prices (i - 1)) as [q Hq]; [lia|].
    rewrite Hp, Hq. now eexists.
  - rewrite Hc. cbn [bind]. now eexists.
Qed.

Lemma calculate_atr_defined (high low close : list Q) (period : nat) :
  length high = length close -> length low = length close ->
  exists atr, calculate_atr high low close period = Ok atr.
Proof.
  intros Hh Hl. unfold calculate_atr.
  destruct (len close <? Z.of_nat period + 1)%Z; [now eexists|].
  match goal with
  | |- context [for_append ?f ?xs] =>
      destruct (for_append_defined f xs) as [tr [Htr _]]
  end.
  - intros i Hi. apply in_range in Hi.
    destruct (getitem_nonneg_in_range high i) as [h Hx]; [unfold len in *; lia|].
    destruct (getitem_nonneg_in_range low i) as [l Hy]; [unfold len in *; lia|].
    destruct (getitem_nonneg_in_range close (i - 1)) as [c Hz]; [lia|].
    rewrite Hx, Hy. cbn [bind]. rewrite Hz. now eexists.
  - rewrite Htr. cbn [bind]. now eexists.
Qed.

(** With 35 prices the MACD has its three series and the signal reads the
    last two values of DIF and DEA. *)
Lemma macd_signal_defined (closes : list Q) :
  (35 <= length closes)%nat ->
  exists macd s,
    calculate_macd closes 12 26 9 = Ok macd /\
    _analyze_macd_signal macd = Ok s.
Proof.
  intros Hlen.
  destruct (MacdFacts.calculate_macd_total closes 12 26 9)
    as [dif [dea [macd [Hm [Hdif [_ [Hdea [Hbar _]]]]]]]]; try lia.
  exists (mk_macd dif dea macd).
  destruct (_analyze_macd_signal_defined (mk_macd dif dea macd)) as [s Hs].
  - exact Hbar.
  - intros _. cbn [DEA DIF]. rewrite Hdea, MacdFacts.length_calculate_ema. lia.
  - now exists s.
Qed.

Lemma _analyze_indicators_defined (sqrt : Q -> Q)
  (closes highs lows volumes : list Q) :
  (35 <= length closes)%nat ->
  length highs = length closes -> length lows = length closes ->
  exists r, _analyze_indicators sqrt closes highs lows volumes = Ok r.
Proof.
  intros Hlen Hh Hl. unfold _analyze_indicators.
  assert (Hc : (1 <= len closes)%Z) by (unfold len; lia).
  read_back closes 1%Z.
  destruct (macd_signal_defined closes Hlen) as [macd [ms [Hmacd Hms]]].
  rewrite Hmacd. cbn [bind]. rewrite Hms. cbn [bind].
  destruct (calculate_kdj_defined highs lows closes 9 3 3)
    as [kdj [Hkdj [Hd Hj]]]; try lia.
  rewrite Hkdj. cbn [bind].
  destruct (_analyze_kdj_signal_defined kdj Hd Hj) as [ks Hks].
  rewrite Hks. cbn [bind].
  destruct (calculate_boll_lengths sqrt closes 20 2) as [Hu Hlo].
  destruct (_analyze_boll_signal_defined x (calculate_boll sqrt closes 20 2)
              Hu Hlo) as [bs Hbs].
  rewrite Hbs. cbn [bind].
  destruct (calculate_rsi_defined closes 14) as [rsi Hrsi].
  rewrite Hrsi. cbn [bind].
  destruct (_analyze_rsi_signal_defined rsi) as [rs Hrs].
  rewrite Hrs. cbn [bind].
  destruct (calculate_atr_defined highs lows closes 14 Hh Hl) as [atr Hatr].
  rewrite Hatr. cbn [bind].
  assert (Hvol : exists v,
             (if (len atr =? 0)%Z then Ok 0 else getitem atr (-1)) = Ok v).
  { destruct (len atr =? 0)%Z eqn:E; [now eexists|].
    apply len_zero_iff in E. apply (getitem_last_defined atr 1). lia. }
  destruct Hvol as [v Hv]. rewrite Hv. cbn [bind].
  match goal with
  | |- context [for_append ?f ?xs] =>
      destruct (for_append_defined f xs) as [mv [Hmv _]]
  end.
  { intros kv _. destruct (last_or_none_defined (snd kv)) as [o Ho].
    rewrite Ho. now eexists. }
  rewrite Hmv. cbn [bind].
  repeat match goal with
    | |- context [last_or_none ?l] =>
        let o := fresh "o" in
        let Ho := fresh "Ho" in
        destruct (last_or_none_defined l) as [o Ho]; rewrite Ho; cbn [bind]
    end.
  now eexists.
Qed.

(** *** The theory analyses *)

Lemma slice_from_end_nonempty {A : Type} (l : list A) (n : Z) :
  (0 < n <= len l)%Z -> slice_from l (- n) <> [].
Proof.
  intros Hn H. apply (f_equal (@length A)) in H.
  rewrite length_slice_from_end in H by exact Hn. cbn in H. lia.
Qed.

Lemma _analyze_fibonacci_defined (closes highs lows : list Q)
  (current_price : Q) :
  (20 <= length highs)%nat -> (20 <= length lows)%nat ->
  exists fib,
    _analyze_fibonacci closes highs lows current_price = Ok fib /\
    support fib
    = FibonacciAnalysis.sr_support
        (FibonacciAnalysis.find_support_resistance current_price
           (fib_high fib) (fib_low fib)) /\
    resistance fib
    = FibonacciAnalysis.sr_resistance
        (FibonacciAnalysis.find_support_resistance current_price
           (fib_high fib) (fib_low fib)).
Proof.
  intros Hh Hl. unfold _analyze_fibonacci.
  destruct (max_of_defined (slice_from highs (-20))) as [high Hhigh];
    [apply (slice_from_end_nonempty highs 20); unfold len; lia|].
  destruct (min_of_defined (slice_from lows (-20))) as [low Hlow];
    [apply (slice_from_end_nonempty lows 20); unfold len; lia|].
  rewrite Hhigh, Hlow. cbn [bind]. eexists. split; [reflexivity|].
  now split.
Qed.

Lemma extremum_step_defined (prices : list Q)
  (st : list (Z * Q) * list (Z * Q)) (i : Z) :
  (1 <= i < len prices - 1)%Z ->
  exists st', ElliottWaveAnalysis.extremum_step prices st i = Ok st'.
Proof.
  intros Hi. destruct st as [peaks troughs].
  unfold ElliottWaveAnalysis.extremum_step.
  destruct (getitem_nonneg_in_range prices i) as [p Hp]; [lia|].
  destruct (getitem_nonneg_in_range prices (i - 1)) as [b Hb]; [lia|].
  destruct (getitem_nonneg_in_range prices (i + 1)) as [a Ha]; [lia|].
  rewrite Hp, Hb, Ha. settle.
Qed.

Lemma identify_wave_pattern_defined (prices : list Q) :
  exists w, ElliottWaveAnalysis.identify_wave_pattern prices = Ok w.
Proof.
  unfold ElliottWaveAnalysis.identify_wave_pattern.
  destruct (len prices <? 8)%Z; [now eexists|].
  destruct (for_fold_invariant (fun _ => True)
              (fun i => (1 <= i < len prices - 1)%Z)
              (ElliottWaveAnalysis.extremum_step prices)
              (range 1 (len prices - 1)) ([], []))
    as [[peaks troughs] [Hst _]].
  - exact I.
  - intros i Hi. now apply in_range.
  - intros st i _ Hi.
    destruct (extremum_step_defined prices st i Hi) as [st' Hst'].
    now exists st'.
  - rewrite Hst. cbn [bind].
    destruct (2 <=? len peaks)%Z eqn:Ep; [|cbn [andb bind]; now eexists].
    destruct (2 <=? len troughs)%Z eqn:Et; [|cbn [andb bind]; now eexists].
    cbn [andb]. apply Z.leb_le in Ep, Et.
    read_back peaks 1%Z. read_back peaks 2%Z.
    read_back troughs 1%Z. read_back troughs 2%Z.
    settle.
Qed.

Lemma _analyze_elliott_defined (closes : list Q) :
  exists e, _analyze_elliott closes = Ok e.
Proof.
  unfold _analyze_elliott, ElliottWaveAnalysis.predict_next_move.
  destruct (identify_wave_pattern_defined closes) as [w Hw].
  rewrite Hw. cbn [bind]. settle.
Qed.

Lemma _analyze_chan_defined (highs lows closes : list Q) :
  exists c, _analyze_chan highs lows closes = Ok c.
Proof.
  unfold _analyze_chan.
  destruct (ChanFacts.identify_bi_alternating highs lows closes)
    as [bl [Hbl _]].
  rewrite Hbl. cbn [bind]. now eexists.
Qed.

Lemma identify_phase_defined (prices volumes : list Q) (first : Q) :
  getitem prices 0 = Ok first -> ~ first == 0 ->
  exists d, WyckoffAnalysis.identify_phase prices volumes = Ok d.
Proof.
  intros Hfirst Hnz. unfold WyckoffAnalysis.identify_phase.
  destruct (len prices <? 10)%Z eqn:Ep; [now eexists|].
  destruct (len volumes <? 10)%Z eqn:Ev; [now eexists|].
  cbn [orb]. apply Z.ltb_ge in Ep.
  read_back prices 1%Z. rewrite Hfirst. cbn [bind].
  rewrite py_div_defined by exact Hnz. cbn [bind].
  read_back prices 5%Z. settle.
Qed.

Lemma analyze_supply_demand_defined (prices volumes : list Q) :
  (5 <= length prices)%nat -> length volumes = length prices ->
  exists d,
    WyckoffAnalysis.analyze_supply_demand prices volumes = Ok d /\
    WyckoffAnalysis.trend d <> None.
Proof.
  intros Hp Hv. unfold WyckoffAnalysis.analyze_supply_demand.
  replace (len prices <? 5)%Z with false
    by (symmetry; apply Z.ltb_ge; unfold len; lia).
  assert (Hrp : length (slice_from prices (-5)) = 5%nat)
    by (apply (length_slice_from_end prices 5); unfold len; lia).
  assert (Hrv : length (slice_from volumes (-5)) = 5%nat)
    by (apply (length_slice_from_end volumes 5); unfold len; lia).
  destruct (getitem_in_bounds (slice_from prices (-5)) (-1)) as [pl Hpl];
    [unfold len; lia|].
  destruct (getitem_in_bounds (slice_from prices (-5)) 0) as [pf Hpf];
    [unfold len; lia|].
  destruct (getitem_in_bounds (slice_from volumes (-5)) (-1)) as [vl Hvl];
    [unfold len; lia|].
  rewrite Hpl, Hpf, Hvl. cbn [bind]. unfold and_then.
  repeat match goal with
    | |- context [if ?c then _ else _] => destruct c; cbn [bind]
    end;
    (eexists; split; [reflexivity | discriminate]).
Qed.

(** *** The whole analysis *)

Lemma _analyze_wyckoff_defined (closes volumes : list Q) (first : Q) :
  (5 <= length closes)%nat -> length volumes = length closes ->
  getitem closes 0 = Ok first -> ~ first == 0 ->
  exists w,
    _analyze_wyckoff closes volumes = Ok w /\
    WyckoffAnalysis.trend (supply_demand w) <> None.
Proof.
  intros Hlen Hv Hfirst Hnz. unfold _analyze_wyckoff.
  destruct (identify_phase_defined closes volumes first Hfirst Hnz)
    as [ph Hph].
  destruct (analyze_supply_demand_defined closes volumes Hlen Hv)
    as [sd [Hsd Htrend]].
  rewrite Hph, Hsd. cbn [bind]. eexists. split; [reflexivity | exact Htrend].
Qed.

Lemma _calculate_score_defined (indicators : indicators_dict) (fib : fib_dict)
  (elliott : elliott_dict) (chan : chan_dict) (wyckoff : wyckoff_dict) :
  WyckoffAnalysis.trend (supply_demand wyckoff) <> None ->
  exists s, _calculate_score indicators fib elliott chan wyckoff = Ok s.
Proof.
  intros Ht. unfold _calculate_score, raw_wyckoff_score.
  destruct (WyckoffAnalysis.trend (supply_demand wyckoff)) as [t|];
    [|congruence].
  destruct (String.eqb t "上涨"); cbn [bind]; now eexists.
Qed.

(** X25.  From thirty-five klines on, and with a first close other than
    zero, [analyze_comprehensive] returns a full analysis: no stage of the
    pipeline raises. *)
Lemma analyze_comprehensive_defined (sqrt : Q -> Q) (klines : list kline) :
  (35 <= length klines)%nat ->
  (forall k, nth_error klines 0 = Some k -> ~ close k == 0) ->
  exists a, analyze_comprehensive sqrt klines = Ok (AnalysisDict a).
Proof.
  intros Hlen Hfirst. unfold analyze_comprehensive.
  replace (len klines <? 30)%Z with false
    by (symmetry; apply Z.ltb_ge; unfold len; lia).
  set (closes := map close klines). set (highs := map high klines).
  set (lows := map low klines). set (volumes := map volume klines).
  assert (Hc : length closes = length klines) by apply length_map.
  assert (Hh : length highs = length klines) by apply length_map.
  assert (Hl : length lows = length klines) by apply length_map.
  assert (Hv : length volumes = length klines) by apply length_map.
  assert (Hc1 : (1 <= len closes)%Z) by (unfold len; lia).
  read_back closes 1%Z.
  destruct (_analyze_indicators_defined sqrt closes highs lows volumes)
    as [ind Hind]; try lia.
  rewrite Hind. cbn [bind].
  destruct (_analyze_fibonacci_defined closes highs lows x)
    as [fib [Hfib _]]; try lia.
  rewrite Hfib. cbn [bind].
  destruct (_analyze_elliott_defined closes) as [el Hel].
  rewrite Hel. cbn [bind].
  destruct (_analyze_chan_defined highs lows closes) as [ch Hch].
  rewrite Hch. cbn [bind].
  destruct klines as [|k rest]; [cbn in Hlen; lia|].
  destruct (_analyze_wyckoff_defined closes volumes (close k))
    as [wy [Hwy Htrend]]; try lia.
  { reflexivity. }
  { now apply Hfirst. }
  rewrite Hwy. cbn [bind].
  destruct (_calculate_score_defined ind fib el ch wy Htrend) as [sc Hsc].
  rewrite Hsc. cbn [bind]. now eexists.
Qed.

End TotalityFacts.

(** ** The levels of an analysed window *)

Module WindowFacts.
Import TechnicalIndicators TradingAdvisor.




(** The builtin [max] and [min] of a sequence bound its elements. *)
Lemma fold_py_max_bounds (l : list Q) (x : Q) :
  x <= fold_left py_max l x /\ Forall (fun y => y <= fold_left py_max l x) l.
Proof.
  revert x. induction l as [|y l IH]; intros x; cbn [fold_left].
  - split; [apply Qle_refl | constructor].
  - destruct (IH (py_max x y)) as [Hm Hall].
    destruct (py_max_spec x y) as [[Hlt Heq] | [Hle Heq]];
      rewrite Heq in Hm, Hall |- *.
    + split; [lra|]. constructor; assumption.
    + split; [assumption|]. constructor; [lra | assumption].
Qed.

Lemma fold_py_min_bounds (l : list Q) (x : Q) :
  fold_left py_min l x <= x /\ Forall (fun y => fold_left py_min l x <= y) l.
Proof.
  revert x. induction l as [|y l IH]; intros x; cbn [fold_left].
  - split; [apply Qle_refl | constructor].
  - destruct (IH (py_min x y)) as [Hm Hall].
    destruct (py_min_spec x y) as [[Hlt Heq] | [Hle Heq]];
      rewrite Heq in Hm, Hall |- *.
    + split; [lra|]. constructor; assumption.
    + split; [assumption|]. constructor; [lra | assumption].
Qed.

Lemma max_of_bounds (l : list Q) (m : Q) :
  max_of l = Ok m -> Forall (fun y => y <= m) l.
Proof.
  destruct l as [|x l]; [discriminate|]. cbn [max_of]. intros [= <-].
  destruct (fold_py_max_bounds l x) as [Hx Hl]. now constructor.
Qed.

Lemma min_of_bounds (l : list Q) (m : Q) :
  min_of l = Ok m -> Forall (fun y => m <= y) l.
Proof.
  destruct l as [|x l]; [discriminate|]. cbn [min_of]. intros [= <-].
  destruct (fold_py_min_bounds l x) as [Hx Hl]. now constructor.
Qed.


(** Splits [H : (x <- m ;; k) = Ok r] into [m = Ok x] and [k x = Ok r]. *)
Ltac bind_inv H x Hx :=
  match type of H with
  | bind ?m _ = Ok _ =>
      destruct m as [x|] eqn:Hx; [cbn [bind] in H | discriminate H]
  end.

Lemma for_append_inv {A B : Type} (f : A -> result B) (xs : list A)
  (ys : list B) :
  for_append f xs = Ok ys ->
  Forall (fun y => exists x, In x xs /\ f x = Ok y) ys.
Proof.
  revert ys. induction xs as [|x xs IH]; intros ys H; cbn [for_append] in H.
  - injection H as <-. constructor.
  - bind_inv H y Hy. bind_inv H ys' Hys. injection H as <-.
    constructor; [exists x; split; [now left | exact Hy]|].
    eapply Forall_impl; [|apply IH; reflexivity].
    intros z [x' [Hin Hz]]. exists x'. split; [now right | exact Hz].
Qed.


Lemma py_slice_incl {A : Type} (l : list A) (a b : Z) (x : A) :
  In x (py_slice l a b) -> In x l.
Proof.
  unfold py_slice. intros H.
  set (n := Z.to_nat (slice_bound (len l) a)) in *.
  set (k := Z.to_nat (slice_bound (len l) b - slice_bound (len l) a)) in *.
  rewrite <- (firstn_skipn n l). apply in_or_app. right.
  rewrite <- (firstn_skipn k (skipn n l)). apply in_or_app. now left.
Qed.

Lemma Qsum_nonneg (l : list Q) : Forall (fun x => 0 <= x) l -> 0 <= Qsum l.
Proof.
  induction 1 as [|x l Hx _ IH]; cbn [Qsum fold_right]; [apply Qle_refl|].
  fold (Qsum l). lra.
Qed.

Lemma np_mean_nonneg (l : list Q) : Forall (fun x => 0 <= x) l -> 0 <= np_mean l.
Proof.
  intros H. unfold np_mean, Qdiv. apply Qmult_le_0_compat.
  - now apply Qsum_nonneg.
  - apply Qinv_le_0_compat. pose proof (len_nonneg l) as Hl.
    rewrite Zle_Qle in Hl. exact Hl.
Qed.

Lemma py_max_ge_r (a b : Q) : b <= py_max a b.
Proof. destruct (py_max_spec a b) as [[H ->] | [H ->]]; lra. Qed.

(** The true range is an absolute value or more, so no ATR is negative. *)
Lemma calculate_atr_nonneg (high low close : list Q) (period : nat)
  (atr : list Q) :
  calculate_atr high low close period = Ok atr ->
  Forall (fun x => 0 <= x) atr.
Proof.
  unfold calculate_atr.
  destruct (len close <? Z.of_nat period + 1)%Z; [intros [= <-]; constructor|].
  intros H. bind_inv H tr Htr. injection H as <-.
  apply for_append_inv in Htr.
  assert (Hnn : Forall (fun x => 0 <= x) tr).
  { eapply Forall_impl; [|exact Htr]. intros y [i [_ Hy]].
    bind_inv Hy h Hh. bind_inv Hy l Hl. bind_inv Hy c Hc.
    injection Hy as <-.
    apply Qle_trans with (Qabs (l - c)); [apply Qabs_nonneg|].
    apply py_max_ge_r. }
  apply Forall_forall. intros x Hx.
  apply in_map_iff in Hx as [i [<- _]].
  apply np_mean_nonneg. apply Forall_forall. intros y Hy.
  apply py_slice_incl in Hy.
  now apply (proj1 (Forall_forall _ _) Hnn).
Qed.





(** X26.  The insufficient-data dictionary is returned for windows of fewer
    than thirty klines and for no other. *)
Lemma error_dict_iff_short (sqrt : Q -> Q) (klines : list kline) :
  (exists e, analyze_comprehensive sqrt klines = Ok (ErrorDict e)) <->
  (length klines < 30)%nat.
Proof.
  split.
  - intros [e H]. unfold analyze_comprehensive in H.
    destruct (len klines <? 30)%Z eqn:E;
      [apply Z.ltb_lt in E; unfold len in E; lia|].
    bind_inv H price Hprice. bind_inv H ind Hind. bind_inv H fib Hfib.
    bind_inv H el Hel. bind_inv H ch Hch. bind_inv H wy Hwy.
    bind_inv H sc Hsc. discriminate H.
  - intros H. eexists.
    now apply PipelineFacts.analyze_comprehensive_insufficient.
Qed.

End WindowFacts.

(** * Further properties of the indicator library *)

Lemma nth_error_range_zero (n i : nat) :
  (i < n)%nat -> nth_error (range 0 (Z.of_nat n)) i = Some (Z.of_nat i).
Proof.
  intros Hi. rewrite range_from_zero, nth_error_map.
  rewrite (nth_error_nth' (seq 0 n) 0%nat) by (rewrite length_seq; exact Hi).
  cbn [option_map]. now rewrite seq_nth.
Qed.

Lemma list_eq_by_nth_error {A : Type} (l m : list A) :
  length l = length m ->
  (forall i, (i < length l)%nat -> nth_error l i = nth_error m i) ->
  l = m.
Proof.
  revert m. induction l as [|x l IH]; intros [|y m] Hlen H; try discriminate.
  - reflexivity.
  - pose proof (H 0%nat ltac:(cbn; lia)) as H0. cbn in H0. injection H0 as <-.
    f_equal. apply IH; [cbn in Hlen; lia|].
    intros i Hi. apply (H (S i)). cbn. lia.
Qed.

(** The sum of a window lies between its bounds taken [len] times. *)
Lemma Qsum_between (lo hi : Q) (l : list Q) :
  Forall (fun x => lo <= x <= hi) l ->
  lo * inject_Z (len l) <= Qsum l <= hi * inject_Z (len l).
Proof.
  induction 1 as [|x l [Hlo Hhi] _ IH].
  - change (inject_Z (len (@nil Q))) with 0. change (Qsum []) with 0. lra.
  - assert (Hlen : inject_Z (len (x :: l)) == 1 + inject_Z (len l)).
    { unfold len. cbn [length]. rewrite Nat2Z.inj_succ, <- Z.add_1_l.
      now rewrite inject_Z_plus. }
    rewrite Hlen. cbn [Qsum fold_right]. fold (Qsum l). lra.
Qed.

Module MovingAverageProps.
Import TechnicalIndicators.

Lemma ma_series_nth (prices : list Q) (period i : nat) :
  (i < length prices)%nat ->
  nth_error (ma_series prices period) i
  = Some (if (Z.of_nat period - 1 <=? Z.of_nat i)%Z
          then Some (np_mean (py_slice prices
                                (Z.of_nat i - Z.of_nat period + 1)
                                (Z.of_nat i + 1)))
          else None).
Proof.
  intros Hi. unfold ma_series, len.
  rewrite nth_error_map, nth_error_range_zero by exact Hi. reflexivity.
Qed.

(** X1.  For a period [p] with [1 <= p <= n], the MA series of [n] prices
    has [p - 1] undefined warm-up entries followed by exactly [n - p + 1]
    defined ones, the [k]-th of which is the mean of the [p] prices starting
    at index [k]. *)
Theorem ma_series_shape (prices : list Q) (period : nat) :
  (1 <= period <= length prices)%nat ->
  ma_series prices period
  = repeat None (period - 1)
    ++ map (fun k => Some (np_mean (firstn period (skipn k prices))))
         (seq 0 (length prices - period + 1)).
Proof.
  intros Hp. apply list_eq_by_nth_error.
  - unfold ma_series, len.
    rewrite length_map, length_range, length_app, repeat_length, length_map,
      length_seq. lia.
  - intros i Hi.
    assert (Hn : (i < length prices)%nat).
    { unfold ma_series, len in Hi.
      rewrite length_map, length_range in Hi. lia. }
    rewrite ma_series_nth by exact Hn.
    destruct (Z.of_nat period - 1 <=? Z.of_nat i)%Z eqn:E;
      [apply Z.leb_le in E | apply Z.leb_gt in E].
    + rewrite nth_error_app2 by (rewrite repeat_length; lia).
      rewrite repeat_length, nth_error_map.
      rewrite (nth_error_nth' _ 0%nat) by (rewrite length_seq; lia).
      cbn [option_map]. rewrite seq_nth by lia. cbn [Nat.add].
      replace (Z.of_nat i - Z.of_nat period + 1)%Z
        with (Z.of_nat (i - (period - 1))) by lia.
      replace (Z.of_nat i + 1)%Z with (Z.of_nat (i + 1)) by lia.
      rewrite py_slice_inside by lia.
      replace (i + 1 - (i - (period - 1)))%nat with period by lia.
      reflexivity.
    + rewrite nth_error_app1 by (rewrite repeat_length; lia).
      now rewrite (nth_error_repeat None) by lia.
Qed.

Lemma ma_series_shape_witness :
  ma_series [1; 2; 3; 4] 3
  = repeat None 2
    ++ map (fun k => Some (np_mean (firstn 3 (skipn k [1; 2; 3; 4]))))
         (seq 0 2).
Proof.
  apply (ma_series_shape [1; 2; 3; 4] 3). cbn. lia.
Defined.

Lemma dict_set_fresh {V : Type} (d : list (nat * V)) (k : nat) (v : V) :
  ~ In k (map fst d) -> dict_set d k v = d ++ [(k, v)].
Proof.
  induction d as [|[k' v'] d IH]; intros Hk; [reflexivity|].
  cbn [dict_set app]. cbn [map fst In] in Hk.
  destruct (Nat.eqb_spec k k') as [-> | Hne]; [tauto|].
  rewrite IH by tauto. reflexivity.
Qed.

Lemma calculate_ma_from (prices : list Q) (rest : list nat)
  (acc : list (nat * list (option Q))) :
  NoDup rest -> (forall p, In p rest -> ~ In p (map fst acc)) ->
  fold_left
    (fun result period =>
       if (Z.of_nat period <=? len prices)%Z
       then dict_set result period (ma_series prices period)
       else result)
    rest acc
  = acc ++ map (fun p => (p, ma_series prices p))
             (filter (fun p => (p <=? length prices)%nat) rest).
Proof.
  revert acc. induction rest as [|p rest IH]; intros acc Hnd Hfresh.
  - cbn. now rewrite app_nil_r.
  - inversion Hnd as [|? ? Hp Hnd']; subst. cbn [fold_left filter].
    assert (Hsame : (Z.of_nat p <=? len prices)%Z = (p <=? length prices)%nat).
    { unfold len. destruct (Nat.leb_spec p (length prices)).
      - apply Z.leb_le. lia.
      - apply Z.leb_gt. lia. }
    rewrite Hsame. destruct (p <=? length prices)%nat.
    + rewrite dict_set_fresh by (apply Hfresh; now left).
      rewrite IH; [cbn [map]; now rewrite <- app_assoc | exact Hnd' |].
      intros q Hq. rewrite map_app, in_app_iff. cbn [map fst In].
      intros [Hin | [-> | []]]; [|contradiction].
      apply (Hfresh q); [now right | exact Hin].
    + apply IH; [exact Hnd'|]. intros q Hq. apply Hfresh. now right.
Qed.

(** X2.  For distinct periods, [calculate_ma] returns one entry per period
    that is at most the number of prices, in the order the periods were
    given, each holding the MA series of that period; a period longer than
    the input has no key. *)
Theorem calculate_ma_keys (prices : list Q) (periods : list nat) :
  NoDup periods ->
  calculate_ma prices periods
  = map (fun p => (p, ma_series prices p))
      (filter (fun p => (p <=? length prices)%nat) periods).
Proof.
  intros Hnd. unfold calculate_ma.
  rewrite calculate_ma_from; [reflexivity | exact Hnd |].
  intros p _ [].
Qed.

Lemma calculate_ma_keys_witness :
  calculate_ma (repeat 1 12%nat) [5; 10; 20; 30; 60]%nat
  = map (fun p => (p, ma_series (repeat 1 12%nat) p))
      (filter (fun p => (p <=? length (repeat (1 : Q) 12%nat))%nat)
         [5; 10; 20; 30; 60]%nat).
Proof.
  apply calculate_ma_keys. repeat constructor; cbn; lia.
Defined.

End MovingAverageProps.

Lemma Forall_py_slice {A : Type} (P : A -> Prop) (l : list A) (a b : Z) :
  Forall P l -> Forall P (py_slice l a b).
Proof.
  intros H. apply Forall_forall. intros x Hx.
  rewrite Forall_forall in H. apply H. now apply WindowFacts.py_slice_incl in Hx.
Qed.

Lemma Forall_by_nth {A : Type} (P : A -> Prop) (l : list A) (d : A) :
  (forall i, (i < length l)%nat -> P (nth i l d)) -> Forall P l.
Proof.
  intros H. apply Forall_forall. intros x Hx.
  destruct (In_nth l x d Hx) as [i [Hi <-]]. now apply H.
Qed.

Lemma last_as_nth {A : Type} (l : list A) (d : A) :
  last l d = nth (length l - 1) l d.
Proof.
  induction l as [|x [|y l] IH]; [reflexivity | reflexivity |].
  change (last (x :: y :: l) d) with (last (y :: l) d). rewrite IH.
  cbn [length].
  replace (S (S (length l)) - 1)%nat with (S (S (length l) - 1)) by lia.
  reflexivity.
Qed.

Module ExponentialAverageProps.
Import TechnicalIndicators.

(** The smoothing factor [2 / (period + 1)] is a weight. *)
Lemma multiplier_weight (period : nat) :
  (1 <= period)%nat -> 0 <= 2 / inject_Z (Z.of_nat period + 1) <= 1.
Proof.
  intros Hp.
  assert (H2 : 2 <= inject_Z (Z.of_nat period + 1)).
  { change 2 with (inject_Z 2). rewrite <- Zle_Qle. lia. }
  split.
  - apply Qle_shift_div_l; lra.
  - apply Qle_shift_div_r; lra.
Qed.

(** Each value of the EMA loop is the code's update of the one before. *)
Lemma ema_loop_step (m prev : Q) (rest : list Q) (k : nat) :
  (k < length rest)%nat ->
  nth (S k) (prev :: ema_loop m prev rest) 0
  == (nth k rest 0 - nth k (prev :: ema_loop m prev rest) 0) * m
     + nth k (prev :: ema_loop m prev rest) 0.
Proof.
  revert prev k. induction rest as [|p rest IH]; intros prev k Hk;
    [cbn in Hk; lia|].
  destruct k as [|k].
  - cbn [ema_loop nth]. apply Qred_correct.
  - cbn [length] in Hk.
    change (nth (S (S k)) (prev :: ema_loop m prev (p :: rest)) 0)
      with (nth (S k)
              (Qred ((p - prev) * m + prev)
               :: ema_loop m (Qred ((p - prev) * m + prev)) rest) 0).
    change (nth (S k) (prev :: ema_loop m prev (p :: rest)) 0)
      with (nth k
              (Qred ((p - prev) * m + prev)
               :: ema_loop m (Qred ((p - prev) * m + prev)) rest) 0).
    change (nth (S k) (p :: rest) 0) with (nth k rest 0).
    apply IH. lia.
Qed.

(** X3.  With [1 <= period <= len(prices)], [calculate_ema] yields
    [len(prices) - period + 1] values: the first is the mean of the first
    [period] prices, and each further one is
    [(price - previous) * multiplier + previous] for the next price, which
    is at or above the previous value when the price is, and at or below it
    when the price is: the average never moves away from the price. *)
Theorem calculate_ema_steps (prices : list Q) (period : nat) :
  (1 <= period <= length prices)%nat ->
  let ema := calculate_ema prices period in
  let multiplier := 2 / inject_Z (Z.of_nat period + 1) in
  length ema = (length prices - period + 1)%nat /\
  nth 0 ema 0 = np_mean (firstn period prices) /\
  forall k, (k < length prices - period)%nat ->
    let previous := nth k ema 0 in
    let price := nth (period + k) prices 0 in
    nth (S k) ema 0 == (price - previous) * multiplier + previous /\
    (previous <= price -> previous <= nth (S k) ema 0) /\
    (price <= previous -> nth (S k) ema 0 <= previous).
Proof.
  intros Hp ema multiplier.
  split; [unfold ema; rewrite MacdFacts.length_calculate_ema; lia|].
  assert (Hseed : slice_to prices (Z.of_nat period) = firstn period prices).
  { unfold slice_to. change 0%Z with (Z.of_nat 0).
    rewrite py_slice_inside by lia. now rewrite Nat.sub_0_r. }
  assert (Hrest : slice_from prices (Z.of_nat period) = skipn period prices).
  { unfold slice_from, len. rewrite py_slice_inside by lia.
    apply firstn_all2. rewrite length_skipn. lia. }
  unfold ema, calculate_ema. cbv zeta. fold multiplier.
  rewrite Hseed, Hrest.
  split; [reflexivity|].
  intros k Hk.
  set (previous :=
         nth k (np_mean (firstn period prices)
                :: ema_loop multiplier (np_mean (firstn period prices))
                     (skipn period prices)) 0).
  set (price := nth (period + k) prices 0).
  pose proof (ema_loop_step multiplier (np_mean (firstn period prices))
                (skipn period prices) k
                ltac:(rewrite length_skipn; lia)) as Hstep.
  rewrite nth_skipn in Hstep. fold price previous in Hstep.
  split; [exact Hstep|].
  pose proof (multiplier_weight period ltac:(lia)) as [Hm0 Hm1].
  fold multiplier in Hm0, Hm1.
  split; intros Hside; rewrite Hstep; nra.
Qed.

Lemma calculate_ema_steps_witness :
  let ema := calculate_ema [1; 3; 2; 5] 2 in
  let multiplier := 2 / inject_Z (Z.of_nat 2 + 1) in
  length ema = (length [1; 3; 2; 5] - 2 + 1)%nat /\
  nth 0 ema 0 = np_mean (firstn 2 [1; 3; 2; 5]) /\
  forall k, (k < length [1; 3; 2; 5] - 2)%nat ->
    let previous := nth k ema 0 in
    let price := nth (2 + k) [1; 3; 2; 5] 0 in
    nth (S k) ema 0 == (price - previous) * multiplier + previous /\
    (previous <= price -> previous <= nth (S k) ema 0) /\
    (price <= previous -> nth (S k) ema 0 <= previous).
Proof.
  apply (calculate_ema_steps [1; 3; 2; 5] 2). cbn. lia.
Defined.

(** X4.  With [fast <= slow], [signal >= 1] and at least
    [slow + signal - 1] prices, [calculate_macd] returns: DIF has
    [len(prices) - slow + 1] values, DEA and the bar series have
    [len(prices) - slow - signal + 2] each, and the last bar is twice the
    difference of the last DIF and the last DEA. *)
Theorem calculate_macd_lengths (prices : list Q) (fast slow signal : nat) :
  (fast <= slow)%nat -> (1 <= signal)%nat ->
  (slow + signal - 1 <= length prices)%nat ->
  exists m,
    calculate_macd prices fast slow signal = Ok m /\
    length (DIF m) = (length prices - slow + 1)%nat /\
    length (DEA m) = (length prices + 2 - slow - signal)%nat /\
    length (MACD m) = (length prices + 2 - slow - signal)%nat /\
    last (MACD m) 0 = (last (DIF m) 0 - last (DEA m) 0) * 2.
Proof.
  intros Hfs Hsig Hlen.
  destruct (MacdFacts.calculate_macd_total prices fast slow signal Hfs Hsig Hlen)
    as [dif [dea [macd [Heq [Hld [_ [Hdea [Hlm Hm]]]]]]]].
  assert (Hle : length dea = (length prices + 2 - slow - signal)%nat).
  { rewrite Hdea, MacdFacts.length_calculate_ema, Hld. lia. }
  exists (mk_macd dif dea macd). cbn [DIF DEA MACD].
  repeat split; [exact Heq | lia | exact Hle | lia |].
  rewrite !last_as_nth.
  rewrite Hm by lia.
  replace (length macd - 1 + (signal - 1))%nat with (length dif - 1)%nat by lia.
  now rewrite Hlm.
Qed.

Lemma calculate_macd_lengths_witness :
  exists m,
    calculate_macd (repeat 1 40%nat) 12 26 9 = Ok m /\
    length (DIF m) = (length (repeat (1 : Q) 40%nat) - 26 + 1)%nat /\
    length (DEA m) = (length (repeat (1 : Q) 40%nat) + 2 - 26 - 9)%nat /\
    length (MACD m) = (length (repeat (1 : Q) 40%nat) + 2 - 26 - 9)%nat /\
    last (MACD m) 0 = (last (DIF m) 0 - last (DEA m) 0) * 2.
Proof.
  apply (calculate_macd_lengths (repeat 1 40%nat) 12 26 9); cbn; lia.
Defined.

End ExponentialAverageProps.

(** ** Loops with a position-dependent invariant *)

Lemma for_fold_indexed {S A : Type} (P : nat -> S -> Prop)
  (step : S -> A -> result S) (xs : list A) (s : S) :
  P 0%nat s ->
  (forall k s x, nth_error xs k = Some x -> P k s ->
                 exists s', step s x = Ok s' /\ P (Datatypes.S k) s') ->
  exists s', for_fold step s xs = Ok s' /\ P (length xs) s'.
Proof.
  revert P s. induction xs as [|x xs IH]; intros P s H0 Hstep.
  - now exists s.
  - destruct (Hstep 0%nat s x eq_refl H0) as [s1 [E1 H1]].
    cbn [for_fold]. rewrite E1. cbn [bind length].
    apply (IH (fun k => P (Datatypes.S k))); [exact H1|].
    intros k s2 y Hy Hk. now apply (Hstep (Datatypes.S k)).
Qed.

Lemma nth_error_range (a b : Z) (k : nat) (x : Z) :
  nth_error (range a b) k = Some x -> x = (a + Z.of_nat k)%Z /\ (x < b)%Z.
Proof.
  unfold range. rewrite nth_error_map.
  destruct (nth_error (seq 0 (Z.to_nat (b - a))) k) as [j|] eqn:E;
    [|discriminate].
  cbn [option_map]. intros [= <-].
  assert (Hk : (k < length (seq 0 (Z.to_nat (b - a))))%nat)
    by (apply nth_error_Some; congruence).
  rewrite length_seq in Hk.
  rewrite (nth_error_nth' _ 0%nat) in E by (rewrite length_seq; exact Hk).
  rewrite seq_nth in E by exact Hk. injection E as <-. cbn. lia.
Qed.

(** The element at an index is in every slice whose bounds enclose it. *)
Lemma nth_in_py_slice {A : Type} (l : list A) (d : A) (a b : Z) (i : nat) :
  (0 <= a <= Z.of_nat i)%Z -> (Z.of_nat i < b <= len l)%Z ->
  In (nth i l d) (py_slice l a b).
Proof.
  intros Ha Hb. unfold py_slice, len in *.
  rewrite !slice_bound_inside by lia.
  apply nth_error_In with (n := (i - Z.to_nat a)%nat).
  rewrite nth_error_firstn.
  replace (i - Z.to_nat a <? Z.to_nat (b - a))%nat with true
    by (symmetry; apply Nat.ltb_lt; lia).
  rewrite nth_error_skipn.
  replace (Z.to_nat a + (i - Z.to_nat a))%nat with i by lia.
  apply nth_error_nth'. lia.
Qed.

Lemma nth_snoc_old {A : Type} (l : list A) (x d : A) (i : nat) :
  (i < length l)%nat -> nth i (l ++ [x]) d = nth i l d.
Proof. intros Hi. now apply app_nth1. Qed.

Lemma nth_snoc_new {A : Type} (l : list A) (x d : A) (k : nat) :
  length l = k -> nth k (l ++ [x]) d = x.
Proof. intros <-. rewrite app_nth2 by lia. now rewrite Nat.sub_diag. Qed.

Lemma Forall_snoc {A : Type} (P : A -> Prop) (l : list A) (x : A) :
  Forall P l -> P x -> Forall P (l ++ [x]).
Proof. intros Hl Hx. apply Forall_app. split; [exact Hl | now constructor]. Qed.

Module StochasticProps.
Import TechnicalIndicators Invariants.

(** A weighted step [(x + (m - 1) * prev) / m] stays where [x] and [prev]
    are. *)
Lemma smoothing_between (m : nat) (x prev lo hi : Q) :
  (1 <= m)%nat -> lo <= x <= hi -> lo <= prev <= hi ->
  lo <= (x + (inject_Z (Z.of_nat m) - 1) * prev) / inject_Z (Z.of_nat m) <= hi.
Proof.
  intros Hm Hx Hp.
  assert (H1 : 1 <= inject_Z (Z.of_nat m)).
  { change 1 with (inject_Z 1). rewrite <- Zle_Qle. lia. }
  set (w := inject_Z (Z.of_nat m)) in *.
  split.
  - apply Qle_shift_div_l; [lra | nra].
  - apply Qle_shift_div_r; [lra | nra].
Qed.

(** With every close inside its candle, the raw stochastic value of a bar
    is a percentage. *)
Lemma rsv_at_range (high low close : list Q) (n i : nat) :
  length high = length close -> length low = length close ->
  (forall j, (j < length close)%nat ->
             nth j low 0 <= nth j close 0 <= nth j high 0) ->
  (1 <= n)%nat -> (n - 1 <= i < length close)%nat ->
  exists rsv,
    rsv_at high low close n (Z.of_nat i) = Ok rsv /\ 0 <= rsv <= 100.
Proof.
  intros Hh Hl Hcandle Hn Hi. unfold rsv_at.
  set (a := (Z.of_nat i - Z.of_nat n + 1)%Z).
  destruct (max_of_defined (py_slice high a (Z.of_nat i + 1)))
    as [highest Hhi];
    [apply py_slice_nonempty; unfold len, a in *; lia|].
  destruct (min_of_defined (py_slice low a (Z.of_nat i + 1)))
    as [lowest Hlo];
    [apply py_slice_nonempty; unfold len, a in *; lia|].
  rewrite Hhi, Hlo. cbn [bind].
  destruct (Qeq_bool highest lowest) eqn:E; [exists 50; split; [reflexivity | lra]|].
  rewrite (getitem_in_range close 0) by lia. cbn [bind].
  apply WindowFacts.max_of_bounds in Hhi. apply WindowFacts.min_of_bounds in Hlo.
  rewrite Forall_forall in Hhi, Hlo.
  pose proof (Hhi _ (nth_in_py_slice high 0 a (Z.of_nat i + 1) i
                       ltac:(unfold a; lia) ltac:(unfold len; lia))) as Hhigh.
  pose proof (Hlo _ (nth_in_py_slice low 0 a (Z.of_nat i + 1) i
                       ltac:(unfold a; lia) ltac:(unfold len; lia))) as Hlow.
  pose proof (Hcandle i ltac:(lia)) as [Hc1 Hc2].
  apply Qeq_bool_false in E.
  assert (Hpos : 0 < highest - lowest).
  { destruct (Qlt_le_dec lowest highest) as [Hlt | Hge]; [lra|].
    exfalso. apply E. lra. }
  rewrite TotalityFacts.py_div_defined by lra.
  eexists. split; [reflexivity|].
  assert (Hq : 0 <= (nth i close 0 - lowest) / (highest - lowest) <= 1).
  { split.
    - apply Qle_shift_div_l; [exact Hpos | lra].
    - apply Qle_shift_div_r; [exact Hpos | lra]. }
  lra.
Qed.

Lemma kdj_step_invariant (high low close : list Q) (n m1 m2 i k : nat)
  (st : Q * Q * kdj_dict) :
  length high = length close -> length low = length close ->
  (forall j, (j < length close)%nat ->
             nth j low 0 <= nth j close 0 <= nth j high 0) ->
  (1 <= n)%nat -> (1 <= m1)%nat -> (1 <= m2)%nat ->
  (n - 1 <= i < length close)%nat ->
  kdj_invariant k st ->
  exists st',
    kdj_step high low close n m1 m2 st (Z.of_nat i) = Ok st' /\
    kdj_invariant (S k) st'.
Proof.
  intros Hh Hl Hcandle Hn Hm1 Hm2 Hi Hinv.
  destruct st as [[kk dd] out].
  destruct Hinv as [Hk [Hd [HlK [HlD [HlJ [HK [HD HJ]]]]]]].
  unfold kdj_step.
  destruct (rsv_at_range high low close n i Hh Hl Hcandle Hn Hi)
    as [rsv [Hrsv Hr]].
  rewrite Hrsv. cbn [bind].
  assert (Hnz : forall m, (1 <= m)%nat -> ~ inject_Z (Z.of_nat m) == 0).
  { intros m Hm H. unfold Qeq in H. cbn in H. lia. }
  rewrite TotalityFacts.py_div_defined by now apply Hnz. cbn [bind].
  rewrite TotalityFacts.py_div_defined by now apply Hnz. cbn [bind].
  eexists. split; [reflexivity|].
  pose proof (smoothing_between m1 rsv kk 0 100 Hm1 Hr Hk) as Hk'.
  pose proof (smoothing_between m2 _ dd 0 100 Hm2 Hk' Hd) as Hd'.
  unfold kdj_invariant. cbn [K D J].
  rewrite !length_app. cbn [length].
  repeat split; try (apply Hk' || apply Hd' || lia).
  - now apply Forall_snoc.
  - now apply Forall_snoc.
  - intros j Hj. destruct (Nat.eq_dec j k) as [-> | Hne].
    + now rewrite !nth_snoc_new by assumption.
    + rewrite !nth_snoc_old by lia. apply HJ. lia.
Qed.

(** X6.  For candles with [low <= close <= high] (three lists of one
    length) and periods [n, m1, m2 >= 1], [calculate_kdj] returns three
    series of [len(close) - n + 1] values (none below [n] candles); every K
    and D value is between 0 and 100, and each J value is
    [3 * K - 2 * D] of the same bar. *)
Theorem calculate_kdj_range (high low close : list Q) (n m1 m2 : nat) :
  length high = length close -> length low = length close ->
  (forall j, (j < length close)%nat ->
             nth j low 0 <= nth j close 0 <= nth j high 0) ->
  (1 <= n)%nat -> (1 <= m1)%nat -> (1 <= m2)%nat ->
  exists out,
    calculate_kdj high low close n m1 m2 = Ok out /\
    length (K out) = (length close + 1 - n)%nat /\
    length (D out) = (length close + 1 - n)%nat /\
    length (J out) = (length close + 1 - n)%nat /\
    Forall (fun x => 0 <= x <= 100) (K out) /\
    Forall (fun x => 0 <= x <= 100) (D out) /\
    (forall i, (i < length close + 1 - n)%nat ->
               nth i (J out) 0 = 3 * nth i (K out) 0 - 2 * nth i (D out) 0).
Proof.
  intros Hh Hl Hcandle Hn Hm1 Hm2. unfold calculate_kdj.
  destruct (len close <? Z.of_nat n)%Z eqn:E.
  - apply Z.ltb_lt in E. unfold len in E.
    exists (mk_kdj [] [] []). cbn [K D J length].
    replace (length close + 1 - n)%nat with 0%nat by lia.
    repeat split; try constructor. intros i Hi. lia.
  - apply Z.ltb_ge in E. unfold len in E.
    destruct (for_fold_indexed kdj_invariant
                (kdj_step high low close n m1 m2)
                (range (Z.of_nat n - 1) (len close))
                (50, 50, mk_kdj [] [] []))
      as [[[kk dd] out] [Hrun Hinv]].
    + unfold kdj_invariant. cbn [K D J length].
      repeat split; try constructor; try lra. intros i Hi. lia.
    + intros k st x Hx Hk. apply nth_error_range in Hx as [-> Hlt].
      unfold len in Hlt.
      replace (Z.of_nat n - 1 + Z.of_nat k)%Z with (Z.of_nat (n - 1 + k))
        by lia.
      apply kdj_step_invariant; try assumption. lia.
    + rewrite Hrun. cbn [bind]. exists out.
      rewrite length_range in Hinv. unfold len in Hinv.
      replace (Z.to_nat (Z.of_nat (length close) - (Z.of_nat n - 1)))
        with (length close + 1 - n)%nat in Hinv by lia.
      destruct Hinv as [_ [_ [HlK [HlD [HlJ [HK [HD HJ]]]]]]].
      repeat split; assumption.
Qed.

Lemma calculate_kdj_range_witness :
  exists out,
    calculate_kdj [3; 4; 6] [1; 2; 3] [2; 3; 5] 2 3 3 = Ok out /\
    length (K out) = (length [2; 3; 5] + 1 - 2)%nat /\
    length (D out) = (length [2; 3; 5] + 1 - 2)%nat /\
    length (J out) = (length [2; 3; 5] + 1 - 2)%nat /\
    Forall (fun x => 0 <= x <= 100) (K out) /\
    Forall (fun x => 0 <= x <= 100) (D out) /\
    (forall i, (i < length [2; 3; 5] + 1 - 2)%nat ->
               nth i (J out) 0 = 3 * nth i (K out) 0 - 2 * nth i (D out) 0).
Proof.
  apply (calculate_kdj_range [3; 4; 6] [1; 2; 3] [2; 3; 5] 2 3 3);
    try reflexivity; try lia.
  intros [|[|[|j]]] Hj; cbn in Hj |- *; try lia; split; discriminate.
Defined.

End StochasticProps.

Lemma nth_map_range {B : Type} (f : Z -> B) (a b : Z) (i : nat) (d : B) :
  (Z.of_nat i < b - a)%Z -> nth i (map f (range a b)) d = f (a + Z.of_nat i)%Z.
Proof.
  intros Hi. unfold range. rewrite map_map.
  rewrite (nth_indep _ d (f (a + Z.of_nat 0)%Z))
    by (rewrite length_map, length_seq; lia).
  rewrite (map_nth (fun k => f (a + Z.of_nat k)%Z)).
  rewrite seq_nth by lia. reflexivity.
Qed.

(** A loop over subscripts that can only fail with [e], and does fail at
    some index, raises [e]. *)
Lemma for_append_raises {A B : Type} (f : A -> result B) (xs : list A)
  (e : exn) :
  (forall x, In x xs -> (exists y, f x = Ok y) \/ f x = Raise e) ->
  (exists x, In x xs /\ f x = Raise e) ->
  for_append f xs = Raise e.
Proof.
  induction xs as [|x xs IH]; intros Hall [z [Hz Hraise]]; [destruct Hz|].
  cbn [for_append].
  destruct (Hall x (or_introl eq_refl)) as [[y Hy] | Hx]; [|now rewrite Hx].
  rewrite Hy. cbn [bind].
  destruct Hz as [-> | Hz]; [congruence|].
  rewrite IH; [reflexivity | intros w Hw; apply Hall; now right |].
  exists z. now split.
Qed.

Lemma in_range_iff (a b i : Z) : In i (range a b) <-> (a <= i < b)%Z.
Proof.
  split; [apply in_range|]. intros Hi. unfold range.
  apply in_map_iff. exists (Z.to_nat (i - a)). split; [lia|].
  apply in_seq. lia.
Qed.

Module BollingerProps.
Import TechnicalIndicators.

(** X7.  With [period >= 1], a non-negative multiplier and a square root
    that is never negative, [calculate_boll] yields three series of
    [len(prices) - period + 1] values (none below [period] prices); at each
    bar the middle band is the mean of the last [period] prices, the upper
    and lower bands are that mean plus and minus the multiplier times the
    standard deviation of the same window, and the lower band is at or below
    the middle one, the upper band at or above it. *)
Theorem calculate_boll_bands (sqrt : Q -> Q) (prices : list Q) (period : nat)
  (std_dev : Q) :
  (1 <= period)%nat -> (forall x, 0 <= sqrt x) -> 0 <= std_dev ->
  let boll := calculate_boll sqrt prices period std_dev in
  length (UPPER boll) = (length prices + 1 - period)%nat /\
  length (MIDDLE boll) = (length prices + 1 - period)%nat /\
  length (LOWER boll) = (length prices + 1 - period)%nat /\
  forall i, (i < length prices + 1 - period)%nat ->
    let window := firstn period (skipn i prices) in
    nth i (MIDDLE boll) 0 = np_mean window /\
    nth i (UPPER boll) 0 = np_mean window + std_dev * np_std sqrt window /\
    nth i (LOWER boll) 0 = np_mean window - std_dev * np_std sqrt window /\
    nth i (LOWER boll) 0 <= nth i (MIDDLE boll) 0 <= nth i (UPPER boll) 0.
Proof.
  intros Hp Hsqrt Hk boll. unfold boll, calculate_boll.
  destruct (len prices <? Z.of_nat period)%Z eqn:E.
  - apply Z.ltb_lt in E. unfold len in E. cbn [UPPER MIDDLE LOWER length].
    repeat split; try lia; intros; lia.
  - apply Z.ltb_ge in E. unfold len in E. cbn [UPPER MIDDLE LOWER].
    rewrite !length_map, length_range. unfold len.
    split; [lia|]. split; [lia|]. split; [lia|].
    intros i Hi. set (window := firstn period (skipn i prices)).
    assert (Hwin : py_slice prices
                     (Z.of_nat period - 1 + Z.of_nat i - Z.of_nat period + 1)
                     (Z.of_nat period - 1 + Z.of_nat i + 1) = window).
    { replace (Z.of_nat period - 1 + Z.of_nat i - Z.of_nat period + 1)%Z
        with (Z.of_nat i) by lia.
      replace (Z.of_nat period - 1 + Z.of_nat i + 1)%Z
        with (Z.of_nat (i + period)) by lia.
      rewrite py_slice_inside by lia.
      now replace (i + period - i)%nat with period by lia. }
    rewrite !map_map, !nth_map_range by lia. cbn [fst snd]. rewrite Hwin.
    split; [reflexivity|]. split; [reflexivity|]. split; [reflexivity|].
    unfold np_std.
    match goal with |- context [sqrt ?x] => pose proof (Hsqrt x) as Hs end.
    split; nra.
Qed.

Lemma calculate_boll_bands_witness :
  let boll := calculate_boll Qabs [1; 2; 4; 3] 2 2 in
  length (UPPER boll) = (length [1; 2; 4; 3] + 1 - 2)%nat /\
  length (MIDDLE boll) = (length [1; 2; 4; 3] + 1 - 2)%nat /\
  length (LOWER boll) = (length [1; 2; 4; 3] + 1 - 2)%nat /\
  forall i, (i < length [1; 2; 4; 3] + 1 - 2)%nat ->
    let window := firstn 2 (skipn i [1; 2; 4; 3]) in
    nth i (MIDDLE boll) 0 = np_mean window /\
    nth i (UPPER boll) 0 = np_mean window + 2 * np_std Qabs window /\
    nth i (LOWER boll) 0 = np_mean window - 2 * np_std Qabs window /\
    nth i (LOWER boll) 0 <= nth i (MIDDLE boll) 0 <= nth i (UPPER boll) 0.
Proof.
  apply (calculate_boll_bands Qabs [1; 2; 4; 3] 2 2);
    [lia | apply Qabs_nonneg | discriminate].
Defined.

End BollingerProps.

Module RsiProps.
Import TechnicalIndicators.

Lemma rsi_value_range (avg_gain avg_loss : Q) :
  0 <= avg_gain -> 0 <= avg_loss -> 0 <= rsi_value avg_gain avg_loss <= 100.
Proof.
  intros Hg Hl. unfold rsi_value.
  destruct (Qeq_bool avg_loss 0) eqn:E; [lra|].
  apply Qeq_bool_false in E.
  assert (Hpos : 0 < avg_loss).
  { destruct (Qlt_le_dec 0 avg_loss) as [H | H]; [exact H|].
    exfalso. apply E. lra. }
  cbv zeta.
  assert (Hrs : 0 <= avg_gain / avg_loss)
    by (apply Qle_shift_div_l; [exact Hpos | lra]).
  set (rs := avg_gain / avg_loss) in *.
  assert (Hq : 0 <= 100 / (1 + rs) <= 100).
  { split.
    - apply Qle_shift_div_l; lra.
    - apply Qle_shift_div_r; nra. }
  lra.
Qed.

(** The price changes the RSI loop collects. *)
Lemma rsi_changes (prices : list Q) :
  for_append
    (fun i =>
       p <- getitem prices i ;;
       q <- getitem prices (i - 1) ;;
       Ok (p - q))
    (range 1 (len prices))
  = Ok (map (fun i => nth (Z.to_nat i) prices 0 - nth (Z.to_nat (i - 1)) prices 0)
          (range 1 (len prices))).
Proof.
  apply for_append_total. intros i Hi. apply in_range in Hi. unfold len in Hi.
  replace i with (Z.of_nat (Z.to_nat i)) at 1 by lia.
  rewrite (getitem_in_range prices 0) by lia. cbn [bind].
  replace (i - 1)%Z with (Z.of_nat (Z.to_nat (i - 1))) at 1 by lia.
  rewrite (getitem_in_range prices 0) by lia. reflexivity.
Qed.

(** X8.  With [period >= 1], [calculate_rsi] never raises; it yields
    [len(prices) - period] values (none up to [period] prices), each between
    0 and 100. *)
Theorem calculate_rsi_range (prices : list Q) (period : nat) :
  (1 <= period)%nat ->
  exists rsi,
    calculate_rsi prices period = Ok rsi /\
    length rsi = (length prices - period)%nat /\
    Forall (fun r => 0 <= r <= 100) rsi.
Proof.
  intros Hp. unfold calculate_rsi.
  destruct (len prices <? Z.of_nat period + 1)%Z eqn:E.
  - apply Z.ltb_lt in E. unfold len in E. exists [].
    repeat split; [cbn; lia | constructor].
  - apply Z.ltb_ge in E. unfold len in E.
    rewrite rsi_changes. cbn [bind]. eexists. split; [reflexivity|]. split.
    + rewrite length_map, length_range. unfold len.
      rewrite !length_map, length_range. unfold len. lia.
    + apply Forall_forall. intros r Hr.
      apply in_map_iff in Hr as [i [<- _]].
      apply rsi_value_range; apply WindowFacts.np_mean_nonneg;
        apply Forall_py_slice; apply Forall_forall; intros x Hx;
        apply in_map_iff in Hx as [c [<- _]].
      * apply WindowFacts.py_max_ge_r.
      * apply Qabs_nonneg.
Qed.

Lemma calculate_rsi_range_witness :
  exists rsi,
    calculate_rsi [1; 3; 2; 5] 2 = Ok rsi /\
    length rsi = (length [1; 3; 2; 5] - 2)%nat /\
    Forall (fun r => 0 <= r <= 100) rsi.
Proof. apply (calculate_rsi_range [1; 3; 2; 5] 2). lia. Defined.

Lemma np_mean_zero (l : list Q) : Forall (fun x => x == 0) l -> np_mean l == 0.
Proof.
  intros H.
  assert (Hb : Forall (fun x => 0 <= x <= 0) l)
    by (eapply Forall_impl; [|exact H]; cbn; intros x Hx; lra).
  apply Qsum_between in Hb. unfold np_mean, Qdiv.
  assert (Hs : Qsum l == 0) by lra.
  rewrite Hs. ring.
Qed.

(** X9.  With [period >= 1], when no price is below the one before it (a
    flat series included), every loss is zero, so the average loss of every
    window is zero and every RSI value is exactly 100. *)
Theorem calculate_rsi_never_falling (prices : list Q) (period : nat) :
  (1 <= period)%nat ->
  (forall i, (S i < length prices)%nat ->
             nth i prices 0 <= nth (S i) prices 0) ->
  exists rsi,
    calculate_rsi prices period = Ok rsi /\
    length rsi = (length prices - period)%nat /\
    Forall (fun r => r = 100) rsi.
Proof.
  intros Hp Hup. unfold calculate_rsi.
  destruct (len prices <? Z.of_nat period + 1)%Z eqn:E.
  { apply Z.ltb_lt in E. unfold len in E. exists [].
    repeat split; [cbn; lia | constructor]. }
  apply Z.ltb_ge in E. unfold len in E.
  rewrite rsi_changes. cbn [bind]. eexists. split; [reflexivity|]. split.
  { rewrite length_map, length_range. unfold len.
    rewrite !length_map, length_range. unfold len. lia. }
  apply Forall_forall. intros r Hr. apply in_map_iff in Hr as [i [<- _]].
  apply DegenerateFacts.rsi_value_no_losses. apply np_mean_zero.
  apply Forall_py_slice. apply Forall_forall. intros x Hx.
  apply in_map_iff in Hx as [c [<- Hc]].
  apply in_map_iff in Hc as [j [<- Hj]]. apply in_range in Hj.
  unfold len in Hj.
  pose proof (Hup (Z.to_nat (j - 1)) ltac:(lia)) as Hstep.
  replace (S (Z.to_nat (j - 1))) with (Z.to_nat j) in Hstep by lia.
  set (p := nth (Z.to_nat j) prices 0) in *.
  set (q := nth (Z.to_nat (j - 1)) prices 0) in *.
  unfold py_min. destruct (Qltb 0 (p - q)) eqn:E0; [reflexivity|].
  apply Qltb_ge in E0. apply Qabs_case; intros; lra.
Qed.

Lemma calculate_rsi_never_falling_witness :
  exists rsi,
    calculate_rsi (repeat 5 20%nat) 14 = Ok rsi /\
    length rsi = (length (repeat (5 : Q) 20%nat) - 14)%nat /\
    Forall (fun r => r = 100) rsi.
Proof.
  apply (calculate_rsi_never_falling (repeat 5 20%nat) 14); [lia|].
  intros i Hi. rewrite repeat_length in Hi.
  rewrite !(nth_indep _ 0 5) by (rewrite repeat_length; lia).
  rewrite !nth_repeat. apply Qle_refl.
Defined.

End RsiProps.

Module AtrProps.
Import TechnicalIndicators.

(** The true ranges the ATR loop collects. *)
Lemma atr_true_ranges (high low close : list Q) :
  length high = length close -> length low = length close ->
  for_append
    (fun i =>
       h <- getitem high i ;;
       l <- getitem low i ;;
       let tr1 := h - l in
       c <- getitem close (i - 1) ;;
       let tr2 := Qabs (h - c) in
       let tr3 := Qabs (l - c) in
       Ok (py_max (py_max tr1 tr2) tr3))
    (range 1 (len close))
  = Ok (map (fun i =>
               let h := nth (Z.to_nat i) high 0 in
               let l := nth (Z.to_nat i) low 0 in
               let c := nth (Z.to_nat (i - 1)) close 0 in
               py_max (py_max (h - l) (Qabs (h - c))) (Qabs (l - c)))
          (range 1 (len close))).
Proof.
  intros Hh Hl. apply for_append_total. intros i Hi.
  apply in_range in Hi. unfold len in Hi.
  assert (Hread : forall (l : list Q) (j : Z),
             (0 <= j < Z.of_nat (length l))%Z ->
             getitem l j = Ok (nth (Z.to_nat j) l 0)).
  { intros l j Hj. rewrite <- (Z2Nat.id j) at 1 by lia.
    apply getitem_in_range. lia. }
  rewrite (Hread high i), (Hread low i) by lia. cbn [bind].
  rewrite (Hread close (i - 1)%Z) by lia. reflexivity.
Qed.

(** X10.  For three lists of one length and [period >= 1],
    [calculate_atr] returns [len(close) - period] values (none up to
    [period] candles), and no value is negative, whatever the order of high,
    low and close. *)
Theorem calculate_atr_shape (high low close : list Q) (period : nat) :
  length high = length close -> length low = length close ->
  (1 <= period)%nat ->
  exists atr,
    calculate_atr high low close period = Ok atr /\
    length atr = (length close - period)%nat /\
    Forall (fun x => 0 <= x) atr.
Proof.
  intros Hh Hl Hp.
  assert (Hrun : exists atr,
             calculate_atr high low close period = Ok atr /\
             length atr = (length close - period)%nat).
  { unfold calculate_atr.
    destruct (len close <? Z.of_nat period + 1)%Z eqn:E.
    - apply Z.ltb_lt in E. unfold len in E. exists []. split; [reflexivity|].
      cbn. lia.
    - apply Z.ltb_ge in E. unfold len in E.
      pose proof (atr_true_ranges high low close Hh Hl) as Htr.
      cbv zeta in Htr. rewrite Htr. cbn [bind].
      eexists. split; [reflexivity|].
      rewrite length_map, length_range. unfold len.
      rewrite length_map, length_range. unfold len. lia. }
  destruct Hrun as [atr [Hatr Hlen]]. exists atr.
  repeat split; [exact Hatr | exact Hlen |].
  now apply (WindowFacts.calculate_atr_nonneg high low close period).
Qed.

Lemma calculate_atr_shape_witness :
  exists atr,
    calculate_atr [3; 4; 6; 5] [1; 2; 3; 4] [2; 3; 5; 4] 2 = Ok atr /\
    length atr = (length [2; 3; 5; 4] - 2)%nat /\
    Forall (fun x => 0 <= x) atr.
Proof.
  apply (calculate_atr_shape [3; 4; 6; 5] [1; 2; 3; 4] [2; 3; 5; 4] 2);
    [reflexivity | reflexivity | lia].
Defined.

(** X11.  [calculate_atr] takes the number of candles from [close]: when
    [high] or [low] is shorter and there are more than [period >= 1]
    closes, the true-range loop reads past the end of the shorter list and
    the call raises [IndexError]. *)
Theorem calculate_atr_ragged_raises (high low close : list Q) (period : nat) :
  (length high < length close)%nat \/ (length low < length close)%nat ->
  (1 <= period)%nat -> (period < length close)%nat ->
  calculate_atr high low close period = Raise IndexError.
Proof.
  intros Hshort Hp Hlen. unfold calculate_atr.
  replace (len close <? Z.of_nat period + 1)%Z with false
    by (symmetry; apply Z.ltb_ge; unfold len; lia).
  rewrite (for_append_raises _ _ IndexError); [reflexivity | |].
  - intros i Hi. apply in_range in Hi.
    destruct (getitem high i) as [h|e] eqn:Eh;
      [|right; apply DegenerateFacts.getitem_raises in Eh; now subst].
    destruct (getitem low i) as [l|e] eqn:El;
      [|right; apply DegenerateFacts.getitem_raises in El; now subst].
    destruct (getitem_nonneg_in_range close (i - 1)) as [c Hc]; [lia|].
    left. cbn [bind]. rewrite Hc. now eexists.
  - set (i := Z.of_nat (Nat.max 1 (Nat.min (length high) (length low)))).
    exists i. split; [apply in_range_iff; unfold len, i; lia|].
    destruct (Nat.le_gt_cases (length high) (length low)) as [Hle | Hgt].
    + rewrite (getitem_past_end high i) by (unfold len, i; lia). reflexivity.
    + destruct (getitem high i) as [h|e] eqn:Eh;
        [|apply DegenerateFacts.getitem_raises in Eh; now subst].
      cbn [bind].
      rewrite (getitem_past_end low i) by (unfold len, i; lia). reflexivity.
Qed.

Lemma calculate_atr_ragged_raises_witness :
  calculate_atr [3; 4] [1; 2; 3] [2; 3; 5] 2 = Raise IndexError.
Proof.
  apply (calculate_atr_ragged_raises [3; 4] [1; 2; 3] [2; 3; 5] 2); cbn; lia.
Defined.

End AtrProps.

(** * Further properties of the theory analyses *)



Module FibonacciProps.
Import FibonacciAnalysis.




(** X13.  The extension prices of [calculate_extension] are the five
    ratios applied to the move [end - start] and added to the retrace point:
    for an upward move ([start <= end]) they ascend with the ratio and none
    is below [retrace + (end - start)]; for a downward move they descend and
    none is above it. *)
Theorem calculate_extension_ordered (start end_ retrace : Q) :
  let prices := map snd (calculate_extension start end_ retrace) in
  map fst (calculate_extension start end_ retrace) = EXTENSION_LEVELS /\
  (start <= end_ ->
   Spec.non_decreasing prices = true /\
   Forall (fun p => retrace + (end_ - start) <= p) prices) /\
  (end_ <= start ->
   Spec.non_increasing prices = true /\
   Forall (fun p => p <= retrace + (end_ - start)) prices).
Proof.
  unfold calculate_extension, EXTENSION_LEVELS. cbn [map fst snd].
  split; [reflexivity|].
  split; intros H; split.
  - unfold Spec.non_decreasing. cbn [Spec.ordered_by].
    rewrite !andb_true_iff, !negb_true_iff, !Qltb_ge. repeat split; lra.
  - repeat constructor; lra.
  - unfold Spec.non_increasing. cbn [Spec.ordered_by].
    rewrite !andb_true_iff, !negb_true_iff, !Qgtb_le. repeat split; lra.
  - repeat constructor; lra.
Qed.

End FibonacciProps.

Lemma getitem_nth (l : list Q) (j : Z) :
  (0 <= j < len l)%Z -> getitem l j = Ok (nth (Z.to_nat j) l 0).
Proof.
  intros Hj. unfold len in Hj. rewrite <- (Z2Nat.id j) at 1 by lia.
  apply getitem_in_range. lia.
Qed.

Module ElliottProps.
Import ElliottWaveAnalysis WindowFacts.

Open Scope string_scope.

(** The five [(pattern, phase)] pairs [identify_wave_pattern] can return. *)
Lemma wave_pattern_cases (prices : list Q) (w : wave_info) :
  identify_wave_pattern prices = Ok w ->
  (pattern w, phase w) = ("数据不足", "未知") \/
  (pattern w, phase w) = ("上升趋势", "推动浪") \/
  (pattern w, phase w) = ("下降趋势", "调整浪") \/
  (pattern w, phase w) = ("震荡", "盘整") \/
  (pattern w, phase w) = ("不确定", "观察中").
Proof.
  intros H. unfold identify_wave_pattern in H.
  destruct (len prices <? 8)%Z; [injection H as <-; now left|].
  bind_inv H st Hst. destruct st as [pk tr].
  bind_inv H tp Htp. destruct tp as [t p]. injection H as <-.
  cbn [pattern phase].
  destruct ((2 <=? len pk)%Z && (2 <=? len tr)%Z);
    [|injection Htp as <- <-; tauto].
  bind_inv Htp p1 Hp1. bind_inv Htp p2 Hp2. bind_inv Htp rising Hr.
  destruct rising; [injection Htp as <- <-; tauto|].
  bind_inv Htp falling Hf.
  destruct falling; injection Htp as <- <-; tauto.
Qed.

(** X14.  [predict_next_move] always returns, with one of three outcomes:
    a rise with confidence 0.7 on an upward pattern, a rebound with
    confidence 0.6 on a downward pattern, and a sideways market with
    confidence 0.5 otherwise.  The two remaining branches of the code (a
    pullback on an upward pattern, a further fall on a downward pattern) are
    never taken, because [identify_wave_pattern] pairs every upward pattern
    with the impulse phase and every downward pattern with the corrective
    phase. *)
Theorem predict_next_move_outcomes (prices : list Q) :
  exists p,
    predict_next_move prices = Ok p /\
    ((pattern (pred_wave_info p) = "上升趋势" /\
      prediction p = "继续上涨概率高" /\ confidence p = 7 # 10) \/
     (pattern (pred_wave_info p) = "下降趋势" /\
      prediction p = "可能反弹" /\ confidence p = 6 # 10) \/
     (pattern (pred_wave_info p) <> "上升趋势" /\
      pattern (pred_wave_info p) <> "下降趋势" /\
      prediction p = "震荡为主，等待突破" /\ confidence p = 5 # 10)).
Proof.
  destruct (TotalityFacts.identify_wave_pattern_defined prices) as [w Hw].
  unfold predict_next_move. rewrite Hw. cbn [bind].
  apply wave_pattern_cases in Hw.
  destruct w as [pat ph pk tr]. cbn [pattern phase] in Hw |- *.
  destruct Hw as [Hw | [Hw | [Hw | [Hw | Hw]]]]; injection Hw as -> ->;
    (eexists; split; [reflexivity|]);
    cbn [pred_wave_info prediction confidence pattern];
    [right; right | left | right; left | right; right | right; right];
    repeat split; discriminate.
Qed.

(** On a monotone series no bar is a peak or a trough. *)
Lemma extremum_step_monotone (prices : list Q) (i : Z) :
  (forall i, (S i < length prices)%nat ->
             nth i prices 0 <= nth (S i) prices 0) \/
  (forall i, (S i < length prices)%nat ->
             nth (S i) prices 0 <= nth i prices 0) ->
  (1 <= i < len prices - 1)%Z ->
  extremum_step prices ([], []) i = Ok ([], []).
Proof.
  intros Hmono Hi. unfold extremum_step.
  rewrite !getitem_nth by lia. cbn [bind]. unfold len in Hi.
  set (p := nth (Z.to_nat i) prices 0).
  set (b := nth (Z.to_nat (i - 1)) prices 0).
  set (a := nth (Z.to_nat (i + 1)) prices 0).
  assert (Hord : (b <= p /\ p <= a) \/ (p <= b /\ a <= p)).
  { destruct Hmono as [Hup | Hdown]; [left | right].
    - pose proof (Hup (Z.to_nat (i - 1)) ltac:(lia)) as H1.
      pose proof (Hup (Z.to_nat i) ltac:(lia)) as H2.
      replace (S (Z.to_nat (i - 1))) with (Z.to_nat i) in H1 by lia.
      replace (S (Z.to_nat i)) with (Z.to_nat (i + 1)) in H2 by lia.
      now split.
    - pose proof (Hdown (Z.to_nat (i - 1)) ltac:(lia)) as H1.
      pose proof (Hdown (Z.to_nat i) ltac:(lia)) as H2.
      replace (S (Z.to_nat (i - 1))) with (Z.to_nat i) in H1 by lia.
      replace (S (Z.to_nat i)) with (Z.to_nat (i + 1)) in H2 by lia.
      now split. }
  unfold and_then.
  destruct (Qgtb p b) eqn:E1, (Qgtb p a) eqn:E2, (Qltb p b) eqn:E3,
           (Qltb p a) eqn:E4; cbn [bind]; try reflexivity; exfalso;
    try apply Qgtb_gt in E1; try apply Qgtb_gt in E2;
    try apply Qltb_lt in E3; try apply Qltb_lt in E4;
    try apply Qgtb_le in E1; try apply Qgtb_le in E2;
    try apply Qltb_ge in E3; try apply Qltb_ge in E4;
    destruct Hord as [[H1 H2] | [H1 H2]]; lra.
Qed.

(** X15.  On a series of at least eight prices that never falls, or never
    rises, no bar is a local peak or trough: the wave pattern is the
    undetermined one with no peaks and no troughs, and the prediction is a
    sideways market with confidence 0.5, however steep the trend. *)
Theorem predict_next_move_monotone (prices : list Q) :
  (8 <= length prices)%nat ->
  (forall i, (S i < length prices)%nat ->
             nth i prices 0 <= nth (S i) prices 0) \/
  (forall i, (S i < length prices)%nat ->
             nth (S i) prices 0 <= nth i prices 0) ->
  predict_next_move prices
  = Ok (mk_prediction "震荡为主，等待突破" (5 # 10)
          (mk_wave "不确定" "观察中" (Some 0%Z) (Some 0%Z))).
Proof.
  intros Hlen Hmono.
  assert (Hscan : for_fold (extremum_step prices) ([], [])
                    (range 1 (len prices - 1)) = Ok ([], [])).
  { destruct (for_fold_invariant
                (fun st : list (Z * Q) * list (Z * Q) => st = ([], []))
                (fun i => (1 <= i < len prices - 1)%Z)
                (extremum_step prices) (range 1 (len prices - 1)) ([], []))
      as [st [Hst ->]].
    - reflexivity.
    - intros i Hi. now apply in_range.
    - intros st i -> Hi. exists ([], []).
      split; [now apply extremum_step_monotone | reflexivity].
    - exact Hst. }
  unfold predict_next_move, identify_wave_pattern.
  replace (len prices <? 8)%Z with false
    by (symmetry; apply Z.ltb_ge; unfold len; lia).
  rewrite Hscan. reflexivity.
Qed.

Lemma predict_next_move_monotone_witness :
  predict_next_move [1; 2; 4; 8; 16; 32; 64; 128]
  = Ok (mk_prediction "震荡为主，等待突破" (5 # 10)
          (mk_wave "不确定" "观察中" (Some 0%Z) (Some 0%Z))).
Proof.
  apply (predict_next_move_monotone [1; 2; 4; 8; 16; 32; 64; 128]);
    [cbn; lia|].
  left. intros i Hi. cbn in Hi.
  do 7 (destruct i as [|i]; [cbn; discriminate|]). lia.
Defined.

End ElliottProps.

Module ChanProps.
Import ChanTheoryAnalysis Spec Invariants.

Lemma chained_snoc (l : list bi) (b : bi) :
  chained l ->
  (forall b0, last_segment l = Some b0 ->
              end_ b0 = start b /\ end_price b0 = start_price b) ->
  chained (l ++ [b]).
Proof.
  induction l as [|b1 l IH]; intros Hc Hl; [cbn; auto|].
  destruct l as [|b2 l].
  - cbn. split; [apply Hl; reflexivity | split; exact I].
  - destruct Hc as [H12 Hc]. cbn [app chained] in IH |- *.
    split; [exact H12|]. apply IH; [exact Hc | exact Hl].
Qed.

Lemma hd_error_snoc (l : list bi) (b b' : bi) :
  hd_error (l ++ [b]) = Some b' ->
  (l = [] /\ b' = b) \/ hd_error l = Some b'.
Proof.
  destruct l as [|x l]; cbn; intros [= <-]; [left | right]; auto.
Qed.

(** Closing the open segment at bar [i - 1] and opening the next one there
    keeps the geometry. *)
Lemma geometry_turn (close : list Q) (i : Z) (st : bi_state)
  (t : bi_type) :
  geometry_invariant close i st -> (1 <= i < len close)%Z ->
  direction st = Some t ->
  match t with
  | up => nth (Z.to_nat i) close 0 < nth (Z.to_nat (i - 1)) close 0
  | down => nth (Z.to_nat (i - 1)) close 0 < nth (Z.to_nat i) close 0
  end ->
  geometry_invariant close (i + 1)
    (mk_bi_state
       (bi_list st
        ++ [mk_bi t (start_idx st) (i - 1) (cur_start_price st)
              (nth (Z.to_nat (i - 1)) close 0)])
       (Some (opposite t)) (i - 1) (nth (Z.to_nat (i - 1)) close 0)).
Proof.
  intros [Hfit [Hch [H0 [Hsp [Hlast [Hnil [Hhd Hdir]]]]]]] Hi Ht Hturn.
  rewrite Ht in Hdir.
  assert (Hopen : (start_idx st < i - 1)%Z) by (destruct t; apply Hdir).
  unfold geometry_invariant.
  cbn [bi_list direction start_idx cur_start_price].
  replace (i + 1 - 1)%Z with i by lia.
  split; [|split; [|split; [|split; [|split; [|split; [|split]]]]]].
  - apply Forall_snoc; [exact Hfit|].
    unfold bi_fits. cbn [start end_ start_price end_price type].
    split; [lia|]. split; [lia|]. split; [exact Hsp|].
    split; [apply getitem_nth; lia|].
    destruct t; apply Hdir.
  - apply chained_snoc; [exact Hch|]. intros b0 Hb0. now apply Hlast.
  - lia.
  - apply getitem_nth. lia.
  - intros b Hb. rewrite ChanFacts.last_segment_snoc in Hb.
    injection Hb as <-. now split.
  - intros H. now destruct (bi_list st).
  - intros b Hb. apply hd_error_snoc in Hb as [[Hl ->] | Hb].
    + cbn [start]. now apply Hnil.
    + now apply Hhd.
  - destruct t; cbn [opposite]; (split; [lia | exact Hturn]).
Qed.

(** One pass of the scan keeps the geometry. *)
Lemma bi_step_geometry (close : list Q) (st : bi_state) (i : Z) :
  geometry_invariant close i st -> (1 <= i < len close)%Z ->
  exists st', bi_step close st i = Ok st' /\
              geometry_invariant close (i + 1) st'.
Proof.
  intros Hinv Hi.
  pose proof Hinv as [Hfit [Hch [H0 [Hsp [Hlast [Hnil [Hhd Hdir]]]]]]].
  unfold bi_step.
  rewrite !(getitem_nth close i), !(getitem_nth close (i - 1)) by lia.
  set (c := nth (Z.to_nat i) close 0) in *.
  set (p := nth (Z.to_nat (i - 1)) close 0) in *.
  assert (Hkeep : forall side : Prop,
            match direction st with
            | None => bi_list st = [] /\ c == cur_start_price st
            | Some up => (start_idx st < i)%Z /\ cur_start_price st < c
            | Some down => (start_idx st < i)%Z /\ c < cur_start_price st
            end ->
            geometry_invariant close (i + 1) st).
  { intros _ H. unfold geometry_invariant.
    replace (i + 1 - 1)%Z with i by lia. fold c.
    repeat (split; [assumption|]).
    destruct (direction st) as [[|]|]; exact H. }
  destruct (direction st) as [[|]|] eqn:Ed; cbn [bind].
  - destruct (Qltb c p) eqn:E.
    + eexists. split; [reflexivity|].
      apply (geometry_turn close i st up Hinv Hi Ed).
      now apply Qltb_lt in E.
    + exists st. split; [reflexivity|]. apply (Hkeep True).
      apply Qltb_ge in E. destruct Hdir as [H1 H2]. split; [lia | lra].
  - destruct (Qgtb c p) eqn:E.
    + eexists. split; [reflexivity|].
      apply (geometry_turn close i st down Hinv Hi Ed).
      now apply Qgtb_gt in E.
    + exists st. split; [reflexivity|]. apply (Hkeep True).
      apply Qgtb_le in E. destruct Hdir as [H1 H2]. split; [lia | lra].
  - destruct Hdir as [Hempty Hflat].
    pose proof (Hnil Hempty) as Hstart.
    destruct (Qgtb c p) eqn:E1.
    + eexists. split; [reflexivity|]. apply Qgtb_gt in E1.
      unfold geometry_invariant.
      cbn [bi_list direction start_idx cur_start_price].
      replace (i + 1 - 1)%Z with i by lia. fold c.
      repeat (split; [assumption|]). split; [lia | lra].
    + destruct (Qltb c p) eqn:E2.
      * eexists. split; [reflexivity|]. apply Qltb_lt in E2.
        unfold geometry_invariant.
        cbn [bi_list direction start_idx cur_start_price].
        replace (i + 1 - 1)%Z with i by lia. fold c.
        repeat (split; [assumption|]). split; [lia | lra].
      * exists st. split; [reflexivity|]. apply (Hkeep True).
        apply Qgtb_le in E1. apply Qltb_ge in E2. split; [exact Hempty | lra].
Qed.

Lemma identify_bi_scan (high low close : list Q) :
  exists bl,
    identify_bi high low close = Ok bl /\
    Forall (bi_fits close) bl /\ chained bl /\
    (forall b, hd_error bl = Some b -> start b = 0%Z).
Proof.
  unfold identify_bi.
  destruct (len close <? 5)%Z eqn:E.
  { exists []. repeat split; try constructor. discriminate. }
  apply Z.ltb_ge in E.
  rewrite (getitem_nth close 0) by lia. cbn [bind].
  destruct (for_fold_indexed
              (fun k st => geometry_invariant close (1 + Z.of_nat k) st)
              (bi_step close) (range 1 (len close))
              (mk_bi_state [] None 0 (nth (Z.to_nat 0) close 0)))
    as [st [Hst Hinv]].
  - unfold geometry_invariant.
    cbn [bi_list direction start_idx cur_start_price].
    split; [constructor|]. split; [exact I|]. split; [lia|].
    split; [apply getitem_nth; lia|]. split; [discriminate|].
    split; [reflexivity|]. split; [discriminate|].
    split; reflexivity.
  - intros k st x Hx Hk. apply nth_error_range in Hx as [-> Hlt].
    replace (1 + Z.of_nat (S k))%Z with (1 + Z.of_nat k + 1)%Z by lia.
    apply bi_step_geometry; [exact Hk | lia].
  - rewrite Hst. cbn [bind]. exists (bi_list st).
    destruct Hinv as [Hfit [Hch [_ [_ [_ [_ [Hhd _]]]]]]].
    repeat split; assumption.
Qed.

Lemma chained_adjacent (l : list bi) (i : nat) (b1 b2 : bi) :
  chained l ->
  nth_error l i = Some b1 -> nth_error l (S i) = Some b2 ->
  end_ b1 = start b2 /\ end_price b1 = start_price b2.
Proof.
  revert i. induction l as [|b l IH]; intros i Hc H1 H2;
    [destruct i; discriminate|].
  destruct Hc as [Hhead Hc].
  destruct i as [|i].
  - cbn in H1, H2. injection H1 as <-.
    destruct l as [|b' l]; [discriminate|]. cbn in H2. now injection H2 as <-.
  - cbn in H1, H2. now apply (IH i).
Qed.

(** X16.  [identify_bi] returns segments that fit the closes: each runs
    forward from a bar to a later one, its two prices are the closes of
    those bars, an up segment ends above its start and a down segment below
    it; the first segment starts at bar 0 and each further one starts at the
    bar and price where the one before it ends. *)
Theorem identify_bi_geometry (high low close : list Q) :
  exists bl,
    identify_bi high low close = Ok bl /\
    Forall (bi_fits close) bl /\
    (forall b, hd_error bl = Some b -> start b = 0%Z) /\
    (forall i b1 b2,
       nth_error bl i = Some b1 -> nth_error bl (S i) = Some b2 ->
       end_ b1 = start b2 /\ end_price b1 = start_price b2).
Proof.
  destruct (identify_bi_scan high low close) as [bl [Hbl [Hfit [Hch Hhd]]]].
  exists bl. split; [exact Hbl|]. split; [exact Hfit|]. split; [exact Hhd|].
  intros i b1 b2. now apply chained_adjacent.
Qed.

(** On two segments that share a turning point, the larger of the two
    lower ends is at most the smaller of the two upper ends. *)
Lemma shared_point_no_gap (s0 e0 e1 : Q) :
  Qgtb (py_max (py_min e0 s0) (py_min e1 e0))
       (py_min (py_max e0 s0) (py_max e1 e0)) = false.
Proof.
  apply Qgtb_le.
  apply Qle_trans with e0.
  - apply py_max_le.
    + destruct (py_min_spec e0 s0) as [[H ->] | [H ->]]; lra.
    + destruct (py_min_spec e1 e0) as [[H ->] | [H ->]]; lra.
  - apply py_min_ge.
    + destruct (py_max_spec e0 s0) as [[H ->] | [H ->]]; lra.
    + destruct (py_max_spec e1 e0) as [[H ->] | [H ->]]; lra.
Qed.

Lemma center_step_chained (bl : list bi) (centers : list center) (i : nat) :
  chained bl -> (i + 2 < length bl)%nat ->
  center_step bl centers (Z.of_nat i) = Ok centers.
Proof.
  intros Hch Hi. unfold center_step.
  set (d := mk_bi up 0 0 0 0).
  replace (Z.of_nat i + 1)%Z with (Z.of_nat (i + 1)) by lia.
  replace (Z.of_nat i + 2)%Z with (Z.of_nat (i + 2)) by lia.
  rewrite !(getitem_in_range bl d) by lia. cbn [bind].
  destruct (chained_adjacent bl i (nth i bl d) (nth (i + 1) bl d) Hch)
    as [_ Hprice].
  - apply nth_error_nth'. lia.
  - replace (S i) with (i + 1)%nat by lia. apply nth_error_nth'. lia.
  - rewrite <- Hprice. now rewrite shared_point_no_gap.
Qed.

Lemma identify_center_chained (bl : list bi) :
  chained bl -> identify_center bl = Ok [].
Proof.
  intros Hch. unfold identify_center.
  destruct (len bl <? 3)%Z eqn:E; [reflexivity|].
  apply Z.ltb_ge in E. unfold len in E.
  destruct (for_fold_invariant (fun cs : list center => cs = [])
              (fun i => (0 <= i < len bl - 2)%Z)
              (center_step bl) (range 0 (len bl - 2)) [])
    as [cs [Hcs ->]].
  - reflexivity.
  - intros i Hi. now apply in_range.
  - intros cs i -> Hi. exists []. split; [|reflexivity].
    unfold len in Hi. rewrite <- (Z2Nat.id i) by lia.
    apply center_step_chained; [exact Hch | lia].
  - exact Hcs.
Qed.

(** X17.  [identify_center] never finds a centre in the segments
    [identify_bi] produces: two consecutive segments share their turning
    point, so the larger of their lower ends is never above the smaller of
    their upper ends, and the test [upper > lower] fails at every
    position. *)
Theorem identify_center_of_identify_bi (high low close : list Q) :
  exists bl,
    identify_bi high low close = Ok bl /\ identify_center bl = Ok [].
Proof.
  destruct (identify_bi_scan high low close) as [bl [Hbl [_ [Hch _]]]].
  exists bl. split; [exact Hbl | now apply identify_center_chained].
Qed.

Lemma center_step_invariant (bl : list bi) (centers : list center)
  (i k : nat) :
  (i + 2 < length bl)%nat -> center_invariant k centers ->
  exists centers',
    center_step bl centers (Z.of_nat i) = Ok centers' /\
    center_invariant (S k) centers'.
Proof.
  intros Hi [Hlen Hall]. unfold center_step.
  set (d := mk_bi up 0 0 0 0).
  replace (Z.of_nat i + 1)%Z with (Z.of_nat (i + 1)) by lia.
  replace (Z.of_nat i + 2)%Z with (Z.of_nat (i + 2)) by lia.
  rewrite !(getitem_in_range bl d) by lia. cbn [bind].
  match goal with
  | |- context [Qgtb ?u ?l] => set (hi := u); set (lo := l)
  end.
  destruct (Qgtb hi lo) eqn:E.
  - eexists. split; [reflexivity|]. apply Qgtb_gt in E. split.
    + rewrite length_app. cbn [length]. lia.
    + apply Forall_snoc; [exact Hall|]. cbn [lower middle upper].
      assert (Hmid : (hi + lo) / 2 == (hi + lo) * (1 # 2)) by (field).
      rewrite Hmid. repeat split; lra.
  - exists centers. split; [reflexivity|]. split; [lia | exact Hall].
Qed.

(** X18.  On any list of segments [identify_center] returns without
    raising, with at most [len(bi_list) - 2] centres (none below three
    segments); in each of them [lower] is strictly below [upper] and
    [middle] lies between the two, ends included. *)
Theorem identify_center_bounds (bl : list bi) :
  exists centers,
    identify_center bl = Ok centers /\
    (length centers <= length bl - 2)%nat /\
    Forall (fun c => lower c < upper c /\
                     lower c <= middle c /\ middle c <= upper c) centers.
Proof.
  unfold identify_center.
  destruct (len bl <? 3)%Z eqn:E.
  { exists []. repeat split; [cbn; lia | constructor]. }
  apply Z.ltb_ge in E. unfold len in E.
  destruct (for_fold_indexed center_invariant (center_step bl)
              (range 0 (len bl - 2)) [])
    as [cs [Hcs [Hlen Hall]]].
  - split; [cbn; lia | constructor].
  - intros k cs i Hi Hk. apply nth_error_range in Hi as [-> Hlt].
    unfold len in Hlt. replace (0 + Z.of_nat k)%Z with (Z.of_nat k) by lia.
    apply center_step_invariant; [lia | exact Hk].
  - exists cs. split; [exact Hcs|]. split; [|exact Hall].
    rewrite length_range in Hlen. unfold len in Hlen. lia.
Qed.

End ChanProps.

(** * Further properties of the advisor *)

(** The two ends of a tail slice [l[-n:]]. *)
Lemma slice_from_end_skipn {A : Type} (l : list A) (n : nat) :
  (0 < n <= length l)%nat ->
  slice_from l (- Z.of_nat n) = skipn (length l - n) l.
Proof.
  intros Hn. unfold slice_from, py_slice.
  assert (Ha : slice_bound (len l) (- Z.of_nat n) = (len l - Z.of_nat n)%Z).
  { unfold slice_bound, len.
    destruct (- Z.of_nat n <? 0)%Z eqn:E; [|apply Z.ltb_ge in E]; lia. }
  rewrite Ha, slice_bound_inside by (unfold len; lia).
  unfold len. replace (Z.to_nat (Z.of_nat (length l) - Z.of_nat n))
    with (length l - n)%nat by lia.
  apply firstn_all2. rewrite length_skipn. lia.
Qed.

Lemma getitem_tail_last {A : Type} (l : list A) (n : nat) :
  (0 < n <= length l)%nat ->
  getitem (slice_from l (- Z.of_nat n)) (-1) = getitem l (-1).
Proof.
  intros Hn. rewrite slice_from_end_skipn by exact Hn.
  unfold getitem, len. rewrite length_skipn. cbn [Z.ltb Z.compare].
  replace (-1 + Z.of_nat (length l - (length l - n)) <? 0)%Z with false
    by (symmetry; apply Z.ltb_ge; lia).
  replace (-1 + Z.of_nat (length l) <? 0)%Z with false
    by (symmetry; apply Z.ltb_ge; lia).
  rewrite nth_error_skipn.
  replace (length l - n + Z.to_nat (-1 + Z.of_nat (length l - (length l - n))))%nat
    with (Z.to_nat (-1 + Z.of_nat (length l))) by lia.
  reflexivity.
Qed.

Lemma getitem_tail_first {A : Type} (l : list A) (n : nat) :
  (0 < n <= length l)%nat ->
  getitem (slice_from l (- Z.of_nat n)) 0 = getitem l (- Z.of_nat n).
Proof.
  intros Hn. rewrite slice_from_end_skipn by exact Hn.
  unfold getitem, len. cbn [Z.ltb Z.compare Z.to_nat].
  replace (- Z.of_nat n <? 0)%Z with true by (symmetry; apply Z.ltb_lt; lia).
  replace (- Z.of_nat n + Z.of_nat (length l) <? 0)%Z with false
    by (symmetry; apply Z.ltb_ge; lia).
  rewrite nth_error_skipn.
  replace (length l - n + 0)%nat
    with (Z.to_nat (- Z.of_nat n + Z.of_nat (length l))) by lia.
  reflexivity.
Qed.

Module FamilyScoreProps.
Import TradingAdvisor Spec WindowFacts.

Open Scope string_scope.

(** On closes that never move against [t]'s opposite, the scan of
    [identify_bi] never closes a segment. *)
Lemma bi_step_one_way (close : list Q) (st : ChanTheoryAnalysis.bi_state)
  (i : Z) (t : ChanTheoryAnalysis.bi_type) :
  (1 <= i < len close)%Z ->
  match t with
  | ChanTheoryAnalysis.up =>
      nth (Z.to_nat (i - 1)) close 0 <= nth (Z.to_nat i) close 0
  | ChanTheoryAnalysis.down =>
      nth (Z.to_nat i) close 0 <= nth (Z.to_nat (i - 1)) close 0
  end ->
  ChanTheoryAnalysis.bi_list st = [] /\
  ChanTheoryAnalysis.direction st <> Some (opposite t) ->
  exists st',
    ChanTheoryAnalysis.bi_step close st i = Ok st' /\
    ChanTheoryAnalysis.bi_list st' = [] /\
    ChanTheoryAnalysis.direction st' <> Some (opposite t).
Proof.
  intros Hi Hstep [Hnil Hdir]. unfold ChanTheoryAnalysis.bi_step.
  rewrite !(getitem_nth close i), !(getitem_nth close (i - 1)) by lia.
  set (c := nth (Z.to_nat i) close 0) in *.
  set (p := nth (Z.to_nat (i - 1)) close 0) in *.
  destruct (ChanTheoryAnalysis.direction st) as [[|]|] eqn:Ed; cbn [bind].
  - destruct t; [|now destruct Hdir].
    destruct (Qltb c p) eqn:E; [apply Qltb_lt in E; lra|].
    exists st. now rewrite Ed.
  - destruct t; [now destruct Hdir|].
    destruct (Qgtb c p) eqn:E; [apply Qgtb_gt in E; lra|].
    exists st. now rewrite Ed.
  - destruct (Qgtb c p) eqn:E1.
    + apply Qgtb_gt in E1. destruct t; [|lra].
      eexists. split; [reflexivity|]. split; [exact Hnil | discriminate].
    + destruct (Qltb c p) eqn:E2.
      * apply Qltb_lt in E2. destruct t; [lra|].
        eexists. split; [reflexivity|]. split; [exact Hnil | discriminate].
      * exists st. rewrite Ed. repeat split; [exact Hnil | discriminate].
Qed.

Lemma identify_bi_one_way (high low close : list Q)
  (t : ChanTheoryAnalysis.bi_type) :
  (forall i, (S i < length close)%nat ->
     match t with
     | ChanTheoryAnalysis.up => nth i close 0 <= nth (S i) close 0
     | ChanTheoryAnalysis.down => nth (S i) close 0 <= nth i close 0
     end) ->
  ChanTheoryAnalysis.identify_bi high low close = Ok [].
Proof.
  intros Hmono. unfold ChanTheoryAnalysis.identify_bi.
  destruct (len close <? 5)%Z eqn:E; [reflexivity|]. apply Z.ltb_ge in E.
  rewrite (getitem_nth close 0) by lia. cbn [bind].
  destruct (for_fold_invariant
              (fun st => ChanTheoryAnalysis.bi_list st = [] /\
                         ChanTheoryAnalysis.direction st <> Some (opposite t))
              (fun i => (1 <= i < len close)%Z)
              (ChanTheoryAnalysis.bi_step close) (range 1 (len close))
              (ChanTheoryAnalysis.mk_bi_state [] None 0
                 (nth (Z.to_nat 0) close 0)))
    as [st [Hst [Hnil _]]].
  - split; [reflexivity | discriminate].
  - intros i Hi. now apply in_range.
  - intros st i Hinv Hi. apply (bi_step_one_way close st i t Hi); [|exact Hinv].
    unfold len in Hi. pose proof (Hmono (Z.to_nat (i - 1)) ltac:(lia)) as H.
    replace (S (Z.to_nat (i - 1))) with (Z.to_nat i) in H by lia.
    exact H.
  - rewrite Hst. cbn [bind]. now rewrite Hnil.
Qed.

(** X19.  On closes that never fall, or never rise, [identify_bi] closes
    no segment, so [_analyze_chan] reports zero segments with the
    insufficient-data trend of strength 0, and the score of the Chan family
    computed from it is [-1], the most bearish value the family can
    take, whichever way the closes run. *)
Theorem monotone_closes_chan_score (highs lows closes : list Q) :
  (forall i, (S i < length closes)%nat ->
             nth i closes 0 <= nth (S i) closes 0) \/
  (forall i, (S i < length closes)%nat ->
             nth (S i) closes 0 <= nth i closes 0) ->
  exists chan,
    _analyze_chan highs lows closes = Ok chan /\
    chan_bi_count chan = 0%Z /\
    ChanTheoryAnalysis.trend (chan_trend chan) = "数据不足" /\
    raw_chan_score chan == -1.
Proof.
  intros Hmono. unfold _analyze_chan.
  assert (Hbi : ChanTheoryAnalysis.identify_bi highs lows closes = Ok []).
  { destruct Hmono as [Hup | Hdown].
    - now apply (identify_bi_one_way highs lows closes ChanTheoryAnalysis.up).
    - now apply (identify_bi_one_way highs lows closes ChanTheoryAnalysis.down). }
  rewrite Hbi. cbn [bind]. eexists. split; [reflexivity|].
  repeat split.
Qed.

Lemma monotone_closes_chan_score_witness :
  exists chan,
    _analyze_chan [] [] [1; 2; 3; 4; 5; 6] = Ok chan /\
    chan_bi_count chan = 0%Z /\
    ChanTheoryAnalysis.trend (chan_trend chan) = "数据不足" /\
    raw_chan_score chan == -1.
Proof.
  apply (monotone_closes_chan_score [] [] [1; 2; 3; 4; 5; 6]).
  left. intros i Hi. cbn in Hi.
  do 5 (destruct i as [|i]; [cbn; discriminate|]). lia.
Defined.

(** X20.  The score of the Chan family takes three values on the output
    of [_analyze_chan]: [-1] when [identify_bi] found fewer than three
    segments, [0.6] when there are at least three and the last one is up,
    and [-0.6] when the last one is down. *)
Theorem chan_score_values (highs lows closes : list Q) :
  exists bl chan,
    ChanTheoryAnalysis.identify_bi highs lows closes = Ok bl /\
    _analyze_chan highs lows closes = Ok chan /\
    chan_bi_count chan = len bl /\
    (((length bl < 3)%nat /\ raw_chan_score chan == -1) \/
     ((3 <= length bl)%nat /\
      exists b, last_segment bl = Some b /\
                raw_chan_score chan
                == match ChanTheoryAnalysis.type b with
                   | ChanTheoryAnalysis.up => 6 # 10
                   | ChanTheoryAnalysis.down => - (6 # 10)
                   end)).
Proof.
  destruct (ChanFacts.identify_bi_alternating highs lows closes)
    as [bl [Hbl Halt]].
  exists bl. unfold _analyze_chan. rewrite Hbl. cbn [bind].
  eexists. split; [reflexivity|]. split; [reflexivity|].
  split; [reflexivity|].
  destruct (Nat.lt_ge_cases (length bl) 3) as [Hlt | Hge].
  - left. split; [exact Hlt|].
    unfold raw_chan_score. cbn [chan_trend].
    unfold ChanTheoryAnalysis.analyze_trend.
    replace (len bl <? 3)%Z with true
      by (symmetry; apply Z.ltb_lt; unfold len; lia).
    reflexivity.
  - right. split; [exact Hge|].
    destruct (ChanFacts.analyze_trend_alternating bl Halt Hge) as [b [Hb Ht]].
    exists b. split; [exact Hb|].
    unfold raw_chan_score. cbn [chan_trend]. rewrite Ht.
    destruct (ChanTheoryAnalysis.type b); reflexivity.
Qed.

(** X21.  The score of the Elliott family takes three values on the
    output of [_analyze_elliott]: [0.4] on an upward wave pattern, [-0.2] on
    a downward one (whose prediction is a rebound), and [0] otherwise; it
    never goes below [-0.2]. *)
Theorem elliott_score_values (closes : list Q) :
  exists e,
    _analyze_elliott closes = Ok e /\
    ((ElliottWaveAnalysis.pattern (elliott_pattern e) = "上升趋势" /\
      raw_elliott_score e == 4 # 10) \/
     (ElliottWaveAnalysis.pattern (elliott_pattern e) = "下降趋势" /\
      raw_elliott_score e == - (2 # 10)) \/
     (ElliottWaveAnalysis.pattern (elliott_pattern e) <> "上升趋势" /\
      ElliottWaveAnalysis.pattern (elliott_pattern e) <> "下降趋势" /\
      raw_elliott_score e == 0)).
Proof.
  destruct (TotalityFacts.identify_wave_pattern_defined closes) as [w Hw].
  unfold _analyze_elliott, ElliottWaveAnalysis.predict_next_move.
  rewrite Hw. cbn [bind].
  apply ElliottProps.wave_pattern_cases in Hw.
  destruct w as [pat ph pk tr].
  cbn [ElliottWaveAnalysis.pattern ElliottWaveAnalysis.phase] in Hw |- *.
  destruct Hw as [Hw | [Hw | [Hw | [Hw | Hw]]]]; injection Hw as -> ->;
    (eexists; split; [reflexivity|]);
    cbn [elliott_pattern ElliottWaveAnalysis.pattern];
    [right; right | left | right; left | right; right | right; right];
    repeat split; discriminate.
Qed.

(** X22.  With at least five prices (and as many volumes),
    [analyze_supply_demand] labels the trend by comparing the last price
    with the fifth from the end, and the score of the Wyckoff family
    follows that comparison alone: it is [0.4], [0.2] or [0] when the last
    price is higher, and [-0.4], [-0.2] or [0] when it is not; the
    volume only chooses among the three sizes. *)
Theorem wyckoff_score_follows_price (prices volumes : list Q)
  (ph : WyckoffAnalysis.phase_dict) :
  (5 <= length prices)%nat -> length volumes = length prices ->
  exists sd s last fifth,
    WyckoffAnalysis.analyze_supply_demand prices volumes = Ok sd /\
    getitem prices (-1) = Ok last /\ getitem prices (-5) = Ok fifth /\
    raw_wyckoff_score (mk_wyckoff ph sd) = Ok s /\
    (fifth < last ->
     WyckoffAnalysis.trend sd = Some "上涨" /\
     (s == 4 # 10 \/ s == 2 # 10 \/ s == 0)) /\
    (last <= fifth ->
     WyckoffAnalysis.trend sd = Some "下跌" /\
     (s == - (4 # 10) \/ s == - (2 # 10) \/ s == 0)).
Proof.
  intros Hp Hv. unfold WyckoffAnalysis.analyze_supply_demand.
  replace (len prices <? 5)%Z with false
    by (symmetry; apply Z.ltb_ge; unfold len; lia).
  pose proof (getitem_tail_last prices 5 ltac:(lia)) as Hpl.
  pose proof (getitem_tail_first prices 5 ltac:(lia)) as Hpf.
  pose proof (getitem_tail_last volumes 5 ltac:(lia)) as Hvt.
  change (- Z.of_nat 5)%Z with (-5)%Z in Hpl, Hpf, Hvt.
  rewrite Hpl, Hpf, Hvt.
  destruct (getitem_in_bounds prices (-1)) as [last Hlast]; [unfold len; lia|].
  destruct (getitem_in_bounds prices (-5)) as [fifth Hfifth];
    [unfold len; lia|].
  destruct (getitem_in_bounds volumes (-1)) as [vl Hvl]; [unfold len; lia|].
  rewrite Hlast, Hfifth, Hvl. cbn [bind]. unfold and_then.
  set (avg := np_mean (slice_from volumes (-5))).
  destruct (Qgtb (last - fifth) 0) eqn:Eup;
    [apply Qgtb_gt in Eup | apply Qgtb_le in Eup];
    destruct (Qltb (last - fifth) 0) eqn:Edown;
    destruct (Qgtb vl avg) eqn:Eabove; destruct (Qltb vl avg) eqn:Ebelow;
    cbn [bind];
    (eexists; eexists; exists last, fifth;
     split; [reflexivity|]; split; [reflexivity|]; split; [reflexivity|];
     split; [reflexivity|];
     split; intros Hcmp; try lra;
     (split; [reflexivity|]);
     first [ left; now vm_compute
           | right; left; now vm_compute
           | right; right; now vm_compute ]).
Qed.

Lemma wyckoff_score_follows_price_witness :
  exists sd s last fifth,
    WyckoffAnalysis.analyze_supply_demand [1; 2; 3; 4; 5] [1; 1; 1; 1; 3]
    = Ok sd /\
    getitem [1; 2; 3; 4; 5] (-1) = Ok last /\
    getitem [1; 2; 3; 4; 5] (-5) = Ok fifth /\
    raw_wyckoff_score
      (mk_wyckoff (WyckoffAnalysis.mk_phase "观察阶段" "等待信号" None None) sd)
    = Ok s /\
    (fifth < last ->
     WyckoffAnalysis.trend sd = Some "上涨" /\
     (s == 4 # 10 \/ s == 2 # 10 \/ s == 0)) /\
    (last <= fifth ->
     WyckoffAnalysis.trend sd = Some "下跌" /\
     (s == - (4 # 10) \/ s == - (2 # 10) \/ s == 0)).
Proof.
  apply (wyckoff_score_follows_price [1; 2; 3; 4; 5] [1; 1; 1; 1; 3]);
    [cbn; lia | reflexivity].
Defined.

(** X23.  Below five prices [analyze_supply_demand] returns the
    dictionary without a [trend] entry, and [_calculate_score] given that
    dictionary raises [KeyError] when it reads the entry, whatever the
    other analyses are. *)
Theorem calculate_score_short_series_raises (prices volumes : list Q)
  (indicators : indicators_dict) (fib : fib_dict) (elliott : elliott_dict)
  (chan : chan_dict) (ph : WyckoffAnalysis.phase_dict) :
  (length prices < 5)%nat ->
  exists sd,
    WyckoffAnalysis.analyze_supply_demand prices volumes = Ok sd /\
    WyckoffAnalysis.trend sd = None /\
    _calculate_score indicators fib elliott chan (mk_wyckoff ph sd)
    = Raise KeyError.
Proof.
  intros Hlen. unfold WyckoffAnalysis.analyze_supply_demand.
  replace (len prices <? 5)%Z with true
    by (symmetry; apply Z.ltb_lt; unfold len; lia).
  eexists. split; [reflexivity|]. split; reflexivity.
Qed.

Lemma calculate_score_short_series_raises_witness :
  exists sd,
    WyckoffAnalysis.analyze_supply_demand [1; 2; 3] [1; 1; 1] = Ok sd /\
    WyckoffAnalysis.trend sd = None /\
    _calculate_score (Examples.indicators_with_macd 0 1)
      (Examples.fib_of 1 2 1) Examples.sideways_elliott
      Examples.sideways_chan
      (mk_wyckoff (WyckoffAnalysis.mk_phase "数据不足" "观察" None None) sd)
    = Raise KeyError.
Proof.
  apply (calculate_score_short_series_raises [1; 2; 3] [1; 1; 1]). cbn. lia.
Defined.

End FamilyScoreProps.

Module ScoreRangeProps.
Import TechnicalIndicators TradingAdvisor Spec WindowFacts.

Open Scope string_scope.

(** Splits the conditionals of [H] until it is an equation between
    values. *)
Ltac branch_all H :=
  repeat match type of H with
    | context [if ?c then _ else _] => destruct c
    end.

Lemma _analyze_macd_signal_range (macd : macd_dict) (s : signal_dict) :
  _analyze_macd_signal macd = Ok s -> - (7 # 2) <= score s <= 7 # 2.
Proof.
  unfold _analyze_macd_signal. intros H.
  destruct (_ || _); [injection H as <-; cbn; lra|].
  bind_inv H dif Hdif. bind_inv H dea Hdea. bind_inv H bar Hbar.
  bind_inv H cross Hcross. destruct cross as [sigs sc].
  assert (Hsc : sc = 0 + 2 \/ sc = 0 - 2 \/ sc = 0).
  { destruct (2 <=? len (DIF macd))%Z; [|injection Hcross as _ <-; tauto].
    bind_inv Hcross golden Hg.
    destruct golden; [injection Hcross as _ <-; tauto|].
    bind_inv Hcross dead Hd.
    destruct dead; injection Hcross as _ <-; tauto. }
  branch_all H; injection H as <-; cbn [score];
    destruct Hsc as [-> | [-> | ->]]; lra.
Qed.

Lemma _analyze_kdj_signal_range (kdj : kdj_dict) (s : signal_dict) :
  _analyze_kdj_signal kdj = Ok s -> - 3 <= score s <= 3.
Proof.
  unfold _analyze_kdj_signal. intros H.
  destruct (len (K kdj) =? 0)%Z; [injection H as <-; cbn; lra|].
  bind_inv H k Hk. bind_inv H d Hd. bind_inv H j Hj.
  set (zone := if Qgtb k 80 && Qgtb d 80 then _ else _) in H.
  assert (Hzone : snd zone = 0 - 1 \/ snd zone = 0 + 1 \/ snd zone = 0).
  { unfold zone. destruct (Qgtb k 80 && Qgtb d 80); [tauto|].
    destruct (Qltb k 20 && Qltb d 20); tauto. }
  destruct zone as [sigs0 sc0]. cbn [snd] in Hzone.
  bind_inv H cross Hcross. destruct cross as [sigs sc].
  assert (Hsc : sc = sc0 + (3 # 2) \/ sc = sc0 - (3 # 2) \/ sc = sc0).
  { destruct (2 <=? len (K kdj))%Z; [|injection Hcross as _ <-; tauto].
    bind_inv Hcross golden Hg.
    destruct golden; [injection Hcross as _ <-; tauto|].
    bind_inv Hcross dead Hdd.
    destruct dead; injection Hcross as _ <-; tauto. }
  branch_all H; injection H as <-; cbn [score];
    destruct Hsc as [-> | [-> | ->]]; destruct Hzone as [-> | [-> | ->]]; lra.
Qed.

Lemma _analyze_boll_signal_range (price : Q) (boll : boll_dict)
  (s : signal_dict) :
  _analyze_boll_signal price boll = Ok s -> - 1 <= score s <= 1.
Proof.
  unfold _analyze_boll_signal. intros H.
  destruct (len (MIDDLE boll) =? 0)%Z; [injection H as <-; cbn; lra|].
  bind_inv H u Hu. bind_inv H m Hm. bind_inv H l Hl.
  branch_all H; injection H as <-; cbn [score]; lra.
Qed.

Lemma _analyze_rsi_signal_range (rsi : list Q) (s : signal_dict) :
  _analyze_rsi_signal rsi = Ok s -> - 1 <= score s <= 1.
Proof.
  unfold _analyze_rsi_signal. intros H.
  destruct (len rsi =? 0)%Z; [injection H as <-; cbn; lra|].
  bind_inv H r Hr.
  branch_all H; injection H as <-; cbn [score]; lra.
Qed.

Lemma position_term_range (price : Q) (values : list Q) :
  (- Z.of_nat (length values) <= position_term price values
   <= Z.of_nat (length values))%Z.
Proof.
  induction values as [|v values IH]; [cbn; lia|].
  cbn [position_term fold_right length]. fold (position_term price values).
  destruct (Qgtb price v); lia.
Qed.

Lemma length_last_ma_values (ma_dict : list (nat * list (option Q))) :
  (length (last_ma_values ma_dict) <= length ma_dict)%nat.
Proof.
  induction ma_dict as [|[p v] d IH]; [cbn; lia|].
  rewrite MaFacts.last_ma_values_cons.
  destruct (last v None); cbn [app length]; rewrite ?length_app; cbn; lia.
Qed.

Lemma length_dict_set {V : Type} (d : list (nat * V)) (k : nat) (v : V) :
  (length (dict_set d k v) <= S (length d))%nat.
Proof.
  induction d as [|[k' v'] d IH]; [cbn; lia|].
  cbn [dict_set]. destruct (Nat.eqb k k'); cbn [length]; lia.
Qed.

Lemma length_calculate_ma (prices : list Q) (periods : list nat) :
  (length (calculate_ma prices periods) <= length periods)%nat.
Proof.
  unfold calculate_ma.
  assert (H : forall acc,
             (length (fold_left
                (fun result period =>
                   if (Z.of_nat period <=? len prices)%Z
                   then dict_set result period (ma_series prices period)
                   else result) periods acc)
              <= length acc + length periods)%nat).
  { induction periods as [|p periods IH]; intros acc; [cbn; lia|].
    cbn [fold_left length]. etransitivity; [apply IH|].
    destruct (Z.of_nat p <=? len prices)%Z; [|lia].
    pose proof (length_dict_set acc p (ma_series prices p)). lia. }
  apply (H []).
Qed.

(** The MA score is one vote per moving average and two for the
    alignment. *)
Lemma _analyze_ma_signal_range (price : Q)
  (ma_dict : list (nat * list (option Q))) :
  (- (Z.of_nat (length ma_dict) + 2)
   <= ma_score (_analyze_ma_signal price ma_dict)
   <= Z.of_nat (length ma_dict) + 2)%Z.
Proof.
  pose proof (MaFacts.ma_score_terms price ma_dict) as H. cbv zeta in H.
  rewrite H.
  pose proof (position_term_range price (last_ma_values ma_dict)).
  pose proof (length_last_ma_values ma_dict).
  unfold alignment_term.
  destruct (non_increasing _); [lia|]. destruct (non_decreasing _); lia.
Qed.

Lemma _analyze_indicators_score_range (sqrt : Q -> Q)
  (closes highs lows volumes : list Q) (ind : indicators_dict) :
  _analyze_indicators sqrt closes highs lows volumes = Ok ind ->
  (- 7 <= ma_score (MA ind) <= 7)%Z /\
  - (7 # 2) <= score (MACD_signal ind) <= 7 # 2 /\
  - 3 <= score (KDJ ind) <= 3 /\
  - 1 <= score (BOLL ind) <= 1 /\
  - 1 <= score (RSI ind) <= 1.
Proof.
  unfold _analyze_indicators. intros H. cbv zeta in H.
  bind_inv H price Hprice. bind_inv H macd Hmacd. bind_inv H ms Hms.
  bind_inv H kdj Hkdj. bind_inv H ks Hks. bind_inv H bs Hbs.
  bind_inv H rsi Hrsi. bind_inv H rs Hrs. bind_inv H atr Hatr.
  bind_inv H vol Hvol. bind_inv H mav Hmav.
  bind_inv H v1 Hv1. bind_inv H v2 Hv2. bind_inv H v3 Hv3.
  bind_inv H v4 Hv4. bind_inv H v5 Hv5. bind_inv H v6 Hv6.
  bind_inv H v7 Hv7. bind_inv H v8 Hv8. bind_inv H v9 Hv9.
  bind_inv H v10 Hv10. injection H as <-.
  cbn [MA MACD_signal KDJ BOLL RSI].
  split; [|split; [|split; [|split]]].
  - pose proof (_analyze_ma_signal_range price
                  (calculate_ma closes [5; 10; 20; 30; 60]%nat)) as Hma.
    pose proof (length_calculate_ma closes [5; 10; 20; 30; 60]%nat) as Hl.
    cbn [length] in Hl. lia.
  - now apply (_analyze_macd_signal_range macd).
  - now apply (_analyze_kdj_signal_range kdj).
  - now apply (_analyze_boll_signal_range price (calculate_boll sqrt closes 20 2)).
  - now apply (_analyze_rsi_signal_range rsi).
Qed.

Lemma raw_indicator_score_range (ind : indicators_dict) :
  (- 7 <= ma_score (MA ind) <= 7)%Z ->
  - (7 # 2) <= score (MACD_signal ind) <= 7 # 2 ->
  - 3 <= score (KDJ ind) <= 3 ->
  - 1 <= score (BOLL ind) <= 1 ->
  - 1 <= score (RSI ind) <= 1 ->
  - (3525 # 1000) <= raw_indicator_score ind <= 3525 # 1000.
Proof.
  intros [Hma1 Hma2] Hmacd Hkdj Hboll Hrsi. unfold raw_indicator_score.
  rewrite Zle_Qle in Hma1, Hma2.
  change (inject_Z (-7)) with (-7) in Hma1.
  change (inject_Z 7) with 7 in Hma2.
  set (m := inject_Z (ma_score (MA ind))) in *.
  lra.
Qed.

Lemma _analyze_elliott_score_range (closes : list Q) (e : elliott_dict) :
  _analyze_elliott closes = Ok e ->
  - (2 # 10) <= raw_elliott_score e <= 4 # 10.
Proof.
  unfold _analyze_elliott, ElliottWaveAnalysis.predict_next_move. intros H.
  bind_inv H w Hw.
  apply ElliottProps.wave_pattern_cases in Hw.
  destruct w as [pat ph pk tr].
  cbn [ElliottWaveAnalysis.pattern ElliottWaveAnalysis.phase] in Hw.
  destruct Hw as [Hw | [Hw | [Hw | [Hw | Hw]]]]; injection Hw as -> ->;
    cbn in H; injection H as <-; split; vm_compute; discriminate.
Qed.

Lemma _analyze_chan_score_range (highs lows closes : list Q) (c : chan_dict) :
  _analyze_chan highs lows closes = Ok c ->
  - 1 <= raw_chan_score c <= 6 # 10.
Proof.
  unfold _analyze_chan. intros H. bind_inv H bl Hbl. injection H as <-.
  unfold raw_chan_score, ChanTheoryAnalysis.analyze_trend. cbn [chan_trend].
  destruct (len bl <? 3)%Z; [split; vm_compute; discriminate|].
  destruct (forallb _ _); [split; vm_compute; discriminate|].
  destruct (forallb _ _); split; vm_compute; discriminate.
Qed.

Lemma _analyze_wyckoff_score_range (closes volumes : list Q)
  (w : wyckoff_dict) (s : Q) :
  _analyze_wyckoff closes volumes = Ok w ->
  raw_wyckoff_score w = Ok s ->
  - (4 # 10) <= s <= 4 # 10.
Proof.
  unfold _analyze_wyckoff. intros H Hs.
  bind_inv H ph Hph. bind_inv H sd Hsd. injection H as <-.
  unfold raw_wyckoff_score in Hs. cbn [supply_demand] in Hs.
  unfold WyckoffAnalysis.analyze_supply_demand in Hsd.
  destruct (len closes <? 5)%Z; [injection Hsd as <-; discriminate Hs|].
  bind_inv Hsd pl Hpl. bind_inv Hsd pf Hpf. cbv zeta in Hsd.
  destruct (Qgtb (pl - pf) 0);
    repeat match type of Hsd with
      | bind ?m _ = Ok _ =>
          let c := fresh "c" in
          let Hc := fresh "Hc" in
          destruct m as [c|] eqn:Hc; [cbn [bind] in Hsd | discriminate Hsd];
          destruct c
      end;
    injection Hsd as <-; cbn in Hs; injection Hs as <-;
    split; vm_compute; discriminate.
Qed.

(** The composite of scores within the ranges of the five families. *)
Lemma total_score_range (i e c w : Q) :
  - (3525 # 1000) <= i <= 3525 # 1000 ->
  - (2 # 10) <= e <= 4 # 10 -> - 1 <= c <= 6 # 10 ->
  - (4 # 10) <= w <= 4 # 10 ->
  327 # 10 <= round2 (normalized_score (total_score i e c w)) <= 669 # 10.
Proof.
  intros Hi He Hc Hw.
  assert (Ht : - (173 # 100) <= total_score i e c w <= 169 # 100)
    by (unfold total_score; lra).
  set (t := total_score i e c w) in *. clearbody t.
  assert (Hn : 327 # 10 <= normalized_score t <= 669 # 10).
  { rewrite AdvisorFacts.normalized_score_clamp. unfold clamp.
    assert (Hv : (t + 5) / 10 * 100 == 10 * t + 50) by field.
    set (v := (t + 5) / 10 * 100) in *. clearbody v. qcases; lra. }
  destruct Hn as [Hlo Hhi]. apply round2_mono in Hlo, Hhi.
  split.
  - apply Qle_trans with (round2 (327 # 10)); [vm_compute; discriminate|].
    exact Hlo.
  - apply Qle_trans with (round2 (669 # 10)); [exact Hhi|].
    vm_compute; discriminate.
Qed.

(** X24.  Whenever [analyze_comprehensive] returns an analysis, its total
    score lies between 32.7 and 66.9, because each family score has a fixed
    range: the clamp to [0, 100] is never active, a total above 70 or below
    30 is never reached, and the 24-hour prediction, which asks for one, is
    the sideways one for every input. *)
Theorem analysis_total_range (sqrt : Q -> Q) (klines : list kline)
  (a : analysis_dict) :
  analyze_comprehensive sqrt klines = Ok (AnalysisDict a) ->
  327 # 10 <= total (analysis_score a) <= 669 # 10 /\
  rec_score (recommendations a) = total (analysis_score a) /\
  at_24h (predictions (recommendations a)) = "震荡".
Proof.
  unfold analyze_comprehensive. intros H.
  destruct (len klines <? 30)%Z; [discriminate H|]. cbv zeta in H.
  bind_inv H price Hprice. bind_inv H ind Hind. bind_inv H fib Hfib.
  bind_inv H el Hel. bind_inv H ch Hch. bind_inv H wy Hwy.
  bind_inv H sc Hsc. injection H as <-.
  cbn [analysis_score recommendations].
  assert (Htotal : 327 # 10 <= total sc <= 669 # 10).
  { unfold _calculate_score in Hsc. bind_inv Hsc ws Hws.
    injection Hsc as <-. cbn [total].
    apply total_score_range.
    - apply raw_indicator_score_range;
        now apply (_analyze_indicators_score_range _ _ _ _ _ _ Hind).
    - now apply (_analyze_elliott_score_range _ _ Hel).
    - now apply (_analyze_chan_score_range _ _ _ _ Hch).
    - now apply (_analyze_wyckoff_score_range _ _ _ _ Hwy). }
  split; [exact Htotal|].
  unfold _generate_recommendations, decide.
  destruct Htotal as [Hlo Hhi].
  assert (H70 : Qgtb (total sc) 70 = false) by (apply Qgtb_le; lra).
  assert (H30 : Qltb (total sc) 30 = false) by (apply Qltb_ge; lra).
  destruct (Qgtb (total sc) 65); [cbn; now rewrite H70|].
  destruct (Qgtb (total sc) 55); [cbn; now rewrite H70|].
  destruct (Qltb (total sc) 35); [cbn; now rewrite H30|].
  destruct (Qltb (total sc) 45); [cbn; now rewrite H30|].
  split; reflexivity.
Qed.

Lemma analysis_total_range_witness :
  exists a,
    analyze_comprehensive (fun x => x) Examples.flat_klines
    = Ok (AnalysisDict a) /\
    327 # 10 <= total (analysis_score a) <= 669 # 10 /\
    rec_score (recommendations a) = total (analysis_score a) /\
    at_24h (predictions (recommendations a)) = "震荡".
Proof.
  eexists. split; [vm_compute; reflexivity|].
  apply (analysis_total_range (fun x => x) Examples.flat_klines).
  vm_compute. reflexivity.
Defined.

End ScoreRangeProps.

Module PipelineProps.
Import TradingAdvisor.

Open Scope string_scope.

Lemma analyze_comprehensive_defined_witness :
  exists a,
    analyze_comprehensive (fun x => x) Examples.flat_klines
    = Ok (AnalysisDict a).
Proof.
  apply (TotalityFacts.analyze_comprehensive_defined (fun x => x)
           Examples.flat_klines).
  - vm_compute. lia.
  - intros k Hk. vm_compute in Hk. injection Hk as <-. discriminate.
Defined.


End PipelineProps.
